(** * HubSpace authentication (hubspace_async/auth.py)

    A shallow embedding of the authentication module and the properties its
    specification states about it.

    The module is asynchronous Python.  A coroutine is embedded as a term of
    an inductive resumption monad [coro]: every place where the source talks
    to the outside (an HTTP exchange, the wall clock, the random source, an
    attribute of the shared authenticator object, the lock) is a node of the
    term, and the rest of the coroutine is the continuation below it.  One
    definition of each source function is then given two readings: a
    sequential interpreter [run] against an environment, and an interleaving
    step relation for several callers of one authenticator.

    Conventions of the embedding:
    - a Python [str] is a [string]; values decoded from JSON are [value]s;
    - POSIX timestamps (Python floats) are exact rationals [Q], in seconds;
    - exceptions are the constructors of [exn]; their messages are dropped;
    - logging calls have no effect on the behaviour and are left out. *)

From Stdlib Require Import ZArith QArith Lqa Ascii String List Lia.
From Stdlib.Strings Require Import Byte.
From stdpp Require Import base option list gmap strings.

Set Warnings "-register-all".

(** ** Python values and exceptions *)

(** What [json.loads] can produce: the values stored in the caches are
    whatever the token endpoint put in its JSON document. *)
Inductive value : Type :=
| VNone
| VBool (b : bool)
| VInt (n : Z)
| VFloat (q : Q)
| VStr (s : string)
| VList (l : list value)
| VDict (d : gmap string value).

(** Python's truth test, as used by [if not x]. *)
Definition truthy (v : value) : bool :=
  match v with
  | VNone => false
  | VBool b => b
  | VInt n => negb (n =? 0)%Z
  | VFloat q => negb (Qeq_bool q 0)
  | VStr s => negb (String.eqb s "")
  | VList l => match l with [] => false | _ => true end
  | VDict d => negb (bool_decide (d = ∅))
  end.

Inductive exn : Type :=
| InvalidAuth
| InvalidResponse
| ClientResponseError (status : Z)
| KeyError (key : string)
| IndexError
| TypeError
| AttributeError
| ValueError
| ParserRejectedMarkup
| TransportError (what : string).

(** Pure code that may raise. *)
Inductive result (A : Type) : Type :=
| Ok (a : A)
| Raise (e : exn).
Arguments Ok {A} a.
Arguments Raise {A} e.

#[global] Instance result_ret : MRet result := fun A a => Ok a.
#[global] Instance result_bind : MBind result := fun A B f r =>
  match r with Ok a => f a | Raise e => Raise e end.

(** [v[key]] for a string key. *)
Definition subscript (v : value) (key : string) : result value :=
  match v with
  | VDict d => match d !! key with Some x => Ok x | None => Raise (KeyError key) end
  | _ => Raise TypeError
  end.

(** [d[key]] on a dictionary with string keys. *)
Definition getitem {V : Type} (d : gmap string V) (key : string) : result V :=
  match d !! key with Some x => Ok x | None => Raise (KeyError key) end.

(** [l[0]]. *)
Definition first {V : Type} (l : list V) : result V :=
  match l with x :: _ => Ok x | [] => Raise IndexError end.

(** ** Named tuples *)

Module auth_challenge.
Record t : Type := AuthChallenge { challenge : string; verifier : string }.
End auth_challenge.

Module token_data.
Record t : Type := TokenData { token : value; expiration : Q }.
End token_data.

Module auth_sess_data.
Record t : Type :=
  AuthSessionData { session_code : string; execution : string; tab_id : string }.
End auth_sess_data.

(** ** Constants *)

Definition HUBSPACE_OPENID_URL : string :=
  "https://accounts.hubspaceconnect.com/auth/realms/thd/protocol/openid-connect/auth".
Definition HUBSPACE_DEFAULT_CLIENT_ID : string := "hubspace_android".
Definition HUBSPACE_DEFAULT_REDIRECT_URI : string := "hubspace-app://loginredirect".
Definition HUBSPACE_CODE_URL : string :=
  "https://accounts.hubspaceconnect.com/auth/realms/thd/login-actions/authenticate".
Definition HUBSPACE_TOKEN_URL : string :=
  "https://accounts.hubspaceconnect.com/auth/realms/thd/protocol/openid-connect/token".
Definition TOKEN_TIMEOUT : Q := 118 # 1.

(** ** The HTTP client (aiohttp) *)

Inductive Request : Type :=
| GET (url : string) (params : list (string * string))
| POST (url : string) (params : list (string * string))
       (data : list (string * value)) (headers : list (string * string))
       (allow_redirects : bool).

(** The part of [aiohttp.ClientResponse] the module reads.  Header names are
    case-insensitive in aiohttp; [headers] is keyed by the lower-case name. *)
Record ClientResponse : Type := {
  status : Z;
  url : string;
  headers : gmap string string;
  text : string;
  json : result value
}.

(** What awaiting [client.get] or [client.post] gives: a response, or an
    exception of the transport. *)
Inductive reply : Type :=
| Response (r : ClientResponse)
| Failure (e : exn).

(** [response.raise_for_status()]: aiohttp raises when the status is 400 or
    above. *)
Definition raise_for_status (response : ClientResponse) : result unit :=
  if (400 <=? status response)%Z then Raise (ClientResponseError (status response))
  else Ok tt.

(** ** The authenticator object *)

Record HubSpaceAuth : Type := {
  _async_lock : bool;               (* [true] while the lock is held *)
  _username : string;
  _password : string;
  _refresh_token : value;
  _token_data : option token_data.t
}.

Definition __init__ (username password : string) : HubSpaceAuth :=
  {| _async_lock := false;
     _username := username;
     _password := password;
     _refresh_token := VNone;
     _token_data := None |}.

Definition set_refresh_token (v : value) (self : HubSpaceAuth) : HubSpaceAuth :=
  {| _async_lock := _async_lock self;
     _username := _username self;
     _password := _password self;
     _refresh_token := v;
     _token_data := _token_data self |}.

Definition set_token_data (td : token_data.t) (self : HubSpaceAuth) : HubSpaceAuth :=
  {| _async_lock := _async_lock self;
     _username := _username self;
     _password := _password self;
     _refresh_token := _refresh_token self;
     _token_data := Some td |}.

Definition set_lock (b : bool) (self : HubSpaceAuth) : HubSpaceAuth :=
  {| _async_lock := b;
     _username := _username self;
     _password := _password self;
     _refresh_token := _refresh_token self;
     _token_data := _token_data self |}.

(** ** Coroutines *)

Inductive coro (A : Type) : Type :=
| Ret (a : A)
| Throw (e : exn)
| Http (rq : Request) (k : reply → coro A)        (* await client.get / client.post *)
| Now (k : Q → coro A)                             (* datetime.datetime.now().timestamp() *)
| Urandom (n : nat) (k : list byte → coro A)       (* os.urandom(n) *)
| Load (k : HubSpaceAuth → coro A)                 (* read the attributes of self *)
| Store (f : HubSpaceAuth → HubSpaceAuth) (k : coro A)  (* assign an attribute of self *)
| Acquire (k : coro A)                             (* enter async with self._async_lock *)
| Release (k : coro A).                            (* leave it *)
Arguments Ret {A} a.
Arguments Throw {A} e.
Arguments Http {A} rq k.
Arguments Now {A} k.
Arguments Urandom {A} n k.
Arguments Load {A} k.
Arguments Store {A} f k.
Arguments Acquire {A} k.
Arguments Release {A} k.

Fixpoint coro_bind {A B : Type} (f : A → coro B) (p : coro A) : coro B :=
  match p with
  | Ret a => f a
  | Throw e => Throw e
  | Http rq k => Http rq (fun r => coro_bind f (k r))
  | Now k => Now (fun t => coro_bind f (k t))
  | Urandom n k => Urandom n (fun bs => coro_bind f (k bs))
  | Load k => Load (fun s => coro_bind f (k s))
  | Store g k => Store g (coro_bind f k)
  | Acquire k => Acquire (coro_bind f k)
  | Release k => Release (coro_bind f k)
  end.

#[global] Instance coro_mret : MRet coro := fun A a => Ret a.
#[global] Instance coro_mbind : MBind coro := fun A B f p => coro_bind f p.

(** A pure computation used inside a coroutine. *)
Definition lift {A : Type} (r : result A) : coro A :=
  match r with Ok a => Ret a | Raise e => Throw e end.

(** The lock is released on the way out, by return or by exception. *)
Fixpoint releasing {A : Type} (p : coro A) : coro A :=
  match p with
  | Ret a => Release (Ret a)
  | Throw e => Release (Throw e)
  | Http rq k => Http rq (fun r => releasing (k r))
  | Now k => Now (fun t => releasing (k t))
  | Urandom n k => Urandom n (fun bs => releasing (k bs))
  | Load k => Load (fun s => releasing (k s))
  | Store g k => Store g (releasing k)
  | Acquire k => Acquire (releasing k)
  | Release k => Release (releasing k)
  end.

(** [async with self._async_lock: body]. *)
Definition async_with_lock {A : Type} (body : coro A) : coro A :=
  Acquire (releasing body).

Definition await_reply (rq : Request) : coro ClientResponse :=
  Http rq (fun r => match r with Response x => Ret x | Failure e => Throw e end).

Definition client_get (u : string) (params : list (string * string)) : coro ClientResponse :=
  await_reply (GET u params).

Definition client_post (u : string) (params : list (string * string))
    (data : list (string * value)) (hdrs : list (string * string))
    (allow_redirects : bool) : coro ClientResponse :=
  await_reply (POST u params data hdrs allow_redirects).

(** ** Bytes and characters *)

Definition Z_of_byte (b : byte) : Z := Z.of_N (Byte.to_N b).

Definition byte_of_Z (z : Z) : byte :=
  match Byte.of_N (Z.to_N (z mod 256)) with Some b => b | None => x00 end.

(** [s.encode("utf-8")] and [bs.decode("utf-8")]: a [string] already is its
    byte sequence. *)
Definition encode_utf8 (s : string) : list byte := list_byte_of_string s.
Definition decode_utf8 (bs : list byte) : string := string_of_list_byte bs.

Definition is_alnum (c : ascii) : bool :=
  let n := Z.of_N (N_of_ascii c) in
  ((48 <=? n) && (n <=? 57) || (65 <=? n) && (n <=? 90) || (97 <=? n) && (n <=? 122))%Z.

(** [re.sub(p, "", s)] for a pattern [p] that matches the non-empty runs of
    the characters outside a class: what is left is the characters of the
    class, in order.  [keep] decides the class. *)
Fixpoint re_sub_outside (keep : ascii → bool) (s : string) : string :=
  match s with
  | EmptyString => EmptyString
  | String c s' =>
      if keep c then String c (re_sub_outside keep s') else re_sub_outside keep s'
  end.

(** [s.replace(c, "")] for a one-character [c]. *)
Definition remove_char (c : ascii) (s : string) : string :=
  re_sub_outside (fun x => negb (Ascii.eqb x c)) s.

Fixpoint string_forall (P : ascii → bool) (s : string) : bool :=
  match s with
  | EmptyString => true
  | String c s' => P c && string_forall P s'
  end.

(** ** base64.urlsafe_b64encode *)

Module Base64.

Definition alphabet : list ascii :=
  list_ascii_of_string
    "ABCDEFGHIJKLMNOPQRSTUVWXYZabcdefghijklmnopqrstuvwxyz0123456789-_".

Definition digit (n : Z) : ascii := nth (Z.to_nat n) alphabet "A"%char.

Definition pad : ascii := "="%char.

(** Three bytes give four digits; a last group of one or two bytes is
    padded with [=]. *)
Fixpoint encode_Z (bs : list Z) : list ascii :=
  match bs with
  | a :: b :: c :: rest =>
      digit (Z.shiftr a 2)
      :: digit (Z.lor (Z.shiftl (Z.land a 3) 4) (Z.shiftr b 4))
      :: digit (Z.lor (Z.shiftl (Z.land b 15) 2) (Z.shiftr c 6))
      :: digit (Z.land c 63)
      :: encode_Z rest
  | [a; b] =>
      [digit (Z.shiftr a 2);
       digit (Z.lor (Z.shiftl (Z.land a 3) 4) (Z.shiftr b 4));
       digit (Z.shiftl (Z.land b 15) 2);
       pad]
  | [a] =>
      [digit (Z.shiftr a 2); digit (Z.shiftl (Z.land a 3) 4); pad; pad]
  | [] => []
  end.

Definition urlsafe_b64encode (bs : list byte) : list byte :=
  map byte_of_ascii (encode_Z (map Z_of_byte bs)).

End Base64.

(** ** hashlib.sha256 *)

Module SHA256.

Definition wrap (x : Z) : Z := x mod 2 ^ 32.
Definition add32 (x y : Z) : Z := wrap (x + y).
Definition rotr (n x : Z) : Z := Z.lor (Z.shiftr x n) (wrap (Z.shiftl x (32 - n))).
Definition shr (n x : Z) : Z := Z.shiftr x n.

Definition Ch (x y z : Z) : Z := Z.lxor (Z.land x y) (Z.land (Z.lnot x) z).
Definition Maj (x y z : Z) : Z :=
  Z.lxor (Z.lxor (Z.land x y) (Z.land x z)) (Z.land y z).
Definition Sigma0 (x : Z) : Z := Z.lxor (Z.lxor (rotr 2 x) (rotr 13 x)) (rotr 22 x).
Definition Sigma1 (x : Z) : Z := Z.lxor (Z.lxor (rotr 6 x) (rotr 11 x)) (rotr 25 x).
Definition sigma0 (x : Z) : Z := Z.lxor (Z.lxor (rotr 7 x) (rotr 18 x)) (shr 3 x).
Definition sigma1 (x : Z) : Z := Z.lxor (Z.lxor (rotr 17 x) (rotr 19 x)) (shr 10 x).

(** The round constants and the initial state are the first 32 bits of the
    fractional parts of the cube roots of the first 64 primes, and of the
    square roots of the first 8. *)
Definition is_prime (n : Z) : bool :=
  (1 <? n)%Z
  && forallb (fun d => negb (n mod d =? 0)%Z)
             (map Z.of_nat (seq 2 (Z.to_nat (Z.sqrt n) - 1))).

Definition primes (count : nat) : list Z :=
  firstn count (List.filter is_prime (map Z.of_nat (seq 2 400))).

(** The integer cube root of [x], found bit by bit from [bits] down. *)
Fixpoint cube_root_from (bits : nat) (x r : Z) : Z :=
  match bits with
  | O => r
  | S b =>
      let r' := (r + 2 ^ Z.of_nat b)%Z in
      if (r' * r' * r' <=? x)%Z then cube_root_from b x r' else cube_root_from b x r
  end.

Definition K : list Z :=
  Eval vm_compute in
    map (fun p => wrap (cube_root_from 40 (p * 2 ^ 96) 0)) (primes 64).

Definition H0 : list Z :=
  Eval vm_compute in map (fun p => wrap (Z.sqrt (p * 2 ^ 64))) (primes 8).

(** Big-endian bytes of a number, [n] of them. *)
Fixpoint be_bytes (n : nat) (x : Z) : list Z :=
  match n with
  | O => []
  | S n' => be_bytes n' (Z.shiftr x 8) ++ [Z.land x 255]
  end.

(** The message, a [1] bit, zeros up to 56 modulo 64 bytes, and the length
    in bits on 8 bytes. *)
Definition padded (msg : list Z) : list Z :=
  let len := Z.of_nat (length msg) in
  let zeros := Z.to_nat ((55 - len) mod 64) in
  msg ++ [128%Z] ++ repeat 0%Z zeros ++ be_bytes 8 (8 * len).

(** Big-endian 32-bit words of a byte sequence; [fuel] bounds the number
    of words. *)
Fixpoint words (fuel : nat) (bs : list Z) : list Z :=
  match fuel, bs with
  | S fuel', a :: b :: c :: d :: rest =>
      (Z.lor (Z.shiftl a 24) (Z.lor (Z.shiftl b 16) (Z.lor (Z.shiftl c 8) d)))
      :: words fuel' rest
  | _, _ => []
  end.

(** The message schedule, most recent word first. *)
Fixpoint schedule (n : nat) (w : list Z) : list Z :=
  match n with
  | O => w
  | S n' =>
      schedule n'
        (add32 (add32 (sigma1 (nth 1 w 0%Z)) (nth 6 w 0%Z))
               (add32 (sigma0 (nth 14 w 0%Z)) (nth 15 w 0%Z)) :: w)
  end.

Definition round (st : list Z) (kw : Z * Z) : list Z :=
  match st with
  | [a; b; c; d; e; f; g; h] =>
      let t1 := add32 (add32 (add32 h (Sigma1 e)) (add32 (Ch e f g) (fst kw))) (snd kw) in
      let t2 := add32 (Sigma0 a) (Maj a b c) in
      [add32 t1 t2; a; b; c; add32 d t1; e; f; g]
  | _ => st
  end.

Definition compress (h : list Z) (block : list Z) : list Z :=
  let w := rev (schedule 48 (rev block)) in
  let st := fold_left round (combine K w) h in
  map (fun p => add32 (fst p) (snd p)) (combine h st).

Fixpoint blocks (fuel : nat) (ws : list Z) : list (list Z) :=
  match fuel with
  | O => []
  | S fuel' =>
      match ws with
      | [] => []
      | _ => firstn 16 ws :: blocks fuel' (skipn 16 ws)
      end
  end.

Definition digest_Z (msg : list Z) : list Z :=
  let bs := padded msg in
  let ws := words (length bs) bs in
  let h := fold_left compress (blocks (length ws) ws) H0 in
  concat (map (be_bytes 4) h).

(** [hashlib.sha256(msg).digest()]. *)
Definition digest (msg : list byte) : list byte :=
  map byte_of_Z (digest_Z (map Z_of_byte msg)).

End SHA256.

(** ** HTML documents (bs4) *)

(** The tree [BeautifulSoup] builds: tags with their attribute dictionary and
    contents, and strings of text. *)
Inductive Node : Type :=
| Element (name : string) (attributes : gmap string string) (contents : list Node)
| NavigableString (s : string).

Definition attrs (n : Node) : gmap string string :=
  match n with
  | Element _ a _ => a
  | NavigableString _ => ∅
  end.

Definition has_id (i : string) (n : Node) : bool :=
  bool_decide (attrs n !! "id" = Some i).

(** [tag.find(id=i)] looks at the tag's descendants in document order and
    gives the first tag whose [id] attribute is [i], or [None]. *)
Fixpoint find_from (i : string) (n : Node) : option Node :=
  match n with
  | NavigableString _ => None
  | Element _ _ contents =>
      if has_id i n then Some n
      else
        (fix descend (l : list Node) : option Node :=
           match l with
           | [] => None
           | c :: l' =>
               match find_from i c with
               | Some r => Some r
               | None => descend l'
               end
           end) contents
  end.

Fixpoint find (soup : list Node) (i : string) : option Node :=
  match soup with
  | [] => None
  | c :: l' =>
      match find_from i c with
      | Some r => Some r
      | None => find l' i
      end
  end.

(** The tags of a document, in document order. *)
Fixpoint tags_from (n : Node) : list Node :=
  match n with
  | NavigableString _ => []
  | Element _ _ contents =>
      n :: (fix descend (l : list Node) : list Node :=
              match l with
              | [] => []
              | c :: l' => tags_from c ++ descend l'
              end) contents
  end.

Fixpoint tags (soup : list Node) : list Node :=
  match soup with
  | [] => []
  | c :: l' => tags_from c ++ tags l'
  end.

(** An induction principle that reaches the contents of a tag. *)
Section Node_induction.

Variable P : Node → Prop.
Hypothesis P_string : ∀ s, P (NavigableString s).
Hypothesis P_element : ∀ name a contents, Forall P contents → P (Element name a contents).

Fixpoint Node_nested_ind (n : Node) : P n :=
  match n with
  | NavigableString s => P_string s
  | Element name a contents =>
      P_element name a contents
        ((fix each (l : list Node) : Forall P l :=
            match l with
            | [] => @List.Forall_nil _ P
            | c :: l' => @List.Forall_cons _ P c l' (Node_nested_ind c) (each l')
            end) contents)
  end.

End Node_induction.

(** ** What the module takes from outside this file *)

(** [BeautifulSoup(page, features="html.parser")]: the contents of the
    document parsed from [page], or the exception of a parser that rejects
    the markup.  The module calls it outside any [try], so whatever it
    raises reaches the caller. *)
Class Bs4 : Type := {
  BeautifulSoup : string → result (list Node)
}.

(** [urllib.parse]: [urlparse] gives a result of which the module reads the
    [query], or raises [ValueError] on a URL it rejects (a host part with
    an unbalanced bracket, for one) and nothing else; [parse_qs] maps each
    name of a query string to the list of its values, and a list in that
    dictionary is never empty. *)
Record ParseResult : Type := { query : string }.

Class Urllib : Type := {
  urlparse : string → result ParseResult;
  urlparse_raises : ∀ (u : string) (e : exn), urlparse u = Raise e → e = ValueError;
  parse_qs : string → gmap string (list string);
  parse_qs_nonempty : ∀ (qs key : string), parse_qs qs !! key ≠ Some []
}.

(** [hubspace_async/const.py] is not part of the sources at hand: the user
    agent string it defines is a parameter. *)
Class Const : Type := {
  HUBSPACE_DEFAULT_USERAGENT : string
}.

(** ** The module's functions *)

Definition is_KeyError (e : exn) : bool :=
  match e with KeyError _ => true | _ => false end.

Definition is_KeyError_or_IndexError (e : exn) : bool :=
  match e with KeyError _ | IndexError => true | _ => false end.

(** [try: body / except <catches>: raise handler]. *)
Definition try_except_raise {A : Type} (body : result A) (catches : exn → bool)
    (handler : exn) : result A :=
  match body with
  | Ok a => Ok a
  | Raise e => if catches e then Raise handler else Raise e
  end.

Section Module_functions.

Context {bs4 : Bs4} {urllib : Urllib} {const : Const}.

Definition HUBSPACE_TOKEN_HEADERS : list (string * string) :=
  [("Content-Type", "application/x-www-form-urlencoded");
   ("user-agent", HUBSPACE_DEFAULT_USERAGENT);
   ("host", "accounts.hubspaceconnect.com")].

Definition LOGIN_FORM_ID : string := "kc-form-login".

Definition extract_login_data (page : string) : result auth_sess_data.t :=
  auth_page ← BeautifulSoup page;
  match find auth_page LOGIN_FORM_ID with
  | None => Raise InvalidResponse
  | Some login_form =>
      login_url ← try_except_raise (getitem (attrs login_form) "action")
                                   is_KeyError InvalidResponse;
      parsed_url ← urlparse login_url;
      let login_data := parse_qs (query parsed_url) in
      try_except_raise
        (session_code ← getitem login_data "session_code" ≫= first;
         execution ← getitem login_data "execution" ≫= first;
         tab_id ← getitem login_data "tab_id" ≫= first;
         mret (auth_sess_data.AuthSessionData session_code execution tab_id))
        is_KeyError_or_IndexError InvalidResponse
  end.

Definition token_request (refresh_token : value) : Request :=
  POST HUBSPACE_TOKEN_URL []
    [("grant_type", VStr "refresh_token");
     ("refresh_token", refresh_token);
     ("scope", VStr "openid email offline_access profile");
     ("client_id", VStr "hubspace_android")]
    HUBSPACE_TOKEN_HEADERS true.

Definition generate_token (refresh_token : value) : coro token_data.t :=
  response ← await_reply (token_request refresh_token);
  lift (raise_for_status response);;
  resp_json ← lift (json response);
  auth_token ← lift (try_except_raise (subscript resp_json "id_token")
                                      is_KeyError InvalidResponse);
  Now (fun now => Ret (token_data.TokenData auth_token (now + TOKEN_TIMEOUT))).

Definition is_expired : coro bool :=
  Load (fun self =>
    match _token_data self with
    | None => Ret true
    | Some td => Now (fun now => Ret (Qle_bool (token_data.expiration td) now))
    end).

Definition openid_request (challenge : auth_challenge.t) : Request :=
  GET HUBSPACE_OPENID_URL
    [("response_type", "code");
     ("client_id", HUBSPACE_DEFAULT_CLIENT_ID);
     ("redirect_uri", HUBSPACE_DEFAULT_REDIRECT_URI);
     ("code_challenge", auth_challenge.challenge challenge);
     ("code_challenge_method", "S256");
     ("scope", "openid offline_access")].

Definition code_request (username password session_code execution tab_id : string)
    : Request :=
  POST HUBSPACE_CODE_URL
    [("session_code", session_code);
     ("execution", execution);
     ("client_id", HUBSPACE_DEFAULT_CLIENT_ID);
     ("tab_id", tab_id)]
    [("username", VStr username);
     ("password", VStr password);
     ("credentialId", VStr "")]
    [("Content-Type", "application/x-www-form-urlencoded");
     ("user-agent", HUBSPACE_DEFAULT_USERAGENT)]
    false.

(** What [generate_code] does with the response to its POST. *)
Definition code_of_response (response : ClientResponse) : result string :=
  if negb (status response =? 302)%Z then Raise InvalidResponse
  else
    try_except_raise
      (location ← getitem (headers response) "location";
       parsed_url ← urlparse location;
       getitem (parse_qs (query parsed_url)) "code" ≫= first)
      is_KeyError InvalidAuth.

Definition generate_code (session_code execution tab_id : string) : coro string :=
  Load (fun self =>
    response ← await_reply
      (code_request (_username self) (_password self) session_code execution tab_id);
    lift (code_of_response response)).

Definition webapp_login (challenge : auth_challenge.t) : coro string :=
  response ← await_reply (openid_request challenge);
  lift (raise_for_status response);;
  login_data ← lift (extract_login_data (text response));
  generate_code (auth_sess_data.session_code login_data)
                (auth_sess_data.execution login_data)
                (auth_sess_data.tab_id login_data).

(** The challenge that goes with a verifier. *)
Definition challenge_of (code_verifier : string) : string :=
  let code_challenge := SHA256.digest (encode_utf8 code_verifier) in
  let code_challenge := decode_utf8 (Base64.urlsafe_b64encode code_challenge) in
  remove_char "="%char code_challenge.

Definition verifier_of (random : list byte) : string :=
  let code_verifier := decode_utf8 (Base64.urlsafe_b64encode random) in
  re_sub_outside is_alnum code_verifier.

Definition generate_challenge_data : coro auth_challenge.t :=
  Urandom 40 (fun random =>
    let code_verifier := verifier_of random in
    let code_challenge := challenge_of code_verifier in
    Ret (auth_challenge.AuthChallenge code_challenge code_verifier)).

Definition refresh_token_request (code : string) (challenge : auth_challenge.t)
    : Request :=
  POST HUBSPACE_TOKEN_URL []
    [("grant_type", VStr "authorization_code");
     ("code", VStr code);
     ("redirect_uri", VStr HUBSPACE_DEFAULT_REDIRECT_URI);
     ("code_verifier", VStr (auth_challenge.verifier challenge));
     ("client_id", VStr HUBSPACE_DEFAULT_CLIENT_ID)]
    HUBSPACE_TOKEN_HEADERS true.

Definition generate_refresh_token (code : string) (challenge : auth_challenge.t)
    : coro value :=
  response ← await_reply (refresh_token_request code challenge);
  lift (raise_for_status response);;
  resp_json ← lift (json response);
  lift (try_except_raise (subscript resp_json "refresh_token")
                         is_KeyError InvalidResponse).

Definition perform_initial_login : coro value :=
  challenge ← generate_challenge_data;
  code ← webapp_login challenge;
  generate_refresh_token code challenge.

(** The two guarded steps of [token], in the order of the source. *)
Definition ensure_refresh_token : coro unit :=
  Load (fun self =>
    if negb (truthy (_refresh_token self)) then
      refresh_token ← perform_initial_login;
      Store (set_refresh_token refresh_token) (Ret tt)
    else Ret tt).

Definition ensure_token : coro unit :=
  expired ← is_expired;
  if (expired : bool) then
    Load (fun self =>
      td ← generate_token (_refresh_token self);
      Store (set_token_data td) (Ret tt))
  else Ret tt.

Definition token : coro value :=
  async_with_lock (ensure_refresh_token;; ensure_token);;
  Load (fun self =>
    match _token_data self with
    | Some td => Ret (token_data.token td)
    | None => Throw AttributeError
    end).

End Module_functions.

(** ** One caller at a time: the sequential reading *)

(** What an execution leaves behind, oldest first. *)
Inductive event : Type :=
| EvAcquire
| EvRelease
| EvHttp (rq : Request) (r : reply)
| EvNow (t : Q)
| EvUrandom (bs : list byte).

(** The outside world is any deterministic function of the history: the
    identity provider's reply to a request, the clock and the random source. *)
Record Env : Type := {
  transport : list event → Request → reply;
  clock : list event → Q;
  entropy : list event → nat → byte
}.

Definition os_urandom (E : Env) (h : list event) (n : nat) : list byte :=
  map (entropy E h) (seq 0 n).

Inductive outcome (A : Type) : Type :=
| Returned (a : A)
| Raised (e : exn)
| Blocked.            (* waiting for a lock nobody will release *)
Arguments Returned {A} a.
Arguments Raised {A} e.
Arguments Blocked {A}.

Record config : Type := Config { obj : HubSpaceAuth; trace : list event }.

Fixpoint run {A : Type} (E : Env) (p : coro A) (c : config) : outcome A * config :=
  match p with
  | Ret a => (Returned a, c)
  | Throw e => (Raised e, c)
  | Http rq k =>
      let r := transport E (trace c) rq in
      run E (k r) (Config (obj c) (trace c ++ [EvHttp rq r]))
  | Now k =>
      let t := clock E (trace c) in
      run E (k t) (Config (obj c) (trace c ++ [EvNow t]))
  | Urandom n k =>
      let bs := os_urandom E (trace c) n in
      run E (k bs) (Config (obj c) (trace c ++ [EvUrandom bs]))
  | Load k => run E (k (obj c)) c
  | Store f k => run E k (Config (f (obj c)) (trace c))
  | Acquire k =>
      if _async_lock (obj c) then (Blocked, c)
      else run E k (Config (set_lock true (obj c)) (trace c ++ [EvAcquire]))
  | Release k =>
      run E k (Config (set_lock false (obj c)) (trace c ++ [EvRelease]))
  end.

(** The requests of a trace, in order. *)
Definition requests (h : list event) : list Request :=
  omap (fun ev => match ev with EvHttp rq _ => Some rq | _ => None end) h.

(** A fresh authenticator and an empty history. *)
Definition fresh (username password : string) : config :=
  Config (__init__ username password) [].

(** The requests that open a login chain. *)
Definition login_requests (h : list event) : list Request :=
  List.filter (fun rq => match rq with GET _ _ => true | POST _ _ _ _ _ => false end)
              (requests h).

(** ** Reference instances, for running the model *)

(** A reading of [urllib.parse] on byte strings, after [urlsplit] and
    [parse_qsl].  [urlparse] drops leading control characters and spaces,
    removes tabs and line ends, takes off a scheme, and splits off the host
    part that follows [//]; it raises [ValueError] when one of the brackets
    of the host part is there without the other; the [query] is what stands
    between the first [?] and the fragment of what is left.  [parse_qs]
    splits at [&] and at the first [=], drops the fields without a value,
    turns [+] into a space and decodes percent escapes.

    Outside this reading: the checks that recent versions of Python make on
    a host between two brackets and on a host that is not ASCII, and percent
    escapes that do not spell UTF-8 text, which Python replaces by U+FFFD.
    The instance is only used to run the model on the fixtures. *)
Module Urllib_reference.

(** [s.partition(c)]: the text before the first [c], and the text after it
    when there is one. *)
Fixpoint partition (c : ascii) (s : string) : string * option string :=
  match s with
  | EmptyString => (EmptyString, None)
  | String x s' =>
      if Ascii.eqb x c then (EmptyString, Some s')
      else let (before, after) := partition c s' in (String x before, after)
  end.

(** [s.split(c)]. *)
Fixpoint split (c : ascii) (s : string) : list string :=
  match s with
  | EmptyString => [EmptyString]
  | String x s' =>
      if Ascii.eqb x c then EmptyString :: split c s'
      else
        match split c s' with
        | piece :: pieces => String x piece :: pieces
        | [] => [String x EmptyString]
        end
  end.

Definition hex_digit (c : ascii) : option N :=
  let n := N_of_ascii c in
  if (48 <=? n)%N && (n <=? 57)%N then Some (n - 48)%N
  else if (65 <=? n)%N && (n <=? 70)%N then Some (n - 55)%N
  else if (97 <=? n)%N && (n <=? 102)%N then Some (n - 87)%N
  else None.

Fixpoint unquote (s : string) : string :=
  match s with
  | EmptyString => EmptyString
  | String c s' =>
      match s' with
      | String a (String b rest) =>
          match (if Ascii.eqb c "%" then hex_digit a else None), hex_digit b with
          | Some x, Some y => String (ascii_of_N (16 * x + y)) (unquote rest)
          | _, _ => String c (unquote s')
          end
      | _ => String c (unquote s')
      end
  end.

Fixpoint plus_to_space (s : string) : string :=
  match s with
  | EmptyString => EmptyString
  | String c s' => String (if Ascii.eqb c "+" then " "%char else c) (plus_to_space s')
  end.

Definition field (name_value : string) : option (string * string) :=
  match partition "=" name_value with
  | (name, Some v) =>
      if String.eqb v "" then None
      else Some (unquote (plus_to_space name), unquote (plus_to_space v))
  | (_, None) => None
  end.

Definition parse_qsl (qs : string) : list (string * string) :=
  omap field (split "&" qs).

Definition add_field (d : gmap string (list string)) (nv : string * string)
    : gmap string (list string) :=
  <[fst nv := default [] (d !! fst nv) ++ [snd nv]]> d.

Definition parse (qs : string) : gmap string (list string) :=
  fold_left add_field (parse_qsl qs) ∅.

(** [s.lstrip(chars)]. *)
Fixpoint lstrip (strip : ascii → bool) (s : string) : string :=
  match s with
  | EmptyString => EmptyString
  | String c s' => if strip c then lstrip strip s' else s
  end.

Definition is_c0_control_or_space (c : ascii) : bool := (N_of_ascii c <=? 32)%N.

Definition is_unsafe_url_byte (c : ascii) : bool :=
  let n := N_of_ascii c in (n =? 9)%N || (n =? 10)%N || (n =? 13)%N.

Definition is_alpha (c : ascii) : bool :=
  let n := N_of_ascii c in
  ((65 <=? n) && (n <=? 90) || (97 <=? n) && (n <=? 122))%N.

Definition is_scheme_char (c : ascii) : bool :=
  is_alnum c || Ascii.eqb c "+" || Ascii.eqb c "-" || Ascii.eqb c ".".

(** The URL without its scheme, when it has one. *)
Definition drop_scheme (u : string) : string :=
  match partition ":" u with
  | (String c _ as before, Some after) =>
      if is_alpha c && string_forall is_scheme_char before then after else u
  | _ => u
  end.

(** [_splitnetloc]: the host part ends at the first of [/], [?] and [#]. *)
Fixpoint split_netloc (s : string) : string * string :=
  match s with
  | EmptyString => (EmptyString, EmptyString)
  | String c s' =>
      if Ascii.eqb c "/" || Ascii.eqb c "?" || Ascii.eqb c "#" then (EmptyString, s)
      else let (netloc, rest) := split_netloc s' in (String c netloc, rest)
  end.

Definition contains (c : ascii) (s : string) : bool :=
  negb (string_forall (fun x => negb (Ascii.eqb x c)) s).

Definition query_of (u : string) : ParseResult :=
  match partition "?" (fst (partition "#" u)) with
  | (_, Some q) => {| query := q |}
  | (_, None) => {| query := "" |}
  end.

Definition split_url (u : string) : result ParseResult :=
  let u := lstrip is_c0_control_or_space u in
  let u := re_sub_outside (fun c => negb (is_unsafe_url_byte c)) u in
  let u := drop_scheme u in
  match u with
  | String c1 (String c2 after) =>
      if Ascii.eqb c1 "/" && Ascii.eqb c2 "/" then
        let (netloc, rest) := split_netloc after in
        if xorb (contains "[" netloc) (contains "]" netloc) then Raise ValueError
        else Ok (query_of rest)
      else Ok (query_of u)
  | _ => Ok (query_of u)
  end.

Lemma split_url_raises (u : string) (e : exn) : split_url u = Raise e → e = ValueError.
Proof.
  unfold split_url. cbv zeta.
  destruct (drop_scheme _) as [|c1 [|c2 after]]; try discriminate.
  destruct (_ && _); [|discriminate].
  destruct (split_netloc after) as [netloc rest].
  destruct (xorb _ _); [|discriminate]. intros [= <-]. reflexivity.
Qed.

Lemma add_field_nonempty (d : gmap string (list string)) (nv : string * string) :
  map_Forall (fun _ l => l ≠ []) d → map_Forall (fun _ l => l ≠ []) (add_field d nv).
Proof.
  intros Hd. unfold add_field. apply map_Forall_insert_2; [|exact Hd].
  destruct (default [] (d !! nv.1)); discriminate.
Qed.

Lemma fold_add_field_nonempty (l : list (string * string)) (d : gmap string (list string)) :
  map_Forall (fun _ l => l ≠ []) d →
  map_Forall (fun _ l => l ≠ []) (fold_left add_field l d).
Proof.
  revert d. induction l as [|nv l IH]; intros d Hd; simpl; [exact Hd|].
  apply IH, add_field_nonempty, Hd.
Qed.

Lemma parse_nonempty (qs key : string) : parse qs !! key ≠ Some [].
Proof.
  intros Hk.
  assert (Hall : map_Forall (fun _ l => l ≠ []) (parse qs)).
  { apply fold_add_field_nonempty, map_Forall_empty. }
  exact (Hall key [] Hk eq_refl).
Qed.

Definition instance : Urllib :=
  {| urlparse := split_url;
     urlparse_raises := split_url_raises;
     parse_qs := parse;
     parse_qs_nonempty := parse_nonempty |}.

End Urllib_reference.

(** A login page, a page without the form, and an identity provider that
    answers each kind of request in one fixed way. *)
Module Fixture.

Definition login_page : string :=
  "<html><body><form id='kc-form-login' method='post' action='https://accounts.hubspaceconnect.com/auth/realms/thd/login-actions/authenticate?session_code=sc01&amp;execution=ex02&amp;client_id=hubspace_android&amp;tab_id=tb03'></form></body></html>".

Definition login_form : Node :=
  Element "form"
    (<["id" := "kc-form-login"]>
      (<["method" := "post"]>
        (<["action" := "https://accounts.hubspaceconnect.com/auth/realms/thd/login-actions/authenticate?session_code=sc01&execution=ex02&client_id=hubspace_android&tab_id=tb03"]> ∅)))
    [].

Definition login_document : list Node :=
  [Element "html" ∅ [Element "body" ∅ [login_form]]].

Definition maintenance_page : string :=
  "<html><body><p id='notice'>Down for maintenance</p></body></html>".

Definition maintenance_document : list Node :=
  [Element "html" ∅
     [Element "body" ∅
        [Element "p" (<["id" := "notice"]> ∅) [NavigableString "Down for maintenance"]]]].

Definition bare_form_page : string :=
  "<html><body><form id='kc-form-login'></form></body></html>".

Definition bare_form_document : list Node :=
  [Element "html" ∅
     [Element "body" ∅ [Element "form" (<["id" := "kc-form-login"]> ∅) []]]].

Definition short_action_page : string :=
  "<form id='kc-form-login' action='/authenticate?session_code=sc01&amp;execution=ex02'></form>".

Definition short_action_document : list Node :=
  [Element "form"
     (<["id" := "kc-form-login"]>
       (<["action" := "/authenticate?session_code=sc01&execution=ex02"]> ∅))
     []].

(** A login form whose action has an unbalanced bracket in its host part,
    and markup that [html.parser] rejects. *)
Definition bad_action_page : string :=
  "<form id='kc-form-login' action='http://[x?session_code=sc01&amp;execution=ex02'></form>".

Definition bad_action_document : list Node :=
  [Element "form"
     (<["id" := "kc-form-login"]>
       (<["action" := "http://[x?session_code=sc01&execution=ex02"]> ∅))
     []].

Definition rejected_page : string := "<![foo bar]>".

(** A parser that knows these pages. *)
Definition soup (page : string) : result (list Node) :=
  if String.eqb page login_page then Ok login_document
  else if String.eqb page maintenance_page then Ok maintenance_document
  else if String.eqb page bare_form_page then Ok bare_form_document
  else if String.eqb page short_action_page then Ok short_action_document
  else if String.eqb page bad_action_page then Ok bad_action_document
  else if String.eqb page rejected_page then Raise ParserRejectedMarkup
  else Ok [].

Definition bs4 : Bs4 := {| BeautifulSoup := soup |}.
Definition const : Const := {| HUBSPACE_DEFAULT_USERAGENT := "Dart/2.15 (dart:io)" |}.

Definition response (st : Z) (hs : gmap string string) (body : string)
    (js : result value) : ClientResponse :=
  {| status := st; url := ""; headers := hs; text := body; json := js |}.

Definition no_json : result value := Raise (TransportError "ContentTypeError").

Definition redirect (location : string) : ClientResponse :=
  response 302 (<["location" := location]> ∅) "" no_json.

Definition is_refresh_grant (data : list (string * value)) : bool :=
  match data with
  | (_, VStr g) :: _ => String.eqb g "refresh_token"
  | _ => false
  end.

(** The provider: the login page, then a redirect carrying a code, then a
    refresh token, then bearer tokens. *)
Definition provider (h : list event) (rq : Request) : reply :=
  match rq with
  | GET _ _ => Response (response 200 ∅ login_page no_json)
  | POST u _ data _ _ =>
      if String.eqb u HUBSPACE_CODE_URL then
        Response (redirect "hubspace-app://loginredirect?session_state=77&code=ABC123")
      else if is_refresh_grant data then
        Response (response 200 ∅ ""
          (Ok (VDict (<["id_token" := VStr "bearer-1"]> (<["expires_in" := VInt 120]> ∅)))))
      else
        Response (response 200 ∅ ""
          (Ok (VDict (<["refresh_token" := VStr "refresh-1"]> ∅))))
  end.

(** A second of wall-clock time for every event so far, from [1000]. *)
Definition seconds (h : list event) : Q := (1000 + Z.of_nat (length h)) # 1.

Definition counting_bytes (h : list event) (i : nat) : byte := byte_of_Z (Z.of_nat i).

Definition env : Env :=
  {| transport := provider; clock := seconds; entropy := counting_bytes |}.

(** The same provider seen through a clock that jumps 200 seconds at every
    event. *)
Definition slow_env : Env :=
  {| transport := provider;
     clock := fun h => (1000 + 200 * Z.of_nat (length h)) # 1;
     entropy := counting_bytes |}.

(** A provider whose first login answers with an empty string for the
    refresh token and whose later logins answer with [null]; it refuses
    every refresh-token exchange with status 400. *)
Definition blank_provider (h : list event) (rq : Request) : reply :=
  match rq with
  | GET _ _ => Response (response 200 ∅ login_page no_json)
  | POST u _ data _ _ =>
      if String.eqb u HUBSPACE_CODE_URL then
        Response (redirect "hubspace-app://loginredirect?session_state=77&code=ABC123")
      else if is_refresh_grant data then
        Response (response 400 ∅ "" no_json)
      else if (length (requests h) <? 3)%nat then
        Response (response 200 ∅ "" (Ok (VDict (<["refresh_token" := VStr ""]> ∅))))
      else
        Response (response 200 ∅ "" (Ok (VDict (<["refresh_token" := VNone]> ∅))))
  end.

Definition blank_env : Env :=
  {| transport := blank_provider; clock := seconds; entropy := counting_bytes |}.



(** A redirect with or without a [Location] header. *)
Definition redirect_reply (location : option string) : reply :=
  Response (response 302
              (match location with Some l => <["location" := l]> ∅ | None => ∅ end)
              "" no_json).

(** An identity provider that answers every request with [r]. *)
Definition always (r : reply) : Env :=
  {| transport := fun _ _ => r;
     clock := seconds;
     entropy := counting_bytes |}.

End Fixture.

(** ** Several callers: the interleaved reading *)

(** A caller of [token] is a task: it runs, or it waits for the reply to a
    request it has sent (the exchange is in flight), or it is done.  The
    tasks of a pool share one authenticator object.  A task takes one step
    at a time and any task that can step may be the next: the schedules of
    an event loop, which only switches tasks at an [await], are among these
    interleavings. *)
Inductive task : Type :=
| Running (p : coro value)
| Awaiting (rq : Request) (k : reply → coro value)
| Done (r : result value).

Record pool : Type := Pool { shared : HubSpaceAuth; tasks : list task }.

Inductive action : Type :=
| ASend (rq : Request)
| AReceive (rq : Request) (r : reply)
| AClock (t : Q)
| ARandom (bs : list byte)
| ALoad
| AStore
| AAcquire
| ARelease
| AExit.

(** One step of one task on the shared object.  The lock can only be
    acquired when it is free; the reply, the clock and the random bytes are
    whatever the outside world gives. *)
Inductive task_step : HubSpaceAuth → task → action → HubSpaceAuth → task → Prop :=
| step_return o a :
    task_step o (Running (Ret a)) AExit o (Done (Ok a))
| step_raise o e :
    task_step o (Running (Throw e)) AExit o (Done (Raise e))
| step_send o rq k :
    task_step o (Running (Http rq k)) (ASend rq) o (Awaiting rq k)
| step_receive o rq k r :
    task_step o (Awaiting rq k) (AReceive rq r) o (Running (k r))
| step_now o k t :
    task_step o (Running (Now k)) (AClock t) o (Running (k t))
| step_urandom o n k bs :
    length bs = n →
    task_step o (Running (Urandom n k)) (ARandom bs) o (Running (k bs))
| step_load o k :
    task_step o (Running (Load k)) ALoad o (Running (k o))
| step_store o f k :
    task_step o (Running (Store f k)) AStore (f o) (Running k)
| step_acquire o k :
    _async_lock o = false →
    task_step o (Running (Acquire k)) AAcquire (set_lock true o) (Running k)
| step_release o k :
    task_step o (Running (Release k)) ARelease (set_lock false o) (Running k).

(** A step of the pool is a step of its [i]-th task. *)
Inductive pool_step : pool → nat * action → pool → Prop :=
| pool_step_task o ts i t a o' t' :
    ts !! i = Some t →
    task_step o t a o' t' →
    pool_step (Pool o ts) (i, a) (Pool o' (<[i := t']> ts)).

Inductive execution : pool → list (nat * action) → pool → Prop :=
| execution_nil s : execution s [] s
| execution_cons s l s' ls s'' :
    pool_step s l s' → execution s' ls s'' → execution s (l :: ls) s''.





(** A run of the pool under a schedule.  The world gives the reply to each
    request, the clock reading at each position of the run and the random
    bytes; the schedule names the task that moves at each position, and a
    task that cannot move lets its turn pass. *)
Record World : Type := {
  world_reply : Request → reply;
  world_clock : nat → Q;
  world_entropy : nat → byte
}.

Definition task_next (W : World) (position : nat) (o : HubSpaceAuth) (t : task)
    : option (action * HubSpaceAuth * task) :=
  match t with
  | Running (Ret a) => Some (AExit, o, Done (Ok a))
  | Running (Throw e) => Some (AExit, o, Done (Raise e))
  | Running (Http rq k) => Some (ASend rq, o, Awaiting rq k)
  | Running (Now k) =>
      let t := world_clock W position in Some (AClock t, o, Running (k t))
  | Running (Urandom n k) =>
      let bs := map (world_entropy W) (seq 0 n) in Some (ARandom bs, o, Running (k bs))
  | Running (Load k) => Some (ALoad, o, Running (k o))
  | Running (Store f k) => Some (AStore, f o, Running k)
  | Running (Acquire k) =>
      if _async_lock o then None else Some (AAcquire, set_lock true o, Running k)
  | Running (Release k) => Some (ARelease, set_lock false o, Running k)
  | Awaiting rq k =>
      let r := world_reply W rq in Some (AReceive rq r, o, Running (k r))
  | Done _ => None
  end.

Fixpoint run_schedule (W : World) (position : nat) (schedule : list nat) (s : pool)
    : list (nat * action) * pool :=
  match schedule with
  | [] => ([], s)
  | i :: rest =>
      match tasks s !! i with
      | Some t =>
          match task_next W position (shared s) t with
          | Some (a, o', t') =>
              let (ls, s') :=
                run_schedule W (S position) rest (Pool o' (<[i := t']> (tasks s))) in
              ((i, a) :: ls, s')
          | None => run_schedule W (S position) rest s
          end
      | None => run_schedule W (S position) rest s
      end
  end.

(** ** Scenarios *)

Section Scenarios.

Context {bs4 : Bs4} {urllib : Urllib} {const : Const}.

(** [n] calls of [token], one after the other, whatever each one gives. *)
Fixpoint calls (E : Env) (n : nat) (c : config) : config :=
  match n with
  | O => c
  | S n' => calls E n' (snd (run E token c))
  end.

(** [n] callers of [token] on one fresh authenticator, none of which has
    taken a step yet. *)
Definition initial (username password : string) (n : nat) : pool :=
  Pool (__init__ username password) (replicate n (Running token)).

End Scenarios.

(** The fixture's provider, a clock that reads [1000] plus the position,
    and two callers: the first runs alone until it is done, the second
    arrives after it. *)
Definition fixture_world : World :=
  {| world_reply := Fixture.provider [];
     world_clock := fun position => (1000 + Z.of_nat position) # 1;
     world_entropy := Fixture.counting_bytes [] |}.


(* ================================================================= *)
(** * Properties *)

(** ** The interpreter and the monad *)

Definition continue {A B : Type} (E : Env) (f : A → coro B) (r : outcome A * config)
    : outcome B * config :=
  match r with
  | (Returned a, c) => run E (f a) c
  | (Raised e, c) => (Raised e, c)
  | (Blocked, c) => (Blocked, c)
  end.

Lemma run_bind {A B : Type} (E : Env) (p : coro A) (f : A → coro B) (c : config) :
  run E (p ≫= f) c = continue E f (run E p c).
Proof.
  revert c. unfold mbind, coro_mbind.
  induction p as [a|e|rq k IH|k IH|n k IH|k IH|g k IH|k IH|k IH]; intros c; simpl; auto.
  destruct (_async_lock (obj c)); auto.
Qed.

Definition outcome_of {A : Type} (r : result A) : outcome A :=
  match r with Ok a => Returned a | Raise e => Raised e end.

Lemma run_lift {A : Type} (E : Env) (r : result A) (c : config) :
  run E (lift r) c = (outcome_of r, c).
Proof. destruct r; reflexivity. Qed.

Definition result_of_reply (r : reply) : result ClientResponse :=
  match r with Response x => Ok x | Failure e => Raise e end.

Lemma run_await_reply (E : Env) (rq : Request) (c : config) :
  run E (await_reply rq) c =
    (outcome_of (result_of_reply (transport E (trace c) rq)),
     Config (obj c) (trace c ++ [EvHttp rq (transport E (trace c) rq)])).
Proof. unfold await_reply. simpl. destruct (transport E (trace c) rq); reflexivity. Qed.

Definition released (c : config) : config :=
  Config (set_lock false (obj c)) (trace c ++ [EvRelease]).

Definition acquired (c : config) : config :=
  Config (set_lock true (obj c)) (trace c ++ [EvAcquire]).

Lemma run_releasing {A : Type} (E : Env) (p : coro A) (c : config) :
  run E (releasing p) c =
    match run E p c with
    | (Returned a, c') => (Returned a, released c')
    | (Raised e, c') => (Raised e, released c')
    | (Blocked, c') => (Blocked, c')
    end.
Proof.
  revert c.
  induction p as [a|e|rq k IH|k IH|n k IH|k IH|g k IH|k IH|k IH]; intros c; simpl; auto.
  destruct (_async_lock (obj c)); auto.
Qed.

Lemma run_async_with_lock {A : Type} (E : Env) (p : coro A) (c : config) :
  _async_lock (obj c) = false →
  run E (async_with_lock p) c =
    match run E p (acquired c) with
    | (Returned a, c') => (Returned a, released c')
    | (Raised e, c') => (Raised e, released c')
    | (Blocked, c') => (Blocked, c')
    end.
Proof.
  intros Hfree. unfold async_with_lock. simpl. rewrite Hfree. apply run_releasing.
Qed.

(** Coroutines that neither assign to the object nor touch the lock. *)
Inductive io_only {A : Type} : coro A → Prop :=
| io_Ret a : io_only (Ret a)
| io_Throw e : io_only (Throw e)
| io_Http rq k : (∀ r, io_only (k r)) → io_only (Http rq k)
| io_Now k : (∀ t, io_only (k t)) → io_only (Now k)
| io_Urandom n k : (∀ bs, io_only (k bs)) → io_only (Urandom n k)
| io_Load k : (∀ s, io_only (k s)) → io_only (Load k).

Lemma io_only_bind {A B : Type} (p : coro A) (f : A → coro B) :
  io_only p → (∀ a, io_only (f a)) → io_only (p ≫= f).
Proof.
  intros Hp Hf. unfold mbind, coro_mbind.
  induction Hp; simpl; auto; constructor; auto.
Qed.

Lemma io_only_lift {A : Type} (r : result A) : io_only (lift r).
Proof. destruct r; constructor. Qed.

Lemma io_only_await_reply (rq : Request) : io_only (await_reply rq).
Proof. constructor. intros [x|e]; constructor. Qed.

Definition is_lock_event (ev : event) : bool :=
  match ev with EvAcquire | EvRelease => true | _ => false end.

(** Such a coroutine never blocks, leaves the object as it found it, and
    adds no lock event to the history. *)
Lemma run_io_only {A : Type} (E : Env) (p : coro A) (c : config) :
  io_only p →
  ∃ evs, snd (run E p c) = Config (obj c) (trace c ++ evs)
         ∧ fst (run E p c) ≠ Blocked
         ∧ forallb (fun ev => negb (is_lock_event ev)) evs = true.
Proof.
  intros Hp. revert c.
  induction Hp as [a|e|rq k _ IH|k _ IH|n k _ IH|k _ IH]; intros c; simpl.
  - exists []. rewrite app_nil_r. destruct c; auto.
  - exists []. rewrite app_nil_r. destruct c; auto.
  - destruct (IH (transport E (trace c) rq)
                 (Config (obj c) (trace c ++ [EvHttp rq (transport E (trace c) rq)])))
      as (evs & H1 & H2 & H3).
    exists (EvHttp rq (transport E (trace c) rq) :: evs).
    simpl in H1. rewrite H1, <- app_assoc. auto.
  - destruct (IH (clock E (trace c)) (Config (obj c) (trace c ++ [EvNow (clock E (trace c))])))
      as (evs & H1 & H2 & H3).
    exists (EvNow (clock E (trace c)) :: evs).
    simpl in H1. rewrite H1, <- app_assoc. auto.
  - destruct (IH (os_urandom E (trace c) n)
                 (Config (obj c) (trace c ++ [EvUrandom (os_urandom E (trace c) n)])))
      as (evs & H1 & H2 & H3).
    exists (EvUrandom (os_urandom E (trace c) n) :: evs).
    simpl in H1. rewrite H1, <- app_assoc. auto.
  - apply IH.
Qed.

Section Sequential_properties.

Context {bs4 : Bs4} {urllib : Urllib} {const : Const}.

(** ** The token exchanger *)

(** What [generate_token] makes of the reply to its request. *)
Definition id_token_of (r : reply) : result value :=
  response ← result_of_reply r;
  raise_for_status response;;
  resp_json ← json response;
  try_except_raise (subscript resp_json "id_token") is_KeyError InvalidResponse.

Lemma run_generate_token (E : Env) (rt : value) (c : config) :
  let r := transport E (trace c) (token_request rt) in
  let c1 := Config (obj c) (trace c ++ [EvHttp (token_request rt) r]) in
  run E (generate_token rt) c =
    match id_token_of r with
    | Ok tok =>
        (Returned (token_data.TokenData tok (clock E (trace c1) + TOKEN_TIMEOUT)),
         Config (obj c) (trace c1 ++ [EvNow (clock E (trace c1))]))
    | Raise e => (Raised e, c1)
    end.
Proof.
  intros r c1. unfold generate_token.
  rewrite run_bind, run_await_reply. fold r. fold c1.
  unfold id_token_of. destruct r as [response|e]; simpl; [|reflexivity].
  rewrite run_bind, run_lift.
  destruct (raise_for_status response) as [[]|e]; simpl; [|reflexivity].
  rewrite run_bind, run_lift.
  destruct (json response) as [resp_json|e]; simpl; [|reflexivity].
  rewrite run_bind, run_lift.
  destruct (try_except_raise _ _ _) as [tok|e]; simpl; reflexivity.
Qed.

(** C3, amended. A refresh-token exchange that succeeds (a response
    arrives and its status is below 400) with a JSON body: when the body is
    an object that has an [id_token] field, [generate_token] returns the
    token made of that value and of the time read at issuance plus 118
    seconds; when it is an object without that field, [generate_token]
    raises [InvalidResponse]; when it is not an object (null, a list, a
    string, a number), the lookup raises [TypeError], which the handler
    for a missing field does not turn into [InvalidResponse]. *)
Theorem generate_token_id_token (E : Env) (rt : value) (c : config)
    (response : ClientResponse) (resp_json : value) :
  transport E (trace c) (token_request rt) = Response response →
  (status response < 400)%Z →
  json response = Ok resp_json →
  let issued := clock E (trace c ++ [EvHttp (token_request rt) (Response response)]) in
  (∀ d id_token, resp_json = VDict d → d !! "id_token" = Some id_token →
     fst (run E (generate_token rt) c)
     = Returned (token_data.TokenData id_token (issued + (118 # 1))))
  ∧ (∀ d, resp_json = VDict d → d !! "id_token" = None →
     fst (run E (generate_token rt) c) = Raised InvalidResponse)
  ∧ ((∀ d, resp_json ≠ VDict d) →
     fst (run E (generate_token rt) c) = Raised TypeError)
  ∧ TypeError ≠ InvalidResponse.
Proof.
  intros Hreply Hstatus Hjson issued.
  assert (Hid : id_token_of (Response response)
                = try_except_raise (subscript resp_json "id_token")
                                   is_KeyError InvalidResponse).
  { unfold id_token_of, raise_for_status. simpl.
    replace (400 <=? status response)%Z with false by (symmetry; apply Z.leb_gt; lia).
    simpl. rewrite Hjson. reflexivity. }
  rewrite run_generate_token. cbv zeta. rewrite Hreply, Hid.
  split; [|split; [|split]].
  - intros d id_token -> Hd. simpl. rewrite Hd. reflexivity.
  - intros d -> Hd. simpl. rewrite Hd. reflexivity.
  - intros Hother. destruct resp_json; try reflexivity.
    exfalso. exact (Hother d eq_refl).
  - discriminate.
Qed.

End Sequential_properties.

Lemma generate_token_id_token_witness :
  fst (run Fixture.env (generate_token (const := Fixture.const) (VStr "refresh-1"))
           (fresh "user" "secret"))
  = Returned (token_data.TokenData (VStr "bearer-1") ((1001 # 1) + (118 # 1))).
Proof.
  refine (proj1 (generate_token_id_token (const := Fixture.const) Fixture.env
                   (VStr "refresh-1") (fresh "user" "secret")
                   (Fixture.response 200 ∅ ""
                      (Ok (VDict (<["id_token" := VStr "bearer-1"]>
                                    (<["expires_in" := VInt 120]> ∅)))))
                   (VDict (<["id_token" := VStr "bearer-1"]> (<["expires_in" := VInt 120]> ∅)))
                   _ _ _)
                (<["id_token" := VStr "bearer-1"]> (<["expires_in" := VInt 120]> ∅))
                (VStr "bearer-1") _ _).
  - reflexivity.
  - simpl. lia.
  - reflexivity.
  - reflexivity.
  - reflexivity.
Defined.

(** C3, counterexample. The token endpoint answers 200 with the JSON
    document [[]]: the exchange succeeded and the response has no
    [id_token], yet [generate_token] raises [TypeError] and not
    [InvalidResponse]. *)
Lemma generate_token_of_json_list :
  let answer := Fixture.response 200 ∅ "" (Ok (VList [])) in
  let outcome :=
    fst (run (Fixture.always (Response answer))
             (generate_token (const := Fixture.const) (VStr "refresh-1"))
             (fresh "user" "secret")) in
  raise_for_status answer = Ok tt
  ∧ json answer = Ok (VList [])
  ∧ outcome = Raised TypeError
  ∧ outcome ≠ Raised InvalidResponse.
Proof.
  cbv zeta. split; [reflexivity|]. split; [reflexivity|].
  split; [reflexivity|]. discriminate.
Qed.

Section Credential_submitter.

Context {urllib : Urllib} {const : Const}.

Lemma run_generate_code (E : Env) (c : config) (session_code execution tab_id : string) :
  let rq := code_request (_username (obj c)) (_password (obj c))
                         session_code execution tab_id in
  let r := transport E (trace c) rq in
  run E (generate_code session_code execution tab_id) c =
    (outcome_of (result_of_reply r ≫= code_of_response),
     Config (obj c) (trace c ++ [EvHttp rq r])).
Proof.
  intros rq r. unfold generate_code. simpl run. fold rq. fold r.
  destruct r as [response|e]; simpl; [|reflexivity].
  apply run_lift.
Qed.

(** C2, amended. The response to the credential POST decides the outcome
    of [generate_code]: a status other than 302 raises [InvalidResponse];
    a 302 whose [Location] is a URL that [urlparse] accepts returns the
    first value of the [code] parameter of its query string when there is
    one, and raises [InvalidAuth], which is not [InvalidResponse], when
    there is none; a 302 whose [Location] [urlparse] rejects lets the
    [ValueError] through, whatever stands in its query string. *)
Theorem generate_code_outcome (E : Env) (c : config)
    (session_code execution tab_id : string) (response : ClientResponse) :
  transport E (trace c)
    (code_request (_username (obj c)) (_password (obj c)) session_code execution tab_id)
  = Response response →
  let outcome := fst (run E (generate_code session_code execution tab_id) c) in
  (status response ≠ 302%Z → outcome = Raised InvalidResponse)
  ∧ (∀ location parsed_url code more,
       status response = 302%Z →
       headers response !! "location" = Some location →
       urlparse location = Ok parsed_url →
       parse_qs (query parsed_url) !! "code" = Some (code :: more) →
       outcome = Returned code)
  ∧ (∀ location parsed_url,
       status response = 302%Z →
       headers response !! "location" = Some location →
       urlparse location = Ok parsed_url →
       parse_qs (query parsed_url) !! "code" = None →
       outcome = Raised InvalidAuth)
  ∧ (∀ location e,
       status response = 302%Z →
       headers response !! "location" = Some location →
       urlparse location = Raise e →
       outcome = Raised ValueError)
  ∧ InvalidAuth ≠ InvalidResponse
  ∧ ValueError ≠ InvalidAuth.
Proof.
  intros Hreply outcome. subst outcome.
  rewrite run_generate_code. cbv zeta. rewrite Hreply. simpl.
  unfold code_of_response.
  split; [|split; [|split; [|split; [|split]]]].
  - intros Hstatus. apply Z.eqb_neq in Hstatus. rewrite Hstatus. reflexivity.
  - intros location parsed_url code more Hstatus Hloc Hurl Hcode.
    rewrite Hstatus. simpl. unfold getitem. rewrite Hloc. simpl.
    rewrite Hurl. simpl. rewrite Hcode. reflexivity.
  - intros location parsed_url Hstatus Hloc Hurl Hcode.
    rewrite Hstatus. simpl. unfold getitem. rewrite Hloc. simpl.
    rewrite Hurl. simpl. rewrite Hcode. reflexivity.
  - intros location e Hstatus Hloc Hurl.
    rewrite (urlparse_raises _ _ Hurl) in Hurl.
    rewrite Hstatus. simpl. unfold getitem. rewrite Hloc. simpl.
    rewrite Hurl. reflexivity.
  - discriminate.
  - discriminate.
Qed.

(** C10. A 302 response without any [Location] header makes
    [generate_code] raise [InvalidAuth]: the lookup of the header raises
    the [KeyError] that the handler for a missing [code] catches. *)
Theorem generate_code_without_location (E : Env) (c : config)
    (session_code execution tab_id : string) (response : ClientResponse) :
  transport E (trace c)
    (code_request (_username (obj c)) (_password (obj c)) session_code execution tab_id)
  = Response response →
  status response = 302%Z →
  headers response !! "location" = None →
  getitem (headers response) "location" = Raise (KeyError "location")
  ∧ fst (run E (generate_code session_code execution tab_id) c) = Raised InvalidAuth.
Proof.
  intros Hreply Hstatus Hloc.
  rewrite run_generate_code. cbv zeta. rewrite Hreply. simpl.
  unfold code_of_response, getitem. rewrite Hstatus, Hloc. split; reflexivity.
Qed.

(** The list of values under a name of a parsed query string has a first
    element, so the only exception of the lookup is [KeyError]. *)
Lemma first_value_of_query (qs key : string) :
  (∃ v more, parse_qs qs !! key = Some (v :: more)
             ∧ getitem (parse_qs qs) key ≫= first = Ok v)
  ∨ (parse_qs qs !! key = None
     ∧ getitem (parse_qs qs) key ≫= first = Raise (KeyError key)).
Proof.
  unfold getitem. destruct (parse_qs qs !! key) as [[|v more]|] eqn:Hk.
  - exfalso. exact (parse_qs_nonempty qs key Hk).
  - left. exists v, more. split; reflexivity.
  - right. split; reflexivity.
Qed.

End Credential_submitter.

Lemma generate_code_outcome_witness :
  let submit (r : reply) :=
    fst (run (Fixture.always r)
             (generate_code (urllib := Urllib_reference.instance) (const := Fixture.const)
                            "sc01" "ex02" "tb03")
             (fresh "user" "secret")) in
  submit (Response (Fixture.response 200 ∅ "" Fixture.no_json)) = Raised InvalidResponse
  ∧ submit (Fixture.redirect_reply (Some "hubspace-app://loginredirect?session_state=77&code=ABC123"))
    = Returned "ABC123"
  ∧ submit (Fixture.redirect_reply (Some "hubspace-app://loginredirect?error=denied"))
    = Raised InvalidAuth
  ∧ submit (Fixture.redirect_reply (Some "http://[bad?code=1]")) = Raised ValueError.
Proof.
  cbv zeta. split; [|split; [|split]].
  - refine (proj1 (generate_code_outcome
                     (urllib := Urllib_reference.instance) (const := Fixture.const)
                     (Fixture.always _) (fresh "user" "secret") "sc01" "ex02" "tb03" _ eq_refl) _).
    simpl. lia.
  - refine (proj1 (proj2 (generate_code_outcome
                     (urllib := Urllib_reference.instance) (const := Fixture.const)
                     (Fixture.always _) (fresh "user" "secret") "sc01" "ex02" "tb03" _ eq_refl))
                  "hubspace-app://loginredirect?session_state=77&code=ABC123"
                  {| query := "session_state=77&code=ABC123" |}
                  "ABC123" [] _ _ _ _); reflexivity.
  - refine (proj1 (proj2 (proj2 (generate_code_outcome
                     (urllib := Urllib_reference.instance) (const := Fixture.const)
                     (Fixture.always _) (fresh "user" "secret") "sc01" "ex02" "tb03" _ eq_refl)))
                  "hubspace-app://loginredirect?error=denied"
                  {| query := "error=denied" |} _ _ _ _); reflexivity.
  - refine (proj1 (proj2 (proj2 (proj2 (generate_code_outcome
                     (urllib := Urllib_reference.instance) (const := Fixture.const)
                     (Fixture.always _) (fresh "user" "secret") "sc01" "ex02" "tb03" _ eq_refl))))
                  "http://[bad?code=1]" ValueError _ _ _); reflexivity.
Defined.

(** C2, counterexample. Two redirects whose [Location] has an opening
    bracket without its closing one in the host part: the query string of
    the first has a [code] parameter and that of the second has none, and
    [generate_code] neither returns the code nor raises [InvalidAuth]: the
    [ValueError] of [urlparse] goes through the handler for [KeyError]. *)
Lemma generate_code_rejected_location :
  let submit (location : string) :=
    fst (run (Fixture.always (Fixture.redirect_reply (Some location)))
             (generate_code (urllib := Urllib_reference.instance) (const := Fixture.const)
                            "sc01" "ex02" "tb03")
             (fresh "user" "secret")) in
  Urllib_reference.parse "code=1]" !! "code" = Some ["1]"]
  ∧ submit "http://[bad?code=1]" = Raised ValueError
  ∧ Urllib_reference.parse "error=denied" !! "code" = None
  ∧ submit "http://[bad?error=denied" = Raised ValueError
  ∧ Raised ValueError ≠ Returned "1]"
  ∧ @Raised string ValueError ≠ Raised InvalidAuth.
Proof.
  cbv zeta. repeat split; try reflexivity; discriminate.
Qed.

Lemma generate_code_without_location_witness :
  fst (run (Fixture.always (Fixture.redirect_reply None))
           (generate_code (urllib := Urllib_reference.instance) (const := Fixture.const)
                          "sc01" "ex02" "tb03")
           (fresh "user" "secret"))
  = Raised InvalidAuth.
Proof.
  refine (proj2 (generate_code_without_location
                   (urllib := Urllib_reference.instance) (const := Fixture.const)
                   (Fixture.always (Fixture.redirect_reply None)) (fresh "user" "secret")
                   "sc01" "ex02" "tb03" _ eq_refl _ _)); reflexivity.
Defined.

Section Login_page.

Context {bs4 : Bs4} {urllib : Urllib}.

(** [find] gives the first tag, in document order, that carries the id. *)
Lemma find_from_first (i : string) (n : Node) :
  find_from i n = hd_error (List.filter (has_id i) (tags_from n)).
Proof.
  induction n as [s|name a contents IH] using Node_nested_ind; [reflexivity|].
  simpl. destruct (has_id i (Element name a contents)); [reflexivity|].
  induction IH as [|c l Hc _ IHl]; [reflexivity|].
  rewrite Hc, List.filter_app.
  destruct (List.filter (has_id i) (tags_from c)); simpl; [exact IHl|reflexivity].
Qed.

Lemma find_first (soup : list Node) (i : string) :
  find soup i = hd_error (List.filter (has_id i) (tags soup)).
Proof.
  induction soup as [|c l IH]; [reflexivity|].
  simpl. rewrite find_from_first, List.filter_app.
  destruct (List.filter (has_id i) (tags_from c)); simpl; [exact IH|reflexivity].
Qed.

(** The login form of a document: the first tag with the form's id. *)
Definition login_form_of (auth_page : list Node) : option Node :=
  hd_error (List.filter (has_id LOGIN_FORM_ID) (tags auth_page)).

(** C5, amended. For a page that the HTML parser accepts:
    [extract_login_data] raises [InvalidResponse] when the document has no
    login form and when the form has no [action]; when the [action] is a
    URL that [urlparse] accepts, it returns the first values of
    [session_code], [execution] and [tab_id] in its query string when the
    three names are there, and raises [InvalidResponse] when one of them is
    missing.  An [action] that [urlparse] rejects lets the [ValueError]
    through, and a page that the HTML parser rejects lets the parser's
    exception through: neither is turned into [InvalidResponse]. *)
Theorem extract_login_data_outcome (page : string) :
  (∀ e, BeautifulSoup page = Raise e → extract_login_data page = Raise e)
  ∧ ∀ auth_page, BeautifulSoup page = Ok auth_page →
      (login_form_of auth_page = None → extract_login_data page = Raise InvalidResponse)
      ∧ ∀ login_form, login_form_of auth_page = Some login_form →
          (attrs login_form !! "action" = None →
           extract_login_data page = Raise InvalidResponse)
          ∧ ∀ login_url, attrs login_form !! "action" = Some login_url →
              (∀ e, urlparse login_url = Raise e →
                    extract_login_data page = Raise ValueError)
              ∧ ∀ parsed_url, urlparse login_url = Ok parsed_url →
                  let login_data := parse_qs (query parsed_url) in
                  (∀ sc scs ex exs tab tabs,
                     login_data !! "session_code" = Some (sc :: scs) →
                     login_data !! "execution" = Some (ex :: exs) →
                     login_data !! "tab_id" = Some (tab :: tabs) →
                     extract_login_data page
                     = Ok (auth_sess_data.AuthSessionData sc ex tab))
                  ∧ (login_data !! "session_code" = None
                     ∨ login_data !! "execution" = None
                     ∨ login_data !! "tab_id" = None →
                     extract_login_data page = Raise InvalidResponse).
Proof.
  unfold login_form_of, extract_login_data.
  split; [intros e ->; reflexivity|].
  intros auth_page ->. cbn [mbind result_bind]. rewrite <- find_first.
  split; [intros ->; reflexivity|].
  intros login_form ->. unfold getitem.
  split; [intros ->; reflexivity|].
  intros login_url ->. cbn [try_except_raise mbind result_bind].
  split.
  { intros e Hurl. rewrite (urlparse_raises _ _ Hurl) in Hurl. rewrite Hurl. reflexivity. }
  intros parsed_url ->. cbn [mbind result_bind]. cbv zeta.
  split.
  - intros sc scs ex exs tab tabs Hsc Hex Htab. rewrite Hsc, Hex, Htab. reflexivity.
  - intros Hmissing.
    destruct Hmissing as [Hm|[Hm|Hm]]; rewrite Hm; simpl.
    + reflexivity.
    + destruct (parse_qs (query parsed_url) !! "session_code") as [[|sc scs]|];
        reflexivity.
    + destruct (parse_qs (query parsed_url) !! "session_code") as [[|sc scs]|];
        try reflexivity.
      destruct (parse_qs (query parsed_url) !! "execution") as [[|ex exs]|]; reflexivity.
Qed.

(** What [extract_login_data] raises: [InvalidResponse], or the exception
    of the HTML parser, or the [ValueError] of [urlparse] on the [action]
    of the login form. *)
Lemma extract_login_data_raised (page : string) (e : exn) :
  extract_login_data page = Raise e →
  e = InvalidResponse
  ∨ BeautifulSoup page = Raise e
  ∨ (e = ValueError
     ∧ ∃ auth_page login_form login_url,
         BeautifulSoup page = Ok auth_page
         ∧ find auth_page LOGIN_FORM_ID = Some login_form
         ∧ attrs login_form !! "action" = Some login_url
         ∧ urlparse login_url = Raise ValueError).
Proof.
  unfold extract_login_data.
  destruct (BeautifulSoup page) as [auth_page|e0] eqn:Hsoup; cbn [mbind result_bind].
  2:{ intros [= <-]. right. left. reflexivity. }
  destruct (find auth_page LOGIN_FORM_ID) as [form|] eqn:Hform.
  2:{ intros [= <-]. left. reflexivity. }
  unfold getitem.
  destruct (attrs form !! "action") as [login_url|] eqn:Haction;
    cbn [try_except_raise is_KeyError mbind result_bind].
  2:{ intros [= <-]. left. reflexivity. }
  destruct (urlparse login_url) as [parsed_url|e0] eqn:Hurl; cbn [mbind result_bind].
  2:{ intros [= <-]. pose proof (urlparse_raises _ _ Hurl) as He. subst e0.
      right. right. split; [reflexivity|]. exists auth_page, form, login_url. auto. }
  intros Hraise. left.
  destruct (parse_qs (query parsed_url) !! "session_code") as [[|sc scs]|];
    simpl in Hraise; try (injection Hraise as <-; reflexivity).
  destruct (parse_qs (query parsed_url) !! "execution") as [[|ex exs]|];
    simpl in Hraise; try (injection Hraise as <-; reflexivity).
  destruct (parse_qs (query parsed_url) !! "tab_id") as [[|tab tabs]|];
    simpl in Hraise; try (injection Hraise as <-; reflexivity).
  discriminate.
Qed.

End Login_page.

Lemma extract_login_data_outcome_witness :
  let extract := extract_login_data (bs4 := Fixture.bs4) (urllib := Urllib_reference.instance) in
  extract Fixture.login_page = Ok (auth_sess_data.AuthSessionData "sc01" "ex02" "tb03")
  ∧ extract Fixture.maintenance_page = Raise InvalidResponse
  ∧ extract Fixture.bare_form_page = Raise InvalidResponse
  ∧ extract Fixture.short_action_page = Raise InvalidResponse
  ∧ extract Fixture.bad_action_page = Raise ValueError
  ∧ extract Fixture.rejected_page = Raise ParserRejectedMarkup.
Proof.
  pose (spec := extract_login_data_outcome
                  (bs4 := Fixture.bs4) (urllib := Urllib_reference.instance)).
  cbv zeta. split; [|split; [|split; [|split; [|split]]]].
  - destruct (spec Fixture.login_page) as [_ Hpage].
    destruct (Hpage Fixture.login_document) as [_ Hform]; [reflexivity|].
    destruct (Hform Fixture.login_form) as [_ Haction]; [reflexivity|].
    destruct (Haction "https://accounts.hubspaceconnect.com/auth/realms/thd/login-actions/authenticate?session_code=sc01&execution=ex02&client_id=hubspace_android&tab_id=tb03")
      as [_ Hurl]; [reflexivity|].
    destruct (Hurl {| query := "session_code=sc01&execution=ex02&client_id=hubspace_android&tab_id=tb03" |})
      as [Hvalues _]; [reflexivity|].
    exact (Hvalues "sc01" [] "ex02" [] "tb03" [] eq_refl eq_refl eq_refl).
  - destruct (spec Fixture.maintenance_page) as [_ Hpage].
    destruct (Hpage Fixture.maintenance_document) as [Hnone _]; [reflexivity|].
    apply Hnone. reflexivity.
  - destruct (spec Fixture.bare_form_page) as [_ Hpage].
    destruct (Hpage Fixture.bare_form_document) as [_ Hform]; [reflexivity|].
    destruct (Hform (Element "form" (<["id" := "kc-form-login"]> ∅) [])) as [Hnone _];
      [reflexivity|].
    apply Hnone. reflexivity.
  - destruct (spec Fixture.short_action_page) as [_ Hpage].
    destruct (Hpage Fixture.short_action_document) as [_ Hform]; [reflexivity|].
    destruct (Hform (Element "form"
                       (<["id" := "kc-form-login"]>
                         (<["action" := "/authenticate?session_code=sc01&execution=ex02"]> ∅))
                       []))
      as [_ Haction]; [reflexivity|].
    destruct (Haction "/authenticate?session_code=sc01&execution=ex02") as [_ Hurl];
      [reflexivity|].
    destruct (Hurl {| query := "session_code=sc01&execution=ex02" |}) as [_ Hmissing];
      [reflexivity|].
    apply Hmissing. right. right. reflexivity.
  - destruct (spec Fixture.bad_action_page) as [_ Hpage].
    destruct (Hpage Fixture.bad_action_document) as [_ Hform]; [reflexivity|].
    destruct (Hform (Element "form"
                       (<["id" := "kc-form-login"]>
                         (<["action" := "http://[x?session_code=sc01&execution=ex02"]> ∅))
                       []))
      as [_ Haction]; [reflexivity|].
    destruct (Haction "http://[x?session_code=sc01&execution=ex02") as [Hrejected _];
      [reflexivity|].
    apply (Hrejected ValueError). reflexivity.
  - destruct (spec Fixture.rejected_page) as [Hparser _].
    apply (Hparser ParserRejectedMarkup). reflexivity.
Defined.

(** C5, counterexample. A login form whose [action] has an opening bracket
    without its closing one in the host part, and whose query string has no
    [tab_id]: a key is missing, yet [extract_login_data] raises
    [ValueError] and not [InvalidResponse].  Markup that the HTML parser
    rejects gives the parser's exception. *)
Lemma extract_login_data_rejected_action :
  let extract := extract_login_data (bs4 := Fixture.bs4) (urllib := Urllib_reference.instance) in
  (∃ form, find Fixture.bad_action_document "kc-form-login" = Some form
           ∧ attrs form !! "action" = Some "http://[x?session_code=sc01&execution=ex02")
  ∧ Urllib_reference.parse "session_code=sc01&execution=ex02" !! "tab_id" = None
  ∧ extract Fixture.bad_action_page = Raise ValueError
  ∧ extract Fixture.rejected_page = Raise ParserRejectedMarkup
  ∧ @Raise auth_sess_data.t ValueError ≠ Raise InvalidResponse.
Proof.
  cbv zeta. split; [eexists; split; reflexivity|].
  split; [reflexivity|]. split; [reflexivity|]. split; [reflexivity|]. discriminate.
Qed.

(** ** The challenge generator *)

Lemma re_sub_outside_keeps (keep : ascii → bool) (s : string) :
  string_forall keep (re_sub_outside keep s) = true.
Proof.
  induction s as [|ch s IH]; simpl; [reflexivity|].
  destruct (keep ch) eqn:Hk; simpl; [rewrite Hk|]; exact IH.
Qed.

Lemma re_sub_outside_fixed (keep : ascii → bool) (s : string) :
  string_forall keep s = true → re_sub_outside keep s = s.
Proof.
  induction s as [|ch s IH]; simpl; [reflexivity|].
  intros [Hk Hs]%andb_prop. rewrite Hk, IH by exact Hs. reflexivity.
Qed.

Lemma re_sub_outside_app (keep : ascii → bool) (s1 s2 : string) :
  re_sub_outside keep (s1 +:+ s2) = re_sub_outside keep s1 +:+ re_sub_outside keep s2.
Proof.
  induction s1 as [|ch s1 IH]; simpl; [reflexivity|].
  destruct (keep ch); simpl; rewrite IH; reflexivity.
Qed.

Lemma append_empty (s : string) : s +:+ "" = s.
Proof.
  induction s as [|ch s IH]; [reflexivity|].
  change (String ch (s +:+ "") = String ch s). rewrite IH. reflexivity.
Qed.

Lemma string_of_list_ascii_app (l1 l2 : list ascii) :
  string_of_list_ascii (l1 ++ l2) = string_of_list_ascii l1 +:+ string_of_list_ascii l2.
Proof. induction l1 as [|ch l1 IH]; simpl; [reflexivity|]. rewrite IH. reflexivity. Qed.

Lemma decode_urlsafe_b64encode (bs : list byte) :
  decode_utf8 (Base64.urlsafe_b64encode bs)
  = string_of_list_ascii (Base64.encode_Z (map Z_of_byte bs)).
Proof.
  unfold decode_utf8, Base64.urlsafe_b64encode, string_of_list_byte.
  rewrite map_map. f_equal.
  rewrite <- (map_id (Base64.encode_Z _)) at 2.
  apply map_ext. intros ch. apply ascii_of_byte_of_ascii.
Qed.

Lemma digit_not_pad (n : Z) : Ascii.eqb (Base64.digit n) Base64.pad = false.
Proof.
  unfold Base64.digit.
  assert (Hall : forallb (fun ch => negb (Ascii.eqb ch Base64.pad))
                         ("A"%char :: Base64.alphabet) = true) by reflexivity.
  rewrite forallb_forall in Hall.
  apply negb_true_iff, Hall.
  destruct (nth_in_or_default (Z.to_nat n) Base64.alphabet "A"%char) as [Hin|Hd].
  - right. exact Hin.
  - left. symmetry. exact Hd.
Qed.

(** The encoding is a run of digits followed by at most two pad characters. *)
Lemma encode_Z_shape (l : list Z) :
  ∃ digits n, Base64.encode_Z l = digits ++ repeat Base64.pad n
              ∧ forallb (fun ch => negb (Ascii.eqb ch Base64.pad)) digits = true
              ∧ (n <= 2)%nat.
Proof.
  revert l. fix IH 1. intros [|a [|b [|c rest]]].
  - exists [], 0%nat. repeat split; auto.
  - exists [Base64.digit (Z.shiftr a 2); Base64.digit (Z.shiftl (Z.land a 3) 4)], 2%nat.
    simpl. rewrite !digit_not_pad. repeat split; auto.
  - exists [Base64.digit (Z.shiftr a 2);
            Base64.digit (Z.lor (Z.shiftl (Z.land a 3) 4) (Z.shiftr b 4));
            Base64.digit (Z.shiftl (Z.land b 15) 2)], 1%nat.
    simpl. rewrite !digit_not_pad. repeat split; auto.
  - destruct (IH rest) as (digits & n & Heq & Hd & Hn).
    exists (Base64.digit (Z.shiftr a 2)
            :: Base64.digit (Z.lor (Z.shiftl (Z.land a 3) 4) (Z.shiftr b 4))
            :: Base64.digit (Z.lor (Z.shiftl (Z.land b 15) 2) (Z.shiftr c 6))
            :: Base64.digit (Z.land c 63) :: digits), n.
    simpl. rewrite Heq, !digit_not_pad, Hd. repeat split; auto.
Qed.

Lemma string_forall_of_list (P : ascii → bool) (l : list ascii) :
  string_forall P (string_of_list_ascii l) = forallb P l.
Proof. induction l as [|ch l IH]; simpl; [reflexivity|]. rewrite IH. reflexivity. Qed.

Lemma remove_pad_of_repeat (n : nat) :
  remove_char Base64.pad (string_of_list_ascii (repeat Base64.pad n)) = "".
Proof. induction n as [|n IH]; simpl; [reflexivity|]. exact IH. Qed.

(** Removing [=] from an encoding removes its padding and nothing else. *)
Lemma remove_pad_is_unpadding (bs : list byte) :
  ∃ n, (n <= 2)%nat
       ∧ decode_utf8 (Base64.urlsafe_b64encode bs)
         = remove_char "="%char (decode_utf8 (Base64.urlsafe_b64encode bs))
           +:+ string_of_list_ascii (repeat "="%char n).
Proof.
  rewrite decode_urlsafe_b64encode.
  destruct (encode_Z_shape (map Z_of_byte bs)) as (digits & n & Heq & Hd & Hn).
  exists n. split; [exact Hn|].
  change "="%char with Base64.pad.
  rewrite Heq, string_of_list_ascii_app.
  assert (Hstrip : remove_char Base64.pad
                     (string_of_list_ascii digits
                      +:+ string_of_list_ascii (repeat Base64.pad n))
                   = string_of_list_ascii digits).
  { unfold remove_char. rewrite re_sub_outside_app.
    fold (remove_char Base64.pad (string_of_list_ascii (repeat Base64.pad n))).
    rewrite remove_pad_of_repeat.
    rewrite re_sub_outside_fixed by (rewrite string_forall_of_list; exact Hd).
    apply append_empty. }
  rewrite Hstrip. reflexivity.
Qed.

Lemma length_os_urandom (E : Env) (h : list event) (n : nat) :
  length (os_urandom E h n) = n.
Proof. unfold os_urandom. rewrite length_map, length_seq. reflexivity. Qed.

Lemma run_generate_challenge_data (E : Env) (c : config) :
  run E generate_challenge_data c
  = (Returned (auth_challenge.AuthChallenge
                 (challenge_of (verifier_of (os_urandom E (trace c) 40)))
                 (verifier_of (os_urandom E (trace c) 40))),
     Config (obj c) (trace c ++ [EvUrandom (os_urandom E (trace c) 40)])).
Proof. reflexivity. Qed.

Lemma challenge_of_unfold (code_verifier : string) :
  challenge_of code_verifier
  = remove_char "="%char
      (decode_utf8 (Base64.urlsafe_b64encode (SHA256.digest (encode_utf8 code_verifier)))).
Proof. reflexivity. Qed.

Lemma challenge_of_unpadded (code_verifier : string) :
  string_forall (fun ch => negb (Ascii.eqb ch "=")) (challenge_of code_verifier) = true.
Proof. rewrite challenge_of_unfold. apply re_sub_outside_keeps. Qed.

Lemma verifier_of_unfold (random : list byte) :
  verifier_of random
  = re_sub_outside is_alnum (decode_utf8 (Base64.urlsafe_b64encode random)).
Proof. reflexivity. Qed.

(** The fields of the pair [generate_challenge_data] returns. *)
Lemma returned_challenge_data (E : Env) (c : config) (chal : auth_challenge.t) :
  fst (run E generate_challenge_data c) = Returned chal →
  auth_challenge.verifier chal = verifier_of (os_urandom E (trace c) 40)
  ∧ auth_challenge.challenge chal = challenge_of (auth_challenge.verifier chal).
Proof.
  intros Hrun.
  rewrite run_generate_challenge_data in Hrun. cbn [fst] in Hrun.
  injection Hrun as <-.
  generalize (os_urandom E (trace c) 40). intros random.
  split; reflexivity.
Qed.

Lemma verifier_of_alnum (random : list byte) :
  string_forall is_alnum (verifier_of random) = true.
Proof. apply re_sub_outside_keeps. Qed.

(** *** Sizes *)

Lemma length_round (st : list Z) (kw : Z * Z) :
  length (SHA256.round st kw) = length st.
Proof.
  destruct st as [|a [|b [|c [|d [|e [|f [|g [|h [|i rest]]]]]]]]]; reflexivity.
Qed.

Lemma length_rounds (kws : list (Z * Z)) (st : list Z) :
  length (fold_left SHA256.round kws st) = length st.
Proof.
  revert st. induction kws as [|kw kws IH]; intros st; [reflexivity|].
  cbn [fold_left]. rewrite IH. apply length_round.
Qed.

Lemma length_compress (h block : list Z) :
  length (SHA256.compress h block) = length h.
Proof.
  unfold SHA256.compress. cbv zeta.
  rewrite length_map, length_combine, length_rounds. apply Nat.min_id.
Qed.

Lemma length_compress_all (bl : list (list Z)) (h : list Z) :
  length (fold_left SHA256.compress bl h) = length h.
Proof.
  revert h. induction bl as [|block bl IH]; intros h; [reflexivity|].
  cbn [fold_left]. rewrite IH. apply length_compress.
Qed.

Lemma length_be_bytes (n : nat) (x : Z) : length (SHA256.be_bytes n x) = n.
Proof.
  revert x. induction n as [|n IH]; intros x; [reflexivity|].
  cbn [SHA256.be_bytes]. rewrite length_app, IH. cbn [length]. lia.
Qed.

Lemma length_concat_be_bytes (h : list Z) :
  length (concat (map (SHA256.be_bytes 4) h)) = (4 * length h)%nat.
Proof.
  induction h as [|x h IH]; [reflexivity|].
  cbn [map concat]. rewrite length_app, length_be_bytes, IH. cbn [length]. lia.
Qed.

(** A SHA-256 digest has 32 bytes. *)
Lemma length_digest (msg : list byte) : length (SHA256.digest msg) = 32%nat.
Proof.
  unfold SHA256.digest, SHA256.digest_Z. cbv zeta.
  rewrite length_map, length_concat_be_bytes, length_compress_all. reflexivity.
Qed.

(** The alphabet of base64url. *)
Definition is_base64url (ch : ascii) : bool :=
  is_alnum ch || Ascii.eqb ch "-" || Ascii.eqb ch "_".

Lemma digit_base64url (n : Z) : is_base64url (Base64.digit n) = true.
Proof.
  unfold Base64.digit.
  assert (Hall : forallb is_base64url ("A"%char :: Base64.alphabet) = true) by reflexivity.
  rewrite forallb_forall in Hall. apply Hall.
  destruct (nth_in_or_default (Z.to_nat n) Base64.alphabet "A"%char) as [Hin|Hd].
  - right. exact Hin.
  - left. symmetry. exact Hd.
Qed.

(** The number of digits and of pad characters that encode [n] bytes. *)
Definition digits_for (n : nat) : nat := ((4 * n + 2) / 3)%nat.

Definition pads_for (n : nat) : nat := ((3 - n mod 3) mod 3)%nat.

Lemma digits_for_three_more (n : nat) : digits_for (3 + n) = (4 + digits_for n)%nat.
Proof.
  unfold digits_for.
  replace (4 * (3 + n) + 2)%nat with ((4 * n + 2) + 4 * 3)%nat by lia.
  rewrite Nat.div_add by lia. lia.
Qed.

Lemma pads_for_three_more (n : nat) : pads_for (3 + n) = pads_for n.
Proof.
  unfold pads_for.
  replace (3 + n)%nat with (n + 1 * 3)%nat by lia.
  rewrite Nat.Div0.mod_add. reflexivity.
Qed.

(** The encoding of [n] bytes: [digits_for n] digits of the alphabet, then
    [pads_for n] pad characters. *)
Lemma encode_Z_digits (l : list Z) :
  ∃ digits, Base64.encode_Z l = digits ++ repeat Base64.pad (pads_for (length l))
            ∧ forallb (fun ch => negb (Ascii.eqb ch Base64.pad)) digits = true
            ∧ forallb is_base64url digits = true
            ∧ length digits = digits_for (length l).
Proof.
  revert l. fix IH 1. intros [|a [|b [|c rest]]].
  - exists []. repeat split; auto.
  - exists [Base64.digit (Z.shiftr a 2); Base64.digit (Z.shiftl (Z.land a 3) 4)].
    cbn [forallb]. rewrite !digit_not_pad, !digit_base64url. repeat split; auto.
  - exists [Base64.digit (Z.shiftr a 2);
            Base64.digit (Z.lor (Z.shiftl (Z.land a 3) 4) (Z.shiftr b 4));
            Base64.digit (Z.shiftl (Z.land b 15) 2)].
    cbn [forallb]. rewrite !digit_not_pad, !digit_base64url. repeat split; auto.
  - destruct (IH rest) as (digits & Heq & Hd & Hb & Hlen).
    exists (Base64.digit (Z.shiftr a 2)
            :: Base64.digit (Z.lor (Z.shiftl (Z.land a 3) 4) (Z.shiftr b 4))
            :: Base64.digit (Z.lor (Z.shiftl (Z.land b 15) 2) (Z.shiftr c 6))
            :: Base64.digit (Z.land c 63) :: digits).
    change (length (a :: b :: c :: rest)) with (3 + length rest)%nat.
    rewrite pads_for_three_more, digits_for_three_more.
    cbn [forallb Base64.encode_Z]. rewrite Heq, !digit_not_pad, !digit_base64url, Hd, Hb.
    split; [reflexivity|]. split; [reflexivity|]. split; [reflexivity|].
    cbn [length]. rewrite Hlen. reflexivity.
Qed.

Lemma length_string_of_list_ascii (l : list ascii) :
  String.length (string_of_list_ascii l) = length l.
Proof. induction l as [|ch l IH]; [reflexivity|]. cbn. rewrite IH. reflexivity. Qed.

Lemma length_re_sub_outside (keep : ascii → bool) (s : string) :
  (String.length (re_sub_outside keep s) <= String.length s)%nat.
Proof.
  induction s as [|ch s IH]; [reflexivity|].
  cbn [re_sub_outside]. destruct (keep ch); cbn [String.length]; lia.
Qed.

Lemma re_sub_alnum_of_padding (n : nat) :
  re_sub_outside is_alnum (string_of_list_ascii (repeat Base64.pad n)) = "".
Proof. induction n as [|n IH]; [reflexivity|]. exact IH. Qed.

(** The encoding of a digest: 43 digits and one pad character, of which
    the challenge keeps the digits. *)
Lemma challenge_of_shape (code_verifier : string) :
  ∃ digits,
    challenge_of code_verifier = string_of_list_ascii digits
    ∧ decode_utf8 (Base64.urlsafe_b64encode (SHA256.digest (encode_utf8 code_verifier)))
      = string_of_list_ascii digits +:+ "="
    ∧ length digits = 43%nat
    ∧ forallb is_base64url digits = true.
Proof.
  rewrite challenge_of_unfold, decode_urlsafe_b64encode.
  pose proof (length_digest (encode_utf8 code_verifier)) as Hlen.
  generalize dependent (SHA256.digest (encode_utf8 code_verifier)). intros hash Hlen.
  destruct (encode_Z_digits (map Z_of_byte hash)) as (digits & -> & Hd & Hb & Hdigits).
  rewrite length_map, Hlen in *.
  exists digits.
  rewrite string_of_list_ascii_app.
  change "="%char with Base64.pad.
  unfold remove_char. rewrite re_sub_outside_app.
  fold (remove_char Base64.pad (string_of_list_ascii (repeat Base64.pad (pads_for 32)))).
  rewrite remove_pad_of_repeat.
  rewrite re_sub_outside_fixed by (rewrite string_forall_of_list; exact Hd).
  rewrite append_empty.
  split; [reflexivity|]. split; [reflexivity|]. split; [exact Hdigits|exact Hb].
Qed.

Lemma length_challenge_of (code_verifier : string) :
  String.length (challenge_of code_verifier) = 43%nat
  ∧ string_forall is_base64url (challenge_of code_verifier) = true.
Proof.
  destruct (challenge_of_shape code_verifier) as (digits & -> & _ & Hlen & Hb).
  rewrite length_string_of_list_ascii, string_forall_of_list. auto.
Qed.

Lemma length_verifier_of (random : list byte) :
  (String.length (verifier_of random) <= digits_for (length random))%nat.
Proof.
  rewrite verifier_of_unfold, decode_urlsafe_b64encode.
  destruct (encode_Z_digits (map Z_of_byte random)) as (digits & -> & _ & _ & Hdigits).
  rewrite length_map in Hdigits.
  rewrite string_of_list_ascii_app, re_sub_outside_app, re_sub_alnum_of_padding, append_empty.
  rewrite <- Hdigits, <- (length_string_of_list_ascii digits).
  apply length_re_sub_outside.
Qed.

(** *** Known answers *)

(** The example of RFC 7636, appendix B. *)
Example challenge_of_rfc7636 :
  challenge_of "dBjftJeZ4CVP-mB92K27uhbUJU1p1r_wW1gFWFOEjXk"
  = "E9Melhoa2OwvFrEMTJguCHaoeK1t8URWbuGJSstw-cM".
Proof. vm_compute. reflexivity. Qed.

(** A message of more than one block. *)
Example sha256_three_blocks :
  decode_utf8 (Base64.urlsafe_b64encode
                 (SHA256.digest (encode_utf8 (string_of_list_ascii (repeat "a"%char 130)))))
  = "HjxPR1DIwpu_qc7TF3iBdrFW00Llf3d39i_XIhpEMS8=".
Proof. vm_compute. reflexivity. Qed.

(** Random bytes whose encoding has characters to strip. *)
Example generate_challenge_data_strips :
  fst (run {| transport := Fixture.provider;
              clock := Fixture.seconds;
              entropy := fun _ i => byte_of_Z (255 - 3 * Z.of_nat i) |}
           generate_challenge_data (fresh "user" "secret"))
  = Returned (auth_challenge.AuthChallenge
                "XTpeqzE9bCFXTG6HH-8rs4F4_dMI_evQ1sHx95xR2Ng"
                "z59vPw7ern5OHe29jV0sMycbDwL26t7SxrquopaKfnJmWk5CNig").
Proof. vm_compute. reflexivity. Qed.

(** The bytes [0], [1], ... and the bytes [255], [252], ... *)
Definition counting_up (i : nat) : byte := byte_of_Z (Z.of_nat i).
Definition counting_down (i : nat) : byte := byte_of_Z (255 - 3 * Z.of_nat i).

Lemma verifier_of_counting_up :
  verifier_of (map counting_up (seq 0 40))
  = "AAECAwQFBgcICQoLDA0ODxAREhMUFRYXGBkaGxwdHh8gISIjJCUmJw".
Proof. vm_compute. reflexivity. Qed.

Lemma challenge_of_counting_up :
  challenge_of "AAECAwQFBgcICQoLDA0ODxAREhMUFRYXGBkaGxwdHh8gISIjJCUmJw"
  = "mH1q_ijsuQBUVQv98O1U8-1bD0byteV3EVkXmFH5_ds".
Proof. vm_compute. reflexivity. Qed.

Lemma verifier_of_counting_down :
  verifier_of (map counting_down (seq 0 40))
  = "z59vPw7ern5OHe29jV0sMycbDwL26t7SxrquopaKfnJmWk5CNig".
Proof. vm_compute. reflexivity. Qed.

Lemma challenge_of_counting_down :
  challenge_of "z59vPw7ern5OHe29jV0sMycbDwL26t7SxrquopaKfnJmWk5CNig"
  = "XTpeqzE9bCFXTG6HH-8rs4F4_dMI_evQ1sHx95xR2Ng".
Proof. vm_compute. reflexivity. Qed.

Lemma os_urandom_of (E : Env) (h : list event) (n : nat) (source : nat → byte) :
  (∀ i, (i < n)%nat → entropy E h i = source i) →
  os_urandom E h n = map source (seq 0 n).
Proof.
  intros Hsource. unfold os_urandom. apply map_ext_in.
  intros i Hi. apply in_seq in Hi. apply Hsource. lia.
Qed.

(** The pair that [generate_challenge_data] makes of known random bytes. *)
Lemma challenge_data_of (E : Env) (c : config) (chal : auth_challenge.t)
    (source : nat → byte) (code_verifier code_challenge : string) :
  fst (run E generate_challenge_data c) = Returned chal →
  (∀ i, (i < 40)%nat → entropy E (trace c) i = source i) →
  verifier_of (map source (seq 0 40)) = code_verifier →
  challenge_of code_verifier = code_challenge →
  chal = auth_challenge.AuthChallenge code_challenge code_verifier.
Proof.
  intros Hret Hsource Hverifier Hchallenge.
  destruct (returned_challenge_data E c chal Hret) as [Hv Hc].
  rewrite (os_urandom_of E (trace c) 40 source Hsource), Hverifier in Hv.
  rewrite Hv, Hchallenge in Hc.
  destruct chal as [ch v]. cbn [auth_challenge.challenge auth_challenge.verifier] in *.
  rewrite Hv, Hc. reflexivity.
Qed.

(** C6. [generate_challenge_data] returns a pair whose verifier is the
    base64url text of 40 random bytes without its non-alphanumeric
    characters, hence alphanumeric throughout and of at most 54 characters,
    and whose challenge is the base64url text of the SHA-256 digest of the
    verifier's bytes without its [=] padding: the 43 characters, all of the
    base64url alphabet, that stand before the one pad character of that
    text.  Two pairs with the same verifier have the same challenge.  The
    hash and the encoding are the ones of RFC 7636: they give the challenge
    of its appendix B for the verifier of its appendix B, and the pairs
    that Python gives for the random bytes [0, 1, ..., 39] and
    [255, 252, ..., 138]. *)
Theorem generate_challenge_data_pkce (E : Env) (c : config) :
  ∃ chal : auth_challenge.t,
    fst (run E generate_challenge_data c) = Returned chal
    ∧ length (os_urandom E (trace c) 40) = 40%nat
    ∧ auth_challenge.verifier chal
      = re_sub_outside is_alnum
          (decode_utf8 (Base64.urlsafe_b64encode (os_urandom E (trace c) 40)))
    ∧ string_forall is_alnum (auth_challenge.verifier chal) = true
    ∧ (String.length (auth_challenge.verifier chal) <= 54)%nat
    ∧ (let encoded :=
         decode_utf8 (Base64.urlsafe_b64encode
                        (SHA256.digest (encode_utf8 (auth_challenge.verifier chal)))) in
       auth_challenge.challenge chal = remove_char "="%char encoded
       ∧ string_forall (fun ch => negb (Ascii.eqb ch "=")) (auth_challenge.challenge chal)
         = true
       ∧ encoded = auth_challenge.challenge chal +:+ "="
       ∧ String.length (auth_challenge.challenge chal) = 43%nat
       ∧ string_forall is_base64url (auth_challenge.challenge chal) = true)
    ∧ (∀ (E' : Env) (c' : config) (chal' : auth_challenge.t),
         fst (run E' generate_challenge_data c') = Returned chal' →
         auth_challenge.verifier chal' = auth_challenge.verifier chal →
         auth_challenge.challenge chal' = auth_challenge.challenge chal)
    ∧ remove_char "="%char
        (decode_utf8 (Base64.urlsafe_b64encode
           (SHA256.digest (encode_utf8 "dBjftJeZ4CVP-mB92K27uhbUJU1p1r_wW1gFWFOEjXk"))))
      = "E9Melhoa2OwvFrEMTJguCHaoeK1t8URWbuGJSstw-cM"
    ∧ ((∀ i, (i < 40)%nat → entropy E (trace c) i = byte_of_Z (Z.of_nat i)) →
       chal = auth_challenge.AuthChallenge
                "mH1q_ijsuQBUVQv98O1U8-1bD0byteV3EVkXmFH5_ds"
                "AAECAwQFBgcICQoLDA0ODxAREhMUFRYXGBkaGxwdHh8gISIjJCUmJw")
    ∧ ((∀ i, (i < 40)%nat → entropy E (trace c) i = byte_of_Z (255 - 3 * Z.of_nat i)) →
       chal = auth_challenge.AuthChallenge
                "XTpeqzE9bCFXTG6HH-8rs4F4_dMI_evQ1sHx95xR2Ng"
                "z59vPw7ern5OHe29jV0sMycbDwL26t7SxrquopaKfnJmWk5CNig").
Proof.
  pose proof (run_generate_challenge_data E c) as Hrun.
  remember (auth_challenge.AuthChallenge
              (challenge_of (verifier_of (os_urandom E (trace c) 40)))
              (verifier_of (os_urandom E (trace c) 40))) as chal eqn:Hchal.
  clear Hchal.
  assert (Hret : fst (run E generate_challenge_data c) = Returned chal)
    by (rewrite Hrun; reflexivity).
  clear Hrun.
  destruct (returned_challenge_data E c chal Hret) as [Hv Hc].
  exists chal.
  split; [exact Hret|].
  split; [apply length_os_urandom|].
  split; [rewrite Hv; apply verifier_of_unfold|].
  split; [rewrite Hv; apply verifier_of_alnum|].
  split.
  { rewrite Hv. rewrite <- (length_os_urandom E (trace c) 40) at 2.
    apply length_verifier_of. }
  split.
  { cbv zeta. rewrite Hc.
    destruct (challenge_of_shape (auth_challenge.verifier chal))
      as (digits & Hdigits & Hencoded & Hlen & Halphabet).
    split; [apply challenge_of_unfold|].
    split; [apply challenge_of_unpadded|].
    split; [rewrite Hencoded, Hdigits; reflexivity|].
    rewrite Hdigits, length_string_of_list_ascii, string_forall_of_list. auto. }
  split.
  { intros E' c' chal' Hret' Hsame.
    destruct (returned_challenge_data E' c' chal' Hret') as [_ Hc'].
    rewrite Hc', Hc, Hsame. reflexivity. }
  split; [exact challenge_of_rfc7636|].
  split.
  - intros Hsource.
    exact (challenge_data_of E c chal counting_up _ _ Hret Hsource
             verifier_of_counting_up challenge_of_counting_up).
  - intros Hsource.
    exact (challenge_data_of E c chal counting_down _ _ Hret Hsource
             verifier_of_counting_down challenge_of_counting_down).
Qed.

Lemma generate_challenge_data_pkce_witness :
  fst (run Fixture.env generate_challenge_data (fresh "user" "secret"))
  = Returned (auth_challenge.AuthChallenge
                "mH1q_ijsuQBUVQv98O1U8-1bD0byteV3EVkXmFH5_ds"
                "AAECAwQFBgcICQoLDA0ODxAREhMUFRYXGBkaGxwdHh8gISIjJCUmJw").
Proof.
  destruct (generate_challenge_data_pkce Fixture.env (fresh "user" "secret"))
    as (chal & Hret & _ & _ & _ & _ & _ & _ & _ & Hknown & _).
  rewrite Hret. f_equal. apply Hknown. intros i _. reflexivity.
Defined.

(** ** The authenticator, one call at a time *)

Section Authenticator.

Context {bs4 : Bs4} {urllib : Urllib} {const : Const}.

Lemma run_is_expired (E : Env) (c : config) :
  run E is_expired c =
    match _token_data (obj c) with
    | None => (Returned true, c)
    | Some td =>
        (Returned (Qle_bool (token_data.expiration td) (clock E (trace c))),
         Config (obj c) (trace c ++ [EvNow (clock E (trace c))]))
    end.
Proof. unfold is_expired. simpl. destruct (_token_data (obj c)); reflexivity. Qed.

(** What [generate_refresh_token] makes of the reply to its request. *)
Definition refresh_token_of (r : reply) : result value :=
  response ← result_of_reply r;
  raise_for_status response;;
  resp_json ← json response;
  try_except_raise (subscript resp_json "refresh_token") is_KeyError InvalidResponse.

Lemma run_generate_refresh_token (E : Env) (code : string)
    (challenge : auth_challenge.t) (c : config) :
  let rq := refresh_token_request code challenge in
  let r := transport E (trace c) rq in
  run E (generate_refresh_token code challenge) c =
    (outcome_of (refresh_token_of r), Config (obj c) (trace c ++ [EvHttp rq r])).
Proof.
  intros rq r. unfold generate_refresh_token.
  rewrite run_bind, run_await_reply. fold rq. fold r.
  unfold refresh_token_of. destruct r as [response|e]; simpl; [|reflexivity].
  rewrite run_bind, run_lift.
  destruct (raise_for_status response) as [[]|e]; simpl; [|reflexivity].
  rewrite run_bind, run_lift.
  destruct (json response) as [resp_json|e]; simpl; [|reflexivity].
  rewrite run_lift. reflexivity.
Qed.

(** What [webapp_login] reads off the reply to its GET. *)
Definition login_data_of (r : reply) : result auth_sess_data.t :=
  response ← result_of_reply r;
  raise_for_status response;;
  extract_login_data (text response).

Lemma run_webapp_login (E : Env) (challenge : auth_challenge.t) (c : config) :
  let rq := openid_request challenge in
  let r := transport E (trace c) rq in
  let c1 := Config (obj c) (trace c ++ [EvHttp rq r]) in
  run E (webapp_login challenge) c =
    match login_data_of r with
    | Ok login_data =>
        run E (generate_code (auth_sess_data.session_code login_data)
                             (auth_sess_data.execution login_data)
                             (auth_sess_data.tab_id login_data)) c1
    | Raise e => (Raised e, c1)
    end.
Proof.
  intros rq r c1. unfold webapp_login.
  rewrite run_bind, run_await_reply. fold rq. fold r. fold c1.
  unfold login_data_of.
  destruct r as [response|e]; cbn [result_of_reply outcome_of continue mbind result_bind];
    [|reflexivity].
  rewrite run_bind, run_lift.
  destruct (raise_for_status response) as [[]|e]; cbn [outcome_of continue mbind result_bind];
    [|reflexivity].
  rewrite run_bind, run_lift.
  destruct (extract_login_data (text response)) as [login_data|e];
    cbn [outcome_of continue]; reflexivity.
Qed.

Lemma io_only_generate_token (rt : value) : io_only (generate_token rt).
Proof.
  unfold generate_token.
  repeat (apply io_only_bind; [first [apply io_only_await_reply | apply io_only_lift]|intros ?]).
  constructor. intros t. constructor.
Qed.

Lemma io_only_generate_code (session_code execution tab_id : string) :
  io_only (generate_code session_code execution tab_id).
Proof.
  unfold generate_code. constructor. intros self.
  apply io_only_bind; [apply io_only_await_reply|intros ?]. apply io_only_lift.
Qed.

Lemma io_only_perform_initial_login : io_only perform_initial_login.
Proof.
  unfold perform_initial_login.
  apply io_only_bind.
  { unfold generate_challenge_data. constructor. intros bs. constructor. }
  intros challenge. apply io_only_bind.
  { unfold webapp_login.
    repeat (apply io_only_bind;
            [first [apply io_only_await_reply | apply io_only_lift]|intros ?]).
    apply io_only_generate_code. }
  intros code. unfold generate_refresh_token.
  repeat (apply io_only_bind; [first [apply io_only_await_reply | apply io_only_lift]|intros ?]).
  apply io_only_lift.
Qed.

(** A login that returns has sent the three requests of the chain, in
    order, and nothing else. *)
Definition login_chain (username password : string) (rqs : list Request) : Prop :=
  ∃ challenge session_code execution tab_id code,
    rqs = [openid_request challenge;
           code_request username password session_code execution tab_id;
           refresh_token_request code challenge].


End Authenticator.

Section Token_cache.

Context {bs4 : Bs4} {urllib : Urllib} {const : Const}.

(** [self._refresh_token = await self.perform_initial_login(client)]. *)
Definition store_refresh_token (r : outcome value * config) : outcome unit * config :=
  match r with
  | (Returned rt, c1) => (Returned tt, Config (set_refresh_token rt (obj c1)) (trace c1))
  | (Raised e, c1) => (Raised e, c1)
  | (Blocked, c1) => (Blocked, c1)
  end.

(** [self._token_data = await generate_token(client, self._refresh_token)]. *)
Definition store_token_data (r : outcome token_data.t * config) : outcome unit * config :=
  match r with
  | (Returned td, c1) => (Returned tt, Config (set_token_data td (obj c1)) (trace c1))
  | (Raised e, c1) => (Raised e, c1)
  | (Blocked, c1) => (Blocked, c1)
  end.

Definition regenerate (E : Env) (c : config) : outcome unit * config :=
  store_token_data (run E (generate_token (_refresh_token (obj c))) c).

Definition read_clock (E : Env) (c : config) : config :=
  Config (obj c) (trace c ++ [EvNow (clock E (trace c))]).

Lemma run_ensure_refresh_token (E : Env) (c : config) :
  run E ensure_refresh_token c =
    if truthy (_refresh_token (obj c)) then (Returned tt, c)
    else store_refresh_token (run E perform_initial_login c).
Proof.
  unfold ensure_refresh_token. cbn [run].
  destruct (truthy (_refresh_token (obj c))); cbn [negb]; [reflexivity|].
  rewrite run_bind.
  destruct (run E perform_initial_login c) as [[rt|e|] c1]; reflexivity.
Qed.

Lemma run_ensure_token (E : Env) (c : config) :
  run E ensure_token c =
    match _token_data (obj c) with
    | None => regenerate E c
    | Some td =>
        if Qle_bool (token_data.expiration td) (clock E (trace c))
        then regenerate E (read_clock E c)
        else (Returned tt, read_clock E c)
    end.
Proof.
  assert (Hregen : ∀ c0, run E (Load (fun self =>
                           td ← generate_token (_refresh_token self);
                           Store (set_token_data td) (Ret tt))) c0 = regenerate E c0).
  { intros c0. cbn [run]. rewrite run_bind. unfold regenerate.
    destruct (run E (generate_token (_refresh_token (obj c0))) c0) as [[td|e|] c1];
      reflexivity. }
  unfold ensure_token. rewrite run_bind, run_is_expired.
  destruct (_token_data (obj c)) as [td|]; cbn [continue].
  - destruct (Qle_bool (token_data.expiration td) (clock E (trace c))).
    + apply Hregen.
    + reflexivity.
  - apply Hregen.
Qed.

(** The last statement of [token]: [return self._token_data.token]. *)
Definition bearer_of (c : config) : outcome value :=
  match _token_data (obj c) with
  | Some td => Returned (token_data.token td)
  | None => Raised AttributeError
  end.

Lemma run_token (E : Env) (c : config) :
  _async_lock (obj c) = false →
  run E token c =
    match continue E (fun _ => ensure_token) (run E ensure_refresh_token (acquired c)) with
    | (Returned _, c') => (bearer_of (released c'), released c')
    | (Raised e, c') => (Raised e, released c')
    | (Blocked, c') => (Blocked, c')
    end.
Proof.
  intros Hfree. unfold token.
  rewrite run_bind, run_async_with_lock by exact Hfree.
  rewrite run_bind.
  destruct (continue E _ (run E ensure_refresh_token (acquired c))) as [[[]|e|] c'];
    cbn [continue]; try reflexivity.
  cbn [run]. unfold bearer_of.
  destruct (_token_data (obj (released c'))); reflexivity.
Qed.

Lemma regenerate_outcome (E : Env) (c : config) :
  let rq := token_request (_refresh_token (obj c)) in
  let r := transport E (trace c) rq in
  let t := clock E (trace c ++ [EvHttp rq r]) in
  regenerate E c =
    match id_token_of r with
    | Ok tok =>
        (Returned tt,
         Config (set_token_data (token_data.TokenData tok (t + TOKEN_TIMEOUT)) (obj c))
                (trace c ++ [EvHttp rq r; EvNow t]))
    | Raise e => (Raised e, Config (obj c) (trace c ++ [EvHttp rq r]))
    end.
Proof.
  intros rq r t. unfold regenerate. rewrite run_generate_token. cbv zeta.
  fold rq. fold r. cbn [trace obj]. fold t.
  destruct (id_token_of r) as [tok|e]; cbn [store_token_data obj trace]; [|reflexivity].
  rewrite <- app_assoc. reflexivity.
Qed.

Lemma unlock_acquired (o : HubSpaceAuth) :
  _async_lock o = false → set_lock false (set_lock true o) = o.
Proof. destruct o. simpl. intros ->. reflexivity. Qed.

Lemma requests_app (h1 h2 : list event) :
  requests (h1 ++ h2) = requests h1 ++ requests h2.
Proof. apply omap_app. Qed.

(** The login step never blocks, keeps the cached token and the lock, and
    adds no lock event. *)
Lemma ensure_refresh_token_frame (E : Env) (c : config) :
  ∃ evs, trace (snd (run E ensure_refresh_token c)) = trace c ++ evs
         ∧ forallb (fun ev => negb (is_lock_event ev)) evs = true
         ∧ fst (run E ensure_refresh_token c) ≠ Blocked
         ∧ _token_data (obj (snd (run E ensure_refresh_token c))) = _token_data (obj c)
         ∧ _async_lock (obj (snd (run E ensure_refresh_token c))) = _async_lock (obj c)
         ∧ (truthy (_refresh_token (obj c)) = true →
            snd (run E ensure_refresh_token c) = c)
         ∧ (∀ e, fst (run E ensure_refresh_token c) = Raised e →
            obj (snd (run E ensure_refresh_token c)) = obj c
            ∧ truthy (_refresh_token (obj c)) = false
            ∧ fst (run E perform_initial_login c) = Raised e)
         ∧ (fst (run E ensure_refresh_token c) = Returned tt →
            truthy (_refresh_token (obj c)) = false →
            fst (run E perform_initial_login c)
            = Returned (_refresh_token (obj (snd (run E ensure_refresh_token c))))).
Proof.
  rewrite run_ensure_refresh_token.
  destruct (truthy (_refresh_token (obj c))) eqn:Htruthy.
  - exists []. rewrite app_nil_r. cbn [fst snd]. repeat split; auto; discriminate.
  - destruct (run_io_only E perform_initial_login c io_only_perform_initial_login)
      as (evs & Hsnd & Hfst & Hevs).
    exists evs.
    destruct (run E perform_initial_login c) as [[rt|e|] c1];
      cbn [fst snd store_refresh_token] in *; subst c1; cbn [obj trace];
      repeat split; auto; try discriminate; try congruence.
Qed.

End Token_cache.

Section Token_requests.

Context {bs4 : Bs4} {urllib : Urllib} {const : Const}.

(** The end of [token] after the guarded steps. *)
Definition finish (r : outcome unit * config) : outcome value * config :=
  match r with
  | (Returned _, c') => (bearer_of (released c'), released c')
  | (Raised e, c') => (Raised e, released c')
  | (Blocked, c') => (Blocked, c')
  end.

Lemma run_token_finish (E : Env) (c : config) :
  _async_lock (obj c) = false →
  run E token c
  = finish (continue E (fun _ => ensure_token) (run E ensure_refresh_token (acquired c))).
Proof.
  intros Hfree. rewrite run_token by exact Hfree. unfold finish.
  destruct (continue E _ _) as [[[]|e|] c']; reflexivity.
Qed.

(** A call that finds a refresh token in the cache. *)
Lemma run_token_with_refresh_token (E : Env) (c : config) :
  _async_lock (obj c) = false →
  truthy (_refresh_token (obj c)) = true →
  run E token c =
    match _token_data (obj c) with
    | Some td =>
        if Qle_bool (token_data.expiration td) (clock E (trace c ++ [EvAcquire]))
        then finish (regenerate E (read_clock E (acquired c)))
        else (Returned (token_data.token td),
              Config (obj c)
                     (trace c ++ [EvAcquire; EvNow (clock E (trace c ++ [EvAcquire]));
                                  EvRelease]))
    | None => finish (regenerate E (acquired c))
    end.
Proof.
  intros Hfree Htruthy.
  rewrite run_token_finish by exact Hfree.
  rewrite run_ensure_refresh_token. cbn [acquired obj set_lock _refresh_token].
  rewrite Htruthy. cbn [continue].
  rewrite run_ensure_token.
  change (_token_data (obj (acquired c))) with (_token_data (obj c)).
  change (trace (acquired c)) with (trace c ++ [EvAcquire]).
  destruct (_token_data (obj c)) as [td|] eqn:Htd; [|reflexivity].
  destruct (Qle_bool _ _); [reflexivity|].
  unfold finish, bearer_of, released, read_clock.
  cbn [obj trace set_lock _token_data acquired]. rewrite Htd.
  f_equal. f_equal.
  - apply unlock_acquired, Hfree.
  - rewrite <- !app_assoc. reflexivity.
Qed.

Lemma requests_finish_regenerate (E : Env) (c : config) :
  requests (trace (snd (finish (regenerate E c))))
  = requests (trace c) ++ [token_request (_refresh_token (obj c))].
Proof.
  rewrite regenerate_outcome. cbv zeta.
  destruct (id_token_of _) as [tok|e]; cbn [finish snd released trace];
    rewrite <- ?app_assoc, requests_app; reflexivity.
Qed.


Lemma expired (expiration now : Q) :
  (expiration <= now)%Q → Qle_bool expiration now = true.
Proof. apply Qle_bool_iff. Qed.



End Token_requests.

Section Token_invariants.

Context {bs4 : Bs4} {urllib : Urllib} {const : Const}.

Definition no_lock_event (evs : list event) : Prop :=
  forallb (fun ev => negb (is_lock_event ev)) evs = true.

Lemma no_lock_event_app (l1 l2 : list event) :
  no_lock_event l1 → no_lock_event l2 → no_lock_event (l1 ++ l2).
Proof.
  unfold no_lock_event. rewrite forallb_app. intros -> ->. reflexivity.
Qed.

(** The token step, when it returns: the cache holds a token that the last
    clock reading finds unexpired; it is the token that was there, or one
    just generated from the reply to a refresh-token request. *)
Lemma ensure_token_returned (E : Env) (c c' : config) :
  run E ensure_token c = (Returned tt, c') →
  ∃ td t pre,
    _token_data (obj c') = Some td
    ∧ trace c' = trace c ++ pre ++ [EvNow t]
    ∧ no_lock_event pre
    ∧ (t < token_data.expiration td)%Q
    ∧ _async_lock (obj c') = _async_lock (obj c)
    ∧ _refresh_token (obj c') = _refresh_token (obj c)
    ∧ ((_token_data (obj c) = Some td ∧ pre = [])
       ∨ (∃ r pre0,
            pre = pre0 ++ [EvHttp (token_request (_refresh_token (obj c))) r]
            ∧ token_data.expiration td = (t + (118 # 1))%Q
            ∧ match _token_data (obj c) with
              | None => pre0 = []
              | Some td0 =>
                  ∃ t0, pre0 = [EvNow t0] ∧ (token_data.expiration td0 <= t0)%Q
              end)).
Proof.
  rewrite run_ensure_token.
  destruct (_token_data (obj c)) as [td0|] eqn:Htd0.
  - destruct (Qle_bool _ _) eqn:Hcheck.
    + rewrite regenerate_outcome. cbv zeta. cbn [read_clock obj trace].
      destruct (id_token_of _) as [tok|e]; [|discriminate].
      intros [= <-]. cbn [obj trace set_token_data _token_data _async_lock _refresh_token].
      eexists _, _, [EvNow _; EvHttp _ _].
      split; [reflexivity|]. split; [rewrite <- app_assoc; reflexivity|].
      split; [reflexivity|]. split; [unfold TOKEN_TIMEOUT; cbn [token_data.expiration]; lra|].
      split; [reflexivity|]. split; [reflexivity|].
      right. eexists _, [EvNow _]. split; [reflexivity|]. split; [reflexivity|].
      eexists. split; [reflexivity|]. apply Qle_bool_iff, Hcheck.
    + intros [= <-]. cbn [read_clock obj trace].
      exists td0, (clock E (trace c)), [].
      split; [exact Htd0|]. split; [reflexivity|]. split; [reflexivity|].
      split.
      { apply Qnot_le_lt. intros Hle. apply Qle_bool_iff in Hle. congruence. }
      split; [reflexivity|]. split; [reflexivity|]. left. split; reflexivity.
  - rewrite regenerate_outcome. cbv zeta.
    destruct (id_token_of _) as [tok|e]; [|discriminate].
    intros [= <-]. cbn [obj trace set_token_data _token_data _async_lock _refresh_token].
    eexists _, _, [EvHttp _ _].
    split; [reflexivity|]. split; [reflexivity|].
    split; [reflexivity|]. split; [unfold TOKEN_TIMEOUT; cbn [token_data.expiration]; lra|].
    split; [reflexivity|]. split; [reflexivity|].
    right. eexists _, []. split; [reflexivity|]. split; reflexivity.
Qed.

(** The token step, when it raises or blocks: it never blocks, and raising
    leaves the object as it was. *)
Lemma ensure_token_not_returned (E : Env) (c : config) :
  fst (run E ensure_token c) ≠ Blocked
  ∧ ∀ e, fst (run E ensure_token c) = Raised e →
         obj (snd (run E ensure_token c)) = obj c.
Proof.
  rewrite run_ensure_token.
  destruct (_token_data (obj c)) as [td0|].
  - destruct (Qle_bool _ _).
    + rewrite regenerate_outcome. cbv zeta.
      destruct (id_token_of _); cbn [fst snd obj read_clock]; split;
        try discriminate; reflexivity.
    + cbn [fst snd]. split; discriminate.
  - rewrite regenerate_outcome. cbv zeta.
    destruct (id_token_of _); cbn [fst snd obj]; split; try discriminate; reflexivity.
Qed.

(** C8. When [token] returns, everything it did lies between one
    acquisition and one release of the lock, the bearer it returns is that
    of the token now in the cache, and the last reading of the clock, made
    under the lock, is before that token's expiration: the token is the
    one that was cached and passed the check, or one generated under the
    lock from a refresh-token exchange, which is what happens when the
    cached token was found expired. *)
Theorem token_returns_unexpired (E : Env) (c c' : config) (b : value) :
  _async_lock (obj c) = false →
  run E token c = (Returned b, c') →
  ∃ td mid t,
    _token_data (obj c') = Some td
    ∧ b = token_data.token td
    ∧ trace c' = trace c ++ [EvAcquire] ++ mid ++ [EvNow t; EvRelease]
    ∧ no_lock_event mid
    ∧ _async_lock (obj c') = false
    ∧ (t < token_data.expiration td)%Q
    ∧ (_token_data (obj c) = Some td
       ∨ (∃ pre rt r,
            mid = pre ++ [EvHttp (token_request rt) r]
            ∧ token_data.expiration td = (t + (118 # 1))%Q
            ∧ match _token_data (obj c) with
              | None => True
              | Some td0 =>
                  ∃ pre' t0, pre = pre' ++ [EvNow t0]
                             ∧ (token_data.expiration td0 <= t0)%Q
              end)).
Proof.
  intros Hfree. rewrite run_token_finish by exact Hfree.
  destruct (ensure_refresh_token_frame E (acquired c))
    as (evs & Htrace & Hevs & Hnb & Htd & Hlock & _).
  destruct (run E ensure_refresh_token (acquired c)) as [[[]|e|] c1];
    cbn [fst snd continue finish] in *; try discriminate; try congruence.
  destruct (run E ensure_token c1) as [[[]|e|] c2] eqn:Hstep;
    cbn [finish]; try discriminate.
  apply ensure_token_returned in Hstep.
  destruct Hstep as (td & t & pre & Htd2 & Htrace2 & Hpre & Ht & Hlock2 & _ & Hcase).
  unfold bearer_of, released. cbn [obj trace set_lock _token_data]. rewrite Htd2.
  intros [= <- <-]. cbn [obj trace set_lock _token_data _async_lock].
  exists td, (evs ++ pre), t.
  split; [exact Htd2|]. split; [reflexivity|].
  split.
  { rewrite Htrace2, Htrace. cbn [acquired trace]. rewrite <- !app_assoc. reflexivity. }
  split; [apply no_lock_event_app; assumption|].
  split; [reflexivity|]. split; [exact Ht|].
  rewrite Htd in Hcase. cbn [acquired obj set_lock _token_data] in Hcase.
  destruct Hcase as [[Hsame _]|(r & pre0 & -> & Hexp & Hwhy)]; [left; exact Hsame|].
  right. exists (evs ++ pre0), (_refresh_token (obj c1)), r.
  split; [rewrite app_assoc; reflexivity|]. split; [exact Hexp|].
  destruct (_token_data (obj c)) as [td0|]; [|exact I].
  destruct Hwhy as (t0 & -> & Hle). exists evs, t0. split; [reflexivity|exact Hle].
Qed.

(** C4. When [token] raises, the cached token is the one that was there
    before the call and the lock is free again.  Either the initial login
    is what failed, and the refresh token is untouched too; or the login
    step went through, the refresh-token exchange is what failed, and the
    caches are as that exchange found them: the refresh token is the one
    that was cached, or the one the successful login just returned. *)
Theorem token_failure_keeps_caches (E : Env) (c c' : config) (e : exn) :
  _async_lock (obj c) = false →
  run E token c = (Raised e, c') →
  _token_data (obj c') = _token_data (obj c)
  ∧ _async_lock (obj c') = false
  ∧ ((truthy (_refresh_token (obj c)) = false
      ∧ fst (run E perform_initial_login (acquired c)) = Raised e
      ∧ _refresh_token (obj c') = _refresh_token (obj c))
     ∨ (∃ c1,
          run E ensure_refresh_token (acquired c) = (Returned tt, c1)
          ∧ fst (run E ensure_token c1) = Raised e
          ∧ _refresh_token (obj c') = _refresh_token (obj c1)
          ∧ _token_data (obj c') = _token_data (obj c1)
          ∧ (truthy (_refresh_token (obj c)) = true →
             _refresh_token (obj c1) = _refresh_token (obj c))
          ∧ (truthy (_refresh_token (obj c)) = false →
             fst (run E perform_initial_login (acquired c))
             = Returned (_refresh_token (obj c1))))).
Proof.
  intros Hfree. rewrite run_token_finish by exact Hfree.
  destruct (ensure_refresh_token_frame E (acquired c))
    as (evs & Htrace & Hevs & Hnb & Htd & Hlock & Hkeep & Hraised & Hreturned).
  change (truthy (_refresh_token (obj (acquired c))))
    with (truthy (_refresh_token (obj c))) in *.
  change (_token_data (obj (acquired c))) with (_token_data (obj c)) in *.
  destruct (run E ensure_refresh_token (acquired c)) as [[[]|e1|] c1] eqn:Hlogin;
    cbn [fst snd continue finish] in *; try congruence.
  - destruct (ensure_token_not_returned E c1) as [Hnb2 Hraised2].
    destruct (run E ensure_token c1) as [[[]|e2|] c2] eqn:Hstep;
      cbn [fst snd finish] in *; try congruence.
    + apply ensure_token_returned in Hstep.
      destruct Hstep as (td & t & pre & Htd2 & _).
      unfold bearer_of, released. cbn [obj set_lock _token_data]. rewrite Htd2.
      discriminate.
    + intros [= <- <-]. specialize (Hraised2 e2 eq_refl).
      unfold released. cbn [obj set_lock _token_data _async_lock _refresh_token].
      rewrite Hraised2.
      split; [exact Htd|]. split; [reflexivity|].
      right. exists c1.
      split; [reflexivity|]. split; [rewrite Hstep; reflexivity|].
      split; [reflexivity|]. split; [reflexivity|].
      split; [|exact (Hreturned eq_refl)].
      intros Htruthy. rewrite (Hkeep Htruthy). reflexivity.
  - intros [= <- <-]. destruct (Hraised e1 eq_refl) as (Hobj & Hfalsy & Hfail).
    unfold released. cbn [obj set_lock _token_data _async_lock _refresh_token].
    rewrite Hobj. cbn [acquired obj set_lock _token_data _refresh_token].
    split; [reflexivity|]. split; [reflexivity|].
    left. repeat split; assumption.
Qed.

End Token_invariants.

(** ** Sequences of calls *)

Section Call_sequences.

Context {bs4 : Bs4} {urllib : Urllib} {const : Const}.

Lemma call_with_refresh_token (E : Env) (c : config) :
  _async_lock (obj c) = false →
  truthy (_refresh_token (obj c)) = true →
  let c' := snd (run E token c) in
  _refresh_token (obj c') = _refresh_token (obj c)
  ∧ _async_lock (obj c') = false
  ∧ (requests (trace c') = requests (trace c)
     ∨ requests (trace c')
       = requests (trace c) ++ [token_request (_refresh_token (obj c))]).
Proof.
  intros Hfree Htruthy c'. subst c'.
  assert (Hregen : ∀ c0,
            _refresh_token (obj (snd (finish (regenerate E c0)))) = _refresh_token (obj c0)
            ∧ _async_lock (obj (snd (finish (regenerate E c0)))) = false).
  { intros c0. rewrite regenerate_outcome. cbv zeta.
    destruct (id_token_of _); split; reflexivity. }
  rewrite run_token_with_refresh_token by assumption.
  destruct (_token_data (obj c)) as [td|].
  - destruct (Qle_bool _ _).
    + destruct (Hregen (read_clock E (acquired c))) as [Hrt Hlock].
      split; [exact Hrt|]. split; [exact Hlock|]. right.
      rewrite requests_finish_regenerate.
      cbn [read_clock acquired trace obj set_lock _refresh_token].
      rewrite !requests_app, !app_nil_r. reflexivity.
    + cbn [snd obj trace]. split; [reflexivity|]. split; [exact Hfree|]. left.
      rewrite requests_app, app_nil_r. reflexivity.
  - destruct (Hregen (acquired c)) as [Hrt Hlock].
    split; [exact Hrt|]. split; [exact Hlock|]. right.
    rewrite requests_finish_regenerate.
    cbn [acquired trace obj set_lock _refresh_token].
    rewrite requests_app, app_nil_r. reflexivity.
Qed.

(** C7, amended. Once the cached refresh token is a value that passes the
    source's test (for a string: not empty), no later call of [token]
    changes it: it is never cleared and never derived again, and every
    request sent from then on is a refresh-token request carrying it. *)
Theorem refresh_token_kept_once_truthy (E : Env) (c : config) (n : nat) :
  _async_lock (obj c) = false →
  truthy (_refresh_token (obj c)) = true →
  _refresh_token (obj (calls E n c)) = _refresh_token (obj c)
  ∧ _async_lock (obj (calls E n c)) = false
  ∧ login_requests (trace (calls E n c)) = login_requests (trace c)
  ∧ ∃ k, (k <= n)%nat
         ∧ requests (trace (calls E n c))
           = requests (trace c) ++ repeat (token_request (_refresh_token (obj c))) k.
Proof.
  revert c. induction n as [|n IH]; intros c Hfree Htruthy.
  - cbn [calls]. repeat split; auto. exists 0%nat. rewrite app_nil_r. auto.
  - cbn [calls].
    destruct (call_with_refresh_token E c Hfree Htruthy) as (Hrt & Hlock & Hreqs).
    destruct (IH (snd (run E token c)) Hlock) as (IHrt & IHlock & IHlogin & k & Hk & IHreqs).
    { rewrite Hrt. exact Htruthy. }
    rewrite Hrt in IHrt, IHreqs.
    split; [exact IHrt|]. split; [exact IHlock|].
    destruct Hreqs as [Hsame|Hone].
    + split.
      { rewrite IHlogin. unfold login_requests. rewrite Hsame. reflexivity. }
      exists k. split; [lia|]. rewrite IHreqs, Hsame. reflexivity.
    + split.
      { rewrite IHlogin. unfold login_requests. rewrite Hone, List.filter_app.
        cbn [List.filter token_request]. apply app_nil_r. }
      exists (S k). split; [lia|].
      rewrite IHreqs, Hone, <- app_assoc. reflexivity.
Qed.

End Call_sequences.

(** C7, counterexample. A refresh token that is not [None] can still fail
    the source's test: the empty string does.  Against
    [Fixture.blank_provider] the first call on a fresh authenticator caches
    the empty string; the second call then runs a second login chain, which
    puts [None] back into the cache. *)
Lemma refresh_token_empty_is_rederived :
  let auth := calls (bs4 := Fixture.bs4) (urllib := Urllib_reference.instance)
                    (const := Fixture.const) Fixture.blank_env in
  let c1 := auth 1%nat (fresh "user" "secret") in
  let c2 := auth 1%nat c1 in
  _async_lock (obj c1) = false
  ∧ _refresh_token (obj c1) = VStr ""
  ∧ _refresh_token (obj c1) ≠ VNone
  ∧ _refresh_token (obj c2) = VNone
  ∧ length (login_requests (trace c1)) = 1%nat
  ∧ length (login_requests (trace c2)) = 2%nat.
Proof.
  cbv zeta. repeat split; try (vm_compute; reflexivity). discriminate.
Qed.

Lemma refresh_token_kept_once_truthy_witness :
  let auth := calls (bs4 := Fixture.bs4) (urllib := Urllib_reference.instance)
                    (const := Fixture.const) Fixture.slow_env in
  let c1 := auth 1%nat (fresh "user" "secret") in
  _refresh_token (obj c1) = VStr "refresh-1"
  ∧ _refresh_token (obj (auth 3%nat c1)) = _refresh_token (obj c1)
  ∧ login_requests (trace (auth 3%nat c1)) = login_requests (trace c1).
Proof.
  cbv zeta. split; [vm_compute; reflexivity|].
  pose proof (refresh_token_kept_once_truthy
                (bs4 := Fixture.bs4) (urllib := Urllib_reference.instance)
                (const := Fixture.const) Fixture.slow_env
                (calls (bs4 := Fixture.bs4) (urllib := Urllib_reference.instance)
                       (const := Fixture.const) Fixture.slow_env 1%nat
                       (fresh "user" "secret"))
                3%nat) as Hkept.
  destruct Hkept as (Hrt & _ & Hlogin & _); [vm_compute; reflexivity..|].
  split; assumption.
Defined.



Lemma token_returns_unexpired_witness :
  let tok := token (bs4 := Fixture.bs4) (urllib := Urllib_reference.instance)
                   (const := Fixture.const) in
  let c1 := snd (run Fixture.env tok (fresh "user" "secret")) in
  ∃ td t,
    _token_data (obj c1) = Some td
    ∧ VStr "bearer-1" = token_data.token td
    ∧ last (trace c1) = Some EvRelease
    ∧ (t < token_data.expiration td)%Q.
Proof.
  cbv zeta.
  set (tok := token (bs4 := Fixture.bs4) (urllib := Urllib_reference.instance)
                    (const := Fixture.const)).
  destruct (token_returns_unexpired
              (bs4 := Fixture.bs4) (urllib := Urllib_reference.instance)
              (const := Fixture.const) Fixture.env (fresh "user" "secret")
              (snd (run Fixture.env tok (fresh "user" "secret"))) (VStr "bearer-1")
              eq_refl)
    as (td & mid & t & Htd & Hb & Htrace & _ & _ & Ht & _).
  { vm_compute. reflexivity. }
  exists td, t. split; [exact Htd|]. split; [exact Hb|]. split; [|exact Ht].
  rewrite Htrace.
  replace (trace (fresh "user" "secret") ++ [EvAcquire] ++ mid ++ [EvNow t; EvRelease])
    with ((EvAcquire :: mid ++ [EvNow t]) ++ [EvRelease])
    by (cbn [trace fresh app]; rewrite <- app_assoc; reflexivity).
  apply last_snoc.
Defined.

Lemma token_failure_keeps_caches_witness :
  let tok := token (bs4 := Fixture.bs4) (urllib := Urllib_reference.instance)
                   (const := Fixture.const) in
  let refused := snd (run Fixture.blank_env tok (fresh "user" "secret")) in
  let down := Fixture.always (Response (Fixture.response 503 ∅ "" Fixture.no_json)) in
  (_token_data (obj refused) = None ∧ _async_lock (obj refused) = false)
  ∧ (_token_data (obj (snd (run down tok (fresh "user" "secret")))) = None
     ∧ _async_lock (obj (snd (run down tok (fresh "user" "secret")))) = false).
Proof.
  cbv zeta.
  set (tok := token (bs4 := Fixture.bs4) (urllib := Urllib_reference.instance)
                    (const := Fixture.const)).
  split.
  - destruct (token_failure_keeps_caches
                (bs4 := Fixture.bs4) (urllib := Urllib_reference.instance)
                (const := Fixture.const) Fixture.blank_env (fresh "user" "secret")
                (snd (run Fixture.blank_env tok (fresh "user" "secret")))
                (ClientResponseError 400) eq_refl)
      as (Htd & Hlock & _).
    { vm_compute. reflexivity. }
    split; [exact Htd|exact Hlock].
  - destruct (token_failure_keeps_caches
                (bs4 := Fixture.bs4) (urllib := Urllib_reference.instance)
                (const := Fixture.const)
                (Fixture.always (Response (Fixture.response 503 ∅ "" Fixture.no_json)))
                (fresh "user" "secret")
                (snd (run (Fixture.always (Response (Fixture.response 503 ∅ "" Fixture.no_json)))
                          tok (fresh "user" "secret")))
                (ClientResponseError 503) eq_refl)
      as (Htd & Hlock & _).
    { vm_compute. reflexivity. }
    split; [exact Htd|exact Hlock].
Defined.

(** ** Several callers at once *)

Section Concurrent_callers.

Context {bs4 : Bs4} {urllib : Urllib} {const : Const}.

Definition keeps_lock (f : HubSpaceAuth → HubSpaceAuth) : Prop :=
  ∀ o, _async_lock (f o) = _async_lock o.

(** Code that does not touch the lock. *)
Inductive lock_free {A : Type} : coro A → Prop :=
| lock_free_Ret a : lock_free (Ret a)
| lock_free_Throw e : lock_free (Throw e)
| lock_free_Http rq k : (∀ r, lock_free (k r)) → lock_free (Http rq k)
| lock_free_Now k : (∀ t, lock_free (k t)) → lock_free (Now k)
| lock_free_Urandom n k : (∀ bs, lock_free (k bs)) → lock_free (Urandom n k)
| lock_free_Load k : (∀ o, lock_free (k o)) → lock_free (Load k)
| lock_free_Store f k : keeps_lock f → lock_free k → lock_free (Store f k).

(** Code that only reads the object and finishes: what is left of [token]
    after the lock is released. *)
Inductive quiet : coro value → Prop :=
| quiet_Ret a : quiet (Ret a)
| quiet_Throw e : quiet (Throw e)
| quiet_Load k : (∀ o, quiet (k o)) → quiet (Load k).

(** Code that runs with the lock held, releases it exactly once and is
    quiet from then on. *)
Inductive critical : coro value → Prop :=
| critical_Release k : quiet k → critical (Release k)
| critical_Http rq k : (∀ r, critical (k r)) → critical (Http rq k)
| critical_Now k : (∀ t, critical (k t)) → critical (Now k)
| critical_Urandom n k : (∀ bs, critical (k bs)) → critical (Urandom n k)
| critical_Load k : (∀ o, critical (k o)) → critical (Load k)
| critical_Store f k : keeps_lock f → critical k → critical (Store f k).

Lemma lock_free_of_io_only {A : Type} (p : coro A) : io_only p → lock_free p.
Proof. induction 1; constructor; auto. Qed.

Lemma lock_free_bind {A B : Type} (p : coro A) (f : A → coro B) :
  lock_free p → (∀ a, lock_free (f a)) → lock_free (p ≫= f).
Proof.
  intros Hp Hf. unfold mbind, coro_mbind.
  induction Hp; simpl; auto; constructor; auto.
Qed.

Lemma critical_releasing {A : Type} (body : coro A) (tail : A → coro value) :
  lock_free body → (∀ a, quiet (tail a)) → critical (coro_bind tail (releasing body)).
Proof.
  intros Hbody Htail.
  induction Hbody; simpl; constructor; auto. constructor.
Qed.

(** The two parts of [token]: what runs under the lock, and the return. *)
Definition token_body : coro unit := ensure_refresh_token;; ensure_token.

Definition token_tail (_ : unit) : coro value :=
  Load (fun self =>
    match _token_data self with
    | Some td => Ret (token_data.token td)
    | None => Throw AttributeError
    end).

Definition locked_token : coro value := coro_bind token_tail (releasing token_body).

Lemma token_unfold : token = Acquire locked_token.
Proof. reflexivity. Qed.

Lemma keeps_lock_set_refresh_token (v : value) : keeps_lock (set_refresh_token v).
Proof. intros o. reflexivity. Qed.

Lemma keeps_lock_set_token_data (td : token_data.t) : keeps_lock (set_token_data td).
Proof. intros o. reflexivity. Qed.

Lemma lock_free_token_body : lock_free token_body.
Proof.
  unfold token_body. apply lock_free_bind.
  - unfold ensure_refresh_token. constructor. intros self.
    destruct (negb (truthy (_refresh_token self))); [|constructor].
    apply lock_free_bind.
    + apply lock_free_of_io_only, io_only_perform_initial_login.
    + intros rt. constructor; [apply keeps_lock_set_refresh_token|constructor].
  - intros _. unfold ensure_token. apply lock_free_bind.
    + unfold is_expired. constructor. intros self.
      destruct (_token_data self); constructor. intros now. constructor.
    + intros [|]; [|constructor]. constructor. intros self.
      apply lock_free_bind.
      * apply lock_free_of_io_only, io_only_generate_token.
      * intros td. constructor; [apply keeps_lock_set_token_data|constructor].
Qed.

Lemma quiet_token_tail (u : unit) : quiet (token_tail u).
Proof.
  unfold token_tail. constructor. intros self.
  destruct (_token_data self); constructor.
Qed.

Lemma critical_locked_token : critical locked_token.
Proof. apply critical_releasing; [apply lock_free_token_body|apply quiet_token_tail]. Qed.

(** Where a task stands with respect to the lock. *)
Definition outside (t : task) : Prop :=
  t = Running token ∨ (∃ p, t = Running p ∧ quiet p) ∨ (∃ r, t = Done r).

Definition holding (t : task) : Prop :=
  (∃ p, t = Running p ∧ critical p)
  ∨ (∃ rq k, t = Awaiting rq k ∧ ∀ r, critical (k r)).

(** The lock is held by the one task that is in its critical section, and
    free when there is none. *)
Definition exclusive (s : pool) : Prop :=
  ∃ holder : option nat,
    _async_lock (shared s) = bool_decide (is_Some holder)
    ∧ ∀ j t, tasks s !! j = Some t →
             if decide (holder = Some j) then holding t else outside t.

Lemma step_outside (o o' : HubSpaceAuth) (t t' : task) (a : action) :
  outside t → task_step o t a o' t' →
  (_async_lock o = false ∧ o' = set_lock true o ∧ holding t')
  ∨ (o' = o ∧ outside t').
Proof.
  intros [->|[(p & -> & Hq)|(r & ->)]] Hstep.
  - rewrite token_unfold in Hstep. inversion Hstep; subst.
    left. repeat split; auto. left. eexists. split; [reflexivity|].
    apply critical_locked_token.
  - right. destruct Hq; inversion Hstep; subst; split; auto.
    + right. right. eauto.
    + right. right. eauto.
    + right. left. eauto.
  - inversion Hstep.
Qed.

Lemma step_holding (o o' : HubSpaceAuth) (t t' : task) (a : action) :
  holding t → task_step o t a o' t' →
  (o' = set_lock false o ∧ outside t')
  ∨ (_async_lock o' = _async_lock o ∧ holding t').
Proof.
  intros [(p & -> & Hc)|(rq & k & -> & Hk)] Hstep.
  - destruct Hc; inversion Hstep; subst.
    + left. split; [reflexivity|]. right. left. eauto.
    + right. split; [reflexivity|]. right. eauto.
    + right. split; [reflexivity|]. left. eauto.
    + right. split; [reflexivity|]. left. eauto.
    + right. split; [reflexivity|]. left. eauto.
    + right. split; [auto|]. left. eauto.
  - inversion Hstep; subst. right. split; [reflexivity|]. left. eauto.
Qed.

Lemma lookup_insert_task (ts : list task) (i j : nat) (t' x : task) :
  (i < length ts)%nat →
  <[i := t']> ts !! j = Some x →
  (j = i ∧ x = t') ∨ (j ≠ i ∧ ts !! j = Some x).
Proof.
  intros Hi Hx. destruct (decide (j = i)) as [->|Hne].
  - rewrite list_lookup_insert_eq in Hx by exact Hi. left. split; congruence.
  - rewrite list_lookup_insert_ne in Hx by congruence. right. auto.
Qed.

Lemma exclusive_step (s s' : pool) (l : nat * action) :
  exclusive s → pool_step s l s' → exclusive s'.
Proof.
  intros (holder & Hlock & Htasks) Hstep.
  destruct Hstep as [o ts i t a o' t' Hi Hstep]. cbn [shared tasks] in *.
  pose proof (lookup_lt_Some _ _ _ Hi) as Hlt.
  pose proof (Htasks i t Hi) as Ht.
  destruct (decide (holder = Some i)) as [->|Hother].
  - (* the holder steps *)
    destruct (step_holding _ _ _ _ _ Ht Hstep) as [[-> Hout]|[Hsame Hhold]].
    + exists None. split; [reflexivity|]. intros j x Hx.
      destruct (lookup_insert_task _ _ _ _ _ Hlt Hx) as [[-> ->]|[Hne Hold]];
        [exact Hout|].
      specialize (Htasks j x Hold).
      destruct (decide (Some i = Some j)) as [[= ->]|_]; [congruence|exact Htasks].
    + exists (Some i). split; [exact (eq_trans Hsame Hlock)|]. intros j x Hx.
      destruct (lookup_insert_task _ _ _ _ _ Hlt Hx) as [[-> ->]|[Hne Hold]].
      * rewrite decide_True by reflexivity. exact Hhold.
      * exact (Htasks j x Hold).
  - (* another task steps *)
    destruct (step_outside _ _ _ _ _ Ht Hstep) as [(Hfree & -> & Hhold)|[-> Hout]].
    + destruct holder as [h|]; [rewrite Hfree in Hlock; discriminate|].
      exists (Some i). split; [reflexivity|]. intros j x Hx.
      destruct (lookup_insert_task _ _ _ _ _ Hlt Hx) as [[-> ->]|[Hne Hold]].
      * rewrite decide_True by reflexivity. exact Hhold.
      * rewrite decide_False by congruence. exact (Htasks j x Hold).
    + exists holder. split; [exact Hlock|]. intros j x Hx.
      destruct (lookup_insert_task _ _ _ _ _ Hlt Hx) as [[-> ->]|[Hne Hold]].
      * rewrite decide_False by exact Hother. exact Hout.
      * exact (Htasks j x Hold).
Qed.

Lemma exclusive_initial (username password : string) (n : nat) :
  exclusive (initial username password n).
Proof.
  exists None. split; [reflexivity|]. intros j t Hj. cbn [initial tasks] in Hj.
  apply lookup_replicate in Hj as [-> _]. left. reflexivity.
Qed.

Lemma exclusive_execution (s s' : pool) (ls : list (nat * action)) :
  execution s ls s' → exclusive s → exclusive s'.
Proof.
  induction 1 as [|s l s1 ls s2 Hstep _ IH]; [auto|].
  intros Hs. apply IH. exact (exclusive_step _ _ _ Hs Hstep).
Qed.

(** *** One exchange in flight *)





(** *** Callers that arrive late *)




















(** *** A late caller, run to its end *)






End Concurrent_callers.

(** *** Scheduled runs are executions *)

Lemma task_next_sound (W : World) (position : nat) (o o' : HubSpaceAuth) (t t' : task)
    (a : action) :
  task_next W position o t = Some (a, o', t') → task_step o t a o' t'.
Proof.
  destruct t as [[x|e|rq k|k|n k|k|f k|k|k]|rq k|r]; cbn [task_next];
    try (intros [= <- <- <-]; constructor); try discriminate.
  - rewrite length_map, length_seq. reflexivity.
  - destruct (_async_lock o) eqn:Hlock; [discriminate|].
    intros [= <- <- <-]. constructor. exact Hlock.
Qed.

Lemma run_schedule_sound (W : World) (schedule : list nat) (position : nat) (s : pool) :
  execution s (fst (run_schedule W position schedule s))
              (snd (run_schedule W position schedule s)).
Proof.
  revert position s. induction schedule as [|i rest IH]; intros position s.
  - apply execution_nil.
  - cbn [run_schedule]. destruct (tasks s !! i) as [t|] eqn:Hi; [|apply IH].
    destruct (task_next W position (shared s) t) as [[[a o'] t']|] eqn:Hnext; [|apply IH].
    specialize (IH (S position) (Pool o' (<[i := t']> (tasks s)))).
    destruct (run_schedule W (S position) rest _) as [ls s']. cbn [fst snd] in *.
    eapply execution_cons; [|exact IH].
    destruct s as [o ts]. cbn [shared tasks] in *.
    apply pool_step_task with (t := t); [exact Hi|].
    exact (task_next_sound _ _ _ _ _ _ _ Hnext).
Qed.

(** A run only changes the tasks that the schedule names. *)
Lemma run_schedule_other (W : World) (schedule : list nat) (position : nat) (s : pool)
    (j : nat) :
  j ∉ schedule →
  tasks (snd (run_schedule W position schedule s)) !! j = tasks s !! j.
Proof.
  revert position s. induction schedule as [|i rest IH]; intros position s Hj.
  - reflexivity.
  - apply not_elem_of_cons in Hj as [Hne Hrest]. cbn [run_schedule].
    destruct (tasks s !! i) as [t|] eqn:Hi; [|apply IH, Hrest].
    destruct (task_next W position (shared s) t) as [[[a o'] t']|]; [|apply IH, Hrest].
    specialize (IH (S position) (Pool o' (<[i := t']> (tasks s))) Hrest).
    destruct (run_schedule W (S position) rest _) as [ls s']. cbn [fst snd tasks] in *.
    rewrite IH. apply list_lookup_insert_ne. congruence.
Qed.



(* ================================================================= *)
(** * Further properties of the module *)

(** ** The exchanges, reply by reply *)

Section Exchanges.

Context {bs4 : Bs4} {urllib : Urllib} {const : Const}.

(** The two readers of the token endpoint differ by the name of the field
    they take from the JSON document. *)
Definition field_of_reply (key : string) (r : reply) : result value :=
  response ← result_of_reply r;
  raise_for_status response;;
  resp_json ← json response;
  try_except_raise (subscript resp_json key) is_KeyError InvalidResponse.

Lemma id_token_of_field (r : reply) : id_token_of r = field_of_reply "id_token" r.
Proof. reflexivity. Qed.

Lemma refresh_token_of_field (r : reply) :
  refresh_token_of r = field_of_reply "refresh_token" r.
Proof. reflexivity. Qed.

Lemma raise_for_status_below (response : ClientResponse) :
  (status response < 400)%Z → raise_for_status response = Ok tt.
Proof.
  intros Hlt. unfold raise_for_status.
  destruct (Z.leb_spec 400 (status response)); [lia|reflexivity].
Qed.

Lemma raise_for_status_from (response : ClientResponse) :
  (400 <= status response)%Z →
  raise_for_status response = Raise (ClientResponseError (status response)).
Proof.
  intros Hle. unfold raise_for_status.
  destruct (Z.leb_spec 400 (status response)); [reflexivity|lia].
Qed.

Lemma field_of_reply_cases (key : string) (r : reply) :
  (∀ e, r = Failure e → field_of_reply key r = Raise e)
  ∧ (∀ response, r = Response response →
       ((400 <= status response)%Z →
        field_of_reply key r = Raise (ClientResponseError (status response)))
       ∧ ((status response < 400)%Z →
          (∀ e, json response = Raise e → field_of_reply key r = Raise e)
          ∧ (∀ d v, json response = Ok (VDict d) → d !! key = Some v →
                    field_of_reply key r = Ok v)
          ∧ (∀ d, json response = Ok (VDict d) → d !! key = None →
                  field_of_reply key r = Raise InvalidResponse)
          ∧ (∀ v, json response = Ok v → (∀ d, v ≠ VDict d) →
                  field_of_reply key r = Raise TypeError))).
Proof.
  split; [intros e ->; reflexivity|].
  intros response ->. unfold field_of_reply. cbn [result_of_reply mbind result_bind].
  split.
  - intros Hle. rewrite raise_for_status_from by exact Hle. reflexivity.
  - intros Hlt. rewrite raise_for_status_below by exact Hlt.
    split; [|split; [|split]].
    + intros e ->. reflexivity.
    + intros d v -> Hv. cbn [mbind result_bind subscript]. rewrite Hv. reflexivity.
    + intros d -> Hv. cbn [mbind result_bind subscript]. rewrite Hv. reflexivity.
    + intros v -> Hv. destruct v; try reflexivity. exfalso. exact (Hv d eq_refl).
Qed.

(** A field that was read came from a JSON object of a reply whose status
    is below 400. *)
Lemma field_of_reply_returned (key : string) (r : reply) (v : value) :
  field_of_reply key r = Ok v →
  ∃ response d, r = Response response
                ∧ (status response < 400)%Z
                ∧ json response = Ok (VDict d)
                ∧ d !! key = Some v.
Proof.
  unfold field_of_reply. destruct r as [response|e]; [|discriminate].
  cbn [result_of_reply mbind result_bind]. unfold raise_for_status.
  destruct (Z.leb_spec 400 (status response)) as [|Hlt]; [discriminate|].
  cbn [mbind result_bind].
  destruct (json response) as [resp_json|e] eqn:Hjson; cbn [mbind result_bind];
    [|discriminate].
  destruct resp_json as [| | | | | |d]; cbn [subscript try_except_raise is_KeyError];
    try discriminate.
  destruct (d !! key) as [x|] eqn:Hx; cbn [try_except_raise is_KeyError]; [|discriminate].
  intros [= <-]. exists response, d. auto.
Qed.

(** X1. [generate_refresh_token] sends the authorization-code request and
    nothing else, and leaves the object alone.  A failure of the transport
    is raised as it is; a status of 400 or above raises
    [ClientResponseError]; below 400, a body that is not JSON raises what
    the decoder raises, a JSON object gives its [refresh_token] field or
    [InvalidResponse] when it has none, and any other JSON value raises
    [TypeError], which the handler for a missing key does not catch. *)
Theorem generate_refresh_token_outcome (E : Env) (code : string)
    (challenge : auth_challenge.t) (c : config) :
  let rq := refresh_token_request code challenge in
  let r := transport E (trace c) rq in
  let result := run E (generate_refresh_token code challenge) c in
  snd result = Config (obj c) (trace c ++ [EvHttp rq r])
  ∧ (∀ e, r = Failure e → fst result = Raised e)
  ∧ (∀ response, r = Response response →
       ((400 <= status response)%Z →
        fst result = Raised (ClientResponseError (status response)))
       ∧ ((status response < 400)%Z →
          (∀ e, json response = Raise e → fst result = Raised e)
          ∧ (∀ d v, json response = Ok (VDict d) → d !! "refresh_token" = Some v →
                    fst result = Returned v)
          ∧ (∀ d, json response = Ok (VDict d) → d !! "refresh_token" = None →
                  fst result = Raised InvalidResponse)
          ∧ (∀ v, json response = Ok v → (∀ d, v ≠ VDict d) →
                  fst result = Raised TypeError))).
Proof.
  intros rq r result. subst result.
  rewrite run_generate_refresh_token. cbv zeta. fold rq. fold r. cbn [fst snd].
  rewrite refresh_token_of_field.
  destruct (field_of_reply_cases "refresh_token" r) as [Hfail Hresp].
  split; [reflexivity|]. split.
  - intros e He. rewrite (Hfail e He). reflexivity.
  - intros response Hr. destruct (Hresp response Hr) as [Hhigh Hlow].
    split.
    + intros Hle. rewrite (Hhigh Hle). reflexivity.
    + intros Hlt. destruct (Hlow Hlt) as (H1 & H2 & H3 & H4).
      split; [|split; [|split]].
      * intros e He. rewrite (H1 e He). reflexivity.
      * intros d v Hd Hv. rewrite (H2 d v Hd Hv). reflexivity.
      * intros d Hd Hv. rewrite (H3 d Hd Hv). reflexivity.
      * intros v Hj Hv. rewrite (H4 v Hj Hv). reflexivity.
Qed.

(** X2. [generate_token] never touches the object and never waits.  When
    it raises it has sent its request and has not read the clock: no token
    is made of a failed exchange.  A failure of the transport is raised as
    it is, a status of 400 or above raises [ClientResponseError], a body
    that is not JSON raises what the decoder raises, and a JSON value that
    is not an object raises [TypeError] rather than [InvalidResponse]. *)
Theorem generate_token_failures (E : Env) (rt : value) (c : config) :
  let rq := token_request rt in
  let r := transport E (trace c) rq in
  let result := run E (generate_token rt) c in
  obj (snd result) = obj c
  ∧ fst result ≠ Blocked
  ∧ (∀ e, fst result = Raised e → trace (snd result) = trace c ++ [EvHttp rq r])
  ∧ (∀ e, r = Failure e → fst result = Raised e)
  ∧ (∀ response, r = Response response →
       ((400 <= status response)%Z →
        fst result = Raised (ClientResponseError (status response)))
       ∧ ((status response < 400)%Z →
          (∀ e, json response = Raise e → fst result = Raised e)
          ∧ (∀ v, json response = Ok v → (∀ d, v ≠ VDict d) →
                  fst result = Raised TypeError))).
Proof.
  intros rq r result. subst result.
  rewrite run_generate_token. cbv zeta. fold rq. fold r.
  rewrite id_token_of_field.
  destruct (field_of_reply_cases "id_token" r) as [Hfail Hresp].
  split; [|split; [|split; [|split]]].
  - destruct (field_of_reply "id_token" r); reflexivity.
  - destruct (field_of_reply "id_token" r); discriminate.
  - intros e. destruct (field_of_reply "id_token" r); [discriminate|reflexivity].
  - intros e He. rewrite (Hfail e He). reflexivity.
  - intros response Hr. destruct (Hresp response Hr) as [Hhigh Hlow].
    split.
    + intros Hle. rewrite (Hhigh Hle). reflexivity.
    + intros Hlt. destruct (Hlow Hlt) as (H1 & _ & _ & H4).
      split.
      * intros e He. rewrite (H1 e He). reflexivity.
      * intros v Hj Hv. rewrite (H4 v Hj Hv). reflexivity.
Qed.

(** X3. [generate_code] sends the credential POST and nothing else, with
    the user name and the password of the object, and leaves the object
    alone.  A failure of the transport is raised as it is; once a response
    has arrived the exceptions are [InvalidResponse], for a status that is
    not 302, and for a 302 [InvalidAuth] or the [ValueError] of a
    [Location] that [urlparse] rejects, which no handler catches.  The
    lookup of the first [code] value cannot raise [IndexError], because a
    parsed query string has no empty list. *)
Theorem generate_code_raises (E : Env) (c : config)
    (session_code execution tab_id : string) :
  let rq := code_request (_username (obj c)) (_password (obj c))
                         session_code execution tab_id in
  let r := transport E (trace c) rq in
  let result := run E (generate_code session_code execution tab_id) c in
  snd result = Config (obj c) (trace c ++ [EvHttp rq r])
  ∧ (∀ e, r = Failure e → fst result = Raised e)
  ∧ (∀ response e, r = Response response → fst result = Raised e →
       (e = InvalidResponse ∧ status response ≠ 302%Z)
       ∨ (e = InvalidAuth ∧ status response = 302%Z)
       ∨ (e = ValueError ∧ status response = 302%Z
          ∧ ∃ location, headers response !! "location" = Some location
                        ∧ urlparse location = Raise ValueError)).
Proof.
  intros rq r result. subst result.
  rewrite run_generate_code. cbv zeta. fold rq. fold r. cbn [fst snd].
  split; [reflexivity|]. split.
  - intros e ->. reflexivity.
  - intros response e ->. cbn [result_of_reply mbind result_bind].
    unfold code_of_response.
    destruct (Z.eqb_spec (status response) 302) as [Hst|Hst]; cbn [negb].
    2:{ cbn [outcome_of]. intros [= <-]. left. auto. }
    unfold getitem.
    destruct (headers response !! "location") as [location|] eqn:Hloc;
      cbn [mbind result_bind try_except_raise is_KeyError outcome_of].
    2:{ intros [= <-]. right. left. auto. }
    destruct (urlparse location) as [parsed_url|e0] eqn:Hurl; cbn [mbind result_bind].
    + destruct (first_value_of_query (query parsed_url) "code")
        as [(v & more & _ & Hv)|[_ Hv]]; unfold getitem in Hv; rewrite Hv;
        cbn [try_except_raise is_KeyError outcome_of].
      * discriminate.
      * intros [= <-]. right. left. auto.
    + pose proof (urlparse_raises _ _ Hurl) as He. subst e0.
      cbn [try_except_raise is_KeyError outcome_of]. intros [= <-].
      right. right. split; [reflexivity|]. split; [exact Hst|]. eauto.
Qed.

(** X4. Whatever the page, what [extract_login_data] raises is
    [InvalidResponse], or the exception of the HTML parser on the page, or
    the [ValueError] of [urlparse] on the [action] of the login form: the
    [KeyError] of a missing attribute or name and the [IndexError] of an
    empty list of values are turned into [InvalidResponse], and the two
    calls outside the handlers are not. *)
Theorem extract_login_data_raises (page : string) (e : exn) :
  extract_login_data page = Raise e →
  e = InvalidResponse
  ∨ BeautifulSoup page = Raise e
  ∨ (e = ValueError
     ∧ ∃ auth_page login_form login_url,
         BeautifulSoup page = Ok auth_page
         ∧ find auth_page LOGIN_FORM_ID = Some login_form
         ∧ attrs login_form !! "action" = Some login_url
         ∧ urlparse login_url = Raise ValueError).
Proof.
  intros Hraise.
  destruct (extract_login_data_raised page e Hraise) as [He|[He|He]]; auto.
Qed.

(** X5. [webapp_login] does not send the credentials when the login page
    cannot be used: when the GET fails, when its status is 400 or above,
    and when [extract_login_data] raises on the page, the exception is
    raised after the GET alone, and the object is left as it was. *)
Theorem webapp_login_withholds_credentials (E : Env) (challenge : auth_challenge.t)
    (c : config) :
  let rq := openid_request challenge in
  let r := transport E (trace c) rq in
  let result := run E (webapp_login challenge) c in
  let only_get := Config (obj c) (trace c ++ [EvHttp rq r]) in
  (∀ e, r = Failure e → result = (Raised e, only_get))
  ∧ (∀ response, r = Response response → (400 <= status response)%Z →
       result = (Raised (ClientResponseError (status response)), only_get))
  ∧ (∀ response e, r = Response response → (status response < 400)%Z →
       extract_login_data (text response) = Raise e →
       result = (Raised e, only_get)).
Proof.
  intros rq r result only_get. subst result only_get.
  rewrite run_webapp_login. cbv zeta. fold rq. fold r.
  split; [|split].
  - intros e ->. reflexivity.
  - intros response -> Hle. unfold login_data_of.
    cbn [result_of_reply mbind result_bind].
    rewrite raise_for_status_from by exact Hle. reflexivity.
  - intros response e -> Hlt Hpage.
    unfold login_data_of. cbn [result_of_reply mbind result_bind].
    rewrite raise_for_status_below by exact Hlt. cbn [mbind result_bind].
    rewrite Hpage. reflexivity.
Qed.

(** X6. When the GET of [webapp_login] gives a page with login data, the
    credential POST follows: it carries the session code, the execution and
    the tab id of that page and the credentials of the object, it is the
    second and last request, and its reply decides the outcome. *)
Theorem webapp_login_submits (E : Env) (challenge : auth_challenge.t) (c : config)
    (response : ClientResponse) (login_data : auth_sess_data.t) :
  transport E (trace c) (openid_request challenge) = Response response →
  (status response < 400)%Z →
  extract_login_data (text response) = Ok login_data →
  let got := trace c ++ [EvHttp (openid_request challenge) (Response response)] in
  let rq := code_request (_username (obj c)) (_password (obj c))
                         (auth_sess_data.session_code login_data)
                         (auth_sess_data.execution login_data)
                         (auth_sess_data.tab_id login_data) in
  let r := transport E got rq in
  run E (webapp_login challenge) c
  = (outcome_of (result_of_reply r ≫= code_of_response),
     Config (obj c) (got ++ [EvHttp rq r])).
Proof.
  intros Hreply Hlt Hpage got rq r.
  rewrite run_webapp_login. cbv zeta. rewrite Hreply.
  unfold login_data_of. cbn [result_of_reply mbind result_bind].
  rewrite raise_for_status_below by exact Hlt. cbn [mbind result_bind].
  rewrite Hpage. rewrite run_generate_code. reflexivity.
Qed.

End Exchanges.

(** ** The login chain *)

Section Login_chains.

Context {bs4 : Bs4} {urllib : Urllib} {const : Const}.

(** What [perform_initial_login] does once it has its challenge. *)
Definition login_with (challenge : auth_challenge.t) : coro value :=
  code ← webapp_login challenge;
  generate_refresh_token code challenge.

Lemma perform_initial_login_unfold :
  perform_initial_login = challenge ← generate_challenge_data; login_with challenge.
Proof. reflexivity. Qed.

(** The chain, request by request: each request is sent only when the
    reply to the one before gave what it needs. *)
Lemma run_login_with (E : Env) (challenge : auth_challenge.t) (c : config) :
  let rq1 := openid_request challenge in
  let r1 := transport E (trace c) rq1 in
  let h1 := trace c ++ [EvHttp rq1 r1] in
  run E (login_with challenge) c =
    match login_data_of r1 with
    | Raise e => (Raised e, Config (obj c) h1)
    | Ok login_data =>
        let rq2 := code_request (_username (obj c)) (_password (obj c))
                                (auth_sess_data.session_code login_data)
                                (auth_sess_data.execution login_data)
                                (auth_sess_data.tab_id login_data) in
        let r2 := transport E h1 rq2 in
        let h2 := h1 ++ [EvHttp rq2 r2] in
        match result_of_reply r2 ≫= code_of_response with
        | Raise e => (Raised e, Config (obj c) h2)
        | Ok code =>
            let rq3 := refresh_token_request code challenge in
            let r3 := transport E h2 rq3 in
            (outcome_of (refresh_token_of r3), Config (obj c) (h2 ++ [EvHttp rq3 r3]))
        end
    end.
Proof.
  intros rq1 r1 h1. unfold login_with.
  rewrite run_bind, run_webapp_login. cbv zeta. fold rq1. fold r1. fold h1.
  destruct (login_data_of r1) as [login_data|e]; [|reflexivity].
  rewrite run_generate_code. cbv zeta. cbn [obj trace].
  destruct (result_of_reply _ ≫= code_of_response) as [code|e]; cbn [outcome_of continue];
    [|reflexivity].
  rewrite run_generate_refresh_token. reflexivity.
Qed.

Lemma login_data_of_returned (r : reply) (login_data : auth_sess_data.t) :
  login_data_of r = Ok login_data →
  ∃ response, r = Response response
              ∧ (status response < 400)%Z
              ∧ extract_login_data (text response) = Ok login_data.
Proof.
  unfold login_data_of. destruct r as [response|e]; [|discriminate].
  cbn [result_of_reply mbind result_bind]. unfold raise_for_status.
  destruct (Z.leb_spec 400 (status response)) as [|Hlt]; [discriminate|].
  cbn [mbind result_bind]. intros Hpage. exists response. auto.
Qed.

Lemma code_of_reply_returned (r : reply) (code : string) :
  result_of_reply r ≫= code_of_response = Ok code →
  ∃ response, r = Response response ∧ code_of_response response = Ok code.
Proof.
  destruct r as [response|e]; [|discriminate].
  cbn [result_of_reply mbind result_bind]. intros Hcode. exists response. auto.
Qed.

(** The same for a login that starts from the random source. *)
Lemma run_perform_initial_login (E : Env) (c : config) :
  ∃ random,
    length random = 40%nat
    ∧ run E perform_initial_login c
      = run E (login_with (auth_challenge.AuthChallenge
                             (challenge_of (verifier_of random)) (verifier_of random)))
            (Config (obj c) (trace c ++ [EvUrandom random])).
Proof.
  exists (os_urandom E (trace c) 40). split; [apply length_os_urandom|].
  rewrite perform_initial_login_unfold, run_bind, run_generate_challenge_data.
  reflexivity.
Qed.

(** A chain that returns: its three exchanges and what each one took from
    the one before. *)
Lemma login_with_returned (E : Env) (challenge : auth_challenge.t) (c c' : config)
    (rt : value) :
  run E (login_with challenge) c = (Returned rt, c') →
  ∃ page login_data redirect code answer d,
    c' = Config (obj c)
           (trace c ++
            [EvHttp (openid_request challenge) (Response page);
             EvHttp (code_request (_username (obj c)) (_password (obj c))
                                  (auth_sess_data.session_code login_data)
                                  (auth_sess_data.execution login_data)
                                  (auth_sess_data.tab_id login_data))
                    (Response redirect);
             EvHttp (refresh_token_request code challenge) (Response answer)])
    ∧ (status page < 400)%Z
    ∧ extract_login_data (text page) = Ok login_data
    ∧ code_of_response redirect = Ok code
    ∧ (status answer < 400)%Z
    ∧ json answer = Ok (VDict d)
    ∧ d !! "refresh_token" = Some rt.
Proof.
  rewrite run_login_with. cbv zeta.
  destruct (login_data_of _) as [login_data|e] eqn:Hpage; [|discriminate].
  destruct (result_of_reply _ ≫= code_of_response) as [code|e] eqn:Hcode; [|discriminate].
  destruct (refresh_token_of _) as [v|e] eqn:Hanswer; cbn [outcome_of]; [|discriminate].
  intros [= <- <-].
  apply login_data_of_returned in Hpage as (page & Hr1 & Hst1 & Hpage).
  apply code_of_reply_returned in Hcode as (redirect & Hr2 & Hcode).
  rewrite refresh_token_of_field in Hanswer.
  apply field_of_reply_returned in Hanswer as (answer & d & Hr3 & Hst3 & Hjson & Hrt).
  exists page, login_data, redirect, code, answer, d.
  split; [|auto 7].
  rewrite Hr3, Hr2, Hr1, <- !app_assoc. reflexivity.
Qed.

(** A chain stops at the first reply it cannot use. *)
Lemma login_with_stops (E : Env) (challenge : auth_challenge.t) (c : config) :
  obj (snd (run E (login_with challenge) c)) = obj c
  ∧ fst (run E (login_with challenge) c) ≠ Blocked
  ∧ ∃ evs chain,
      trace (snd (run E (login_with challenge) c)) = trace c ++ evs
      ∧ login_chain (_username (obj c)) (_password (obj c)) chain
      ∧ requests evs `prefix_of` chain
      ∧ length evs = length (requests evs)
      ∧ no_lock_event evs
      ∧ (∀ rt, fst (run E (login_with challenge) c) = Returned rt → requests evs = chain)
      ∧ (requests evs ≠ chain → ∃ e, fst (run E (login_with challenge) c) = Raised e).
Proof.
  rewrite run_login_with. cbv zeta.
  set (rq1 := openid_request challenge).
  set (r1 := transport E _ rq1).
  destruct (login_data_of r1) as [login_data|e].
  2:{ cbn [fst snd obj trace]. split; [reflexivity|]. split; [discriminate|].
      exists [EvHttp rq1 r1],
        [rq1; code_request (_username (obj c)) (_password (obj c)) "" "" "";
         refresh_token_request "" challenge].
      split; [reflexivity|].
      split; [exists challenge, "", "", "", ""; reflexivity|].
      split; [eexists; reflexivity|]. split; [reflexivity|]. split; [reflexivity|].
      split; [discriminate|]. intros _. eauto. }
  set (rq2 := code_request _ _ _ _ _).
  set (r2 := transport E _ rq2).
  destruct (result_of_reply r2 ≫= code_of_response) as [code|e].
  2:{ cbn [fst snd obj trace]. split; [reflexivity|]. split; [discriminate|].
      exists [EvHttp rq1 r1; EvHttp rq2 r2],
        [rq1; rq2; refresh_token_request "" challenge].
      split; [rewrite <- !app_assoc; reflexivity|].
      split; [exists challenge; do 3 eexists; exists ""; reflexivity|].
      split; [eexists; reflexivity|]. split; [reflexivity|]. split; [reflexivity|].
      split; [discriminate|]. intros _. eauto. }
  set (rq3 := refresh_token_request code challenge).
  set (r3 := transport E _ rq3).
  cbn [fst snd obj trace]. split; [reflexivity|].
  split; [destruct (refresh_token_of r3); discriminate|].
  exists [EvHttp rq1 r1; EvHttp rq2 r2; EvHttp rq3 r3], [rq1; rq2; rq3].
  split; [rewrite <- !app_assoc; reflexivity|].
  split; [exists challenge; do 3 eexists; exists code; reflexivity|].
  split; [reflexivity|]. split; [reflexivity|]. split; [reflexivity|].
  split; [reflexivity|]. intros Hne. exfalso. apply Hne. reflexivity.
Qed.

(** X7. A login that returns has drawn 40 random bytes, once and before
    anything is sent, and has sent three requests.  The [code_challenge] of
    the first is the challenge of the very verifier that the third sends as
    [code_verifier]; the second carries the login data read from the page
    the first one got and the credentials of the object; the third carries
    the code of the redirect the second one got; and the value returned is
    the [refresh_token] field of the JSON object the third one got. *)
Theorem perform_initial_login_returned (E : Env) (c c' : config) (rt : value) :
  run E perform_initial_login c = (Returned rt, c') →
  ∃ random page login_data redirect code answer d,
    let code_verifier := verifier_of random in
    let challenge :=
      auth_challenge.AuthChallenge (challenge_of code_verifier) code_verifier in
    length random = 40%nat
    ∧ c' = Config (obj c)
             (trace c ++
              [EvUrandom random;
               EvHttp (openid_request challenge) (Response page);
               EvHttp (code_request (_username (obj c)) (_password (obj c))
                                    (auth_sess_data.session_code login_data)
                                    (auth_sess_data.execution login_data)
                                    (auth_sess_data.tab_id login_data))
                      (Response redirect);
               EvHttp (refresh_token_request code challenge) (Response answer)])
    ∧ (status page < 400)%Z
    ∧ extract_login_data (text page) = Ok login_data
    ∧ code_of_response redirect = Ok code
    ∧ (status answer < 400)%Z
    ∧ json answer = Ok (VDict d)
    ∧ d !! "refresh_token" = Some rt.
Proof.
  destruct (run_perform_initial_login E c) as (random & Hlen & ->).
  intros Hrun. apply login_with_returned in Hrun.
  destruct Hrun as (page & login_data & redirect & code & answer & d & -> & Hrest).
  exists random, page, login_data, redirect, code, answer, d. cbv zeta.
  split; [exact Hlen|]. split; [|exact Hrest].
  cbn [obj trace]. rewrite <- app_assoc. reflexivity.
Qed.

(** X8. Whatever happens, [perform_initial_login] leaves the object alone,
    never waits, draws its random bytes first and then sends at most the
    three requests of a login chain, in the order of the chain: a request
    whose reply cannot be used is the last one sent.  A login that has not
    sent the whole chain has raised. *)
Theorem perform_initial_login_stops (E : Env) (c : config) :
  let result := run E perform_initial_login c in
  obj (snd result) = obj c
  ∧ fst result ≠ Blocked
  ∧ ∃ random evs chain,
      length random = 40%nat
      ∧ trace (snd result) = trace c ++ EvUrandom random :: evs
      ∧ login_chain (_username (obj c)) (_password (obj c)) chain
      ∧ requests evs `prefix_of` chain
      ∧ length evs = length (requests evs)
      ∧ (∀ rt, fst result = Returned rt → requests evs = chain)
      ∧ (requests evs ≠ chain → ∃ e, fst result = Raised e).
Proof.
  cbv zeta.
  destruct (run_perform_initial_login E c) as (random & Hlen & ->).
  destruct (login_with_stops E
              (auth_challenge.AuthChallenge (challenge_of (verifier_of random))
                                            (verifier_of random))
              (Config (obj c) (trace c ++ [EvUrandom random])))
    as (Hobj & Hnb & evs & chain & Htrace & Hchain & Hprefix & Hlen' & _ & Hret & Hstop).
  split; [exact Hobj|]. split; [exact Hnb|].
  exists random, evs, chain.
  split; [exact Hlen|]. split; [|auto].
  rewrite Htrace. cbn [trace]. rewrite <- app_assoc. reflexivity.
Qed.

End Login_chains.

(** ** One call of [token], whatever its outcome *)

Section Token_calls.

Context {bs4 : Bs4} {urllib : Urllib} {const : Const}.

(** Code that does not touch the lock never waits, leaves the lock as it
    found it and adds no lock event to the history. *)
Lemma run_lock_free {A : Type} (E : Env) (p : coro A) (c : config) :
  lock_free p →
  ∃ evs, trace (snd (run E p c)) = trace c ++ evs
         ∧ no_lock_event evs
         ∧ fst (run E p c) ≠ Blocked
         ∧ _async_lock (obj (snd (run E p c))) = _async_lock (obj c).
Proof.
  intros Hp. revert c.
  induction Hp as [a|e|rq k _ IH|k _ IH|n k _ IH|k _ IH|f k Hf _ IH]; intros c; cbn [run].
  - exists []. rewrite app_nil_r. repeat split. discriminate.
  - exists []. rewrite app_nil_r. repeat split. discriminate.
  - destruct (IH (transport E (trace c) rq)
                 (Config (obj c) (trace c ++ [EvHttp rq (transport E (trace c) rq)])))
      as (evs & Htrace & Hevs & Hnb & Hlock).
    exists (EvHttp rq (transport E (trace c) rq) :: evs).
    rewrite Htrace. cbn [trace obj] in *. rewrite <- app_assoc. auto.
  - destruct (IH (clock E (trace c)) (Config (obj c) (trace c ++ [EvNow (clock E (trace c))])))
      as (evs & Htrace & Hevs & Hnb & Hlock).
    exists (EvNow (clock E (trace c)) :: evs).
    rewrite Htrace. cbn [trace obj] in *. rewrite <- app_assoc. auto.
  - destruct (IH (os_urandom E (trace c) n)
                 (Config (obj c) (trace c ++ [EvUrandom (os_urandom E (trace c) n)])))
      as (evs & Htrace & Hevs & Hnb & Hlock).
    exists (EvUrandom (os_urandom E (trace c) n) :: evs).
    rewrite Htrace. cbn [trace obj] in *. rewrite <- app_assoc. auto.
  - apply IH.
  - destruct (IH (Config (f (obj c)) (trace c))) as (evs & Htrace & Hevs & Hnb & Hlock).
    exists evs. cbn [trace obj] in *. rewrite Hlock. auto.
Qed.

Lemma run_token_body (E : Env) (c : config) :
  _async_lock (obj c) = false →
  run E token c = finish (run E token_body (acquired c)).
Proof.
  intros Hfree. rewrite run_token_finish by exact Hfree.
  unfold token_body. rewrite run_bind. reflexivity.
Qed.

(** X9. A call of [token] made while the lock is free never waits: it
    returns or raises, and either way the lock is free again afterwards and
    everything the call did lies between one acquisition and one release.
    A call made while the lock is held waits without doing anything. *)
Theorem token_brackets (E : Env) (c : config) :
  (_async_lock (obj c) = true → run E token c = (Blocked, c))
  ∧ (_async_lock (obj c) = false →
     fst (run E token c) ≠ Blocked
     ∧ _async_lock (obj (snd (run E token c))) = false
     ∧ ∃ mid, trace (snd (run E token c)) = trace c ++ [EvAcquire] ++ mid ++ [EvRelease]
              ∧ no_lock_event mid).
Proof.
  split.
  - intros Hheld. rewrite token_unfold. cbn [run]. rewrite Hheld. reflexivity.
  - intros Hfree. rewrite run_token_body by exact Hfree.
    destruct (run_lock_free E token_body (acquired c) lock_free_token_body)
      as (mid & Htrace & Hmid & Hnb & _).
    change (trace (acquired c)) with (trace c ++ [EvAcquire]) in Htrace.
    destruct (run E token_body (acquired c)) as [[[]|e|] c'];
      cbn [fst snd finish released obj trace set_lock _async_lock] in *.
    + split; [unfold bearer_of; destruct (_token_data _); discriminate|].
      split; [reflexivity|]. exists mid. split; [|exact Hmid].
      rewrite Htrace, <- !app_assoc. reflexivity.
    + split; [discriminate|]. split; [reflexivity|]. exists mid. split; [|exact Hmid].
      rewrite Htrace, <- !app_assoc. reflexivity.
    + exfalso. apply Hnb. reflexivity.
Qed.

(** *** What the module assigns *)

(** The assignments of the module: to the two caches. *)
Definition is_cache_write (f : HubSpaceAuth → HubSpaceAuth) : Prop :=
  (∃ v, f = set_refresh_token v) ∨ (∃ td, f = set_token_data td).

Inductive assigns_caches {A : Type} : coro A → Prop :=
| assigns_Ret a : assigns_caches (Ret a)
| assigns_Throw e : assigns_caches (Throw e)
| assigns_Http rq k : (∀ r, assigns_caches (k r)) → assigns_caches (Http rq k)
| assigns_Now k : (∀ t, assigns_caches (k t)) → assigns_caches (Now k)
| assigns_Urandom n k : (∀ bs, assigns_caches (k bs)) → assigns_caches (Urandom n k)
| assigns_Load k : (∀ o, assigns_caches (k o)) → assigns_caches (Load k)
| assigns_Store f k : is_cache_write f → assigns_caches k → assigns_caches (Store f k)
| assigns_Acquire k : assigns_caches k → assigns_caches (Acquire k)
| assigns_Release k : assigns_caches k → assigns_caches (Release k).

Lemma assigns_caches_of_io_only {A : Type} (p : coro A) : io_only p → assigns_caches p.
Proof. induction 1; constructor; auto. Qed.

Lemma assigns_caches_bind {A B : Type} (p : coro A) (f : A → coro B) :
  assigns_caches p → (∀ a, assigns_caches (f a)) → assigns_caches (p ≫= f).
Proof.
  intros Hp Hf. unfold mbind, coro_mbind.
  induction Hp; simpl; auto; constructor; auto.
Qed.

Lemma assigns_caches_releasing {A : Type} (p : coro A) :
  assigns_caches p → assigns_caches (releasing p).
Proof. induction 1; simpl; constructor; auto; constructor. Qed.

Lemma assigns_caches_token : assigns_caches token.
Proof.
  unfold token. apply assigns_caches_bind.
  - unfold async_with_lock. constructor. apply assigns_caches_releasing.
    apply assigns_caches_bind.
    + unfold ensure_refresh_token. constructor. intros self.
      destruct (negb (truthy (_refresh_token self))); [|constructor].
      apply assigns_caches_bind.
      * apply assigns_caches_of_io_only, io_only_perform_initial_login.
      * intros rt. constructor; [left; eauto|constructor].
    + intros _. unfold ensure_token. apply assigns_caches_bind.
      * unfold is_expired. constructor. intros self.
        destruct (_token_data self); constructor. intros now. constructor.
      * intros [|]; [|constructor]. constructor. intros self.
        apply assigns_caches_bind.
        -- apply assigns_caches_of_io_only, io_only_generate_token.
        -- intros td. constructor; [right; eauto|constructor].
  - intros _. constructor. intros self. destruct (_token_data self); constructor.
Qed.

Lemma run_assigns_caches {A : Type} (E : Env) (p : coro A) (c : config) :
  assigns_caches p →
  _username (obj (snd (run E p c))) = _username (obj c)
  ∧ _password (obj (snd (run E p c))) = _password (obj c).
Proof.
  intros Hp. revert c.
  induction Hp as [a|e|rq k _ IH|k _ IH|n k _ IH|k _ IH|f k Hf _ IH|k _ IH|k _ IH];
    intros c; cbn [run]; auto.
  - exact (IH _ (Config (obj c) _)).
  - exact (IH _ (Config (obj c) _)).
  - exact (IH _ (Config (obj c) _)).
  - destruct (IH (Config (f (obj c)) (trace c))) as [Hu Hp]. cbn [obj] in *.
    rewrite Hu, Hp. destruct Hf as [[v ->]|[td ->]]; auto.
  - destruct (_async_lock (obj c)); [auto|].
    destruct (IH (Config (set_lock true (obj c)) (trace c ++ [EvAcquire]))) as [Hu Hp].
    auto.
  - destruct (IH (Config (set_lock false (obj c)) (trace c ++ [EvRelease]))) as [Hu Hp].
    auto.
Qed.

(** X10. [token] assigns to the refresh-token cache and to the token cache
    and to nothing else, so no sequence of calls, whatever the calls give,
    changes the user name or the password of the authenticator. *)
Theorem calls_keep_credentials (E : Env) (n : nat) (c : config) :
  assigns_caches token
  ∧ _username (obj (calls E n c)) = _username (obj c)
  ∧ _password (obj (calls E n c)) = _password (obj c).
Proof.
  split; [exact assigns_caches_token|].
  revert c. induction n as [|n IH]; intros c; cbn [calls]; [auto|].
  destruct (IH (snd (run E token c))) as [Hu Hp].
  destruct (run_assigns_caches E token c assigns_caches_token) as [Hu1 Hp1].
  split; congruence.
Qed.

(** *** Where the cached values come from *)

(** The history has a refresh-token exchange whose reply is a JSON object
    with [td]'s bearer as [id_token], and the clock reading that follows it
    is 118 seconds before [td]'s expiration. *)
Definition issued (h : list event) (td : token_data.t) : Prop :=
  ∃ pre rt answer d t rest,
    h = pre ++ [EvHttp (token_request rt) (Response answer); EvNow t] ++ rest
    ∧ (status answer < 400)%Z
    ∧ json answer = Ok (VDict d)
    ∧ d !! "id_token" = Some (token_data.token td)
    ∧ token_data.expiration td = (t + (118 # 1))%Q.

(** The history has an authorization-code exchange whose reply is a JSON
    object with [rt] as [refresh_token]. *)
Definition granted (h : list event) (rt : value) : Prop :=
  ∃ pre code challenge answer d rest,
    h = pre ++ [EvHttp (refresh_token_request code challenge) (Response answer)] ++ rest
    ∧ (status answer < 400)%Z
    ∧ json answer = Ok (VDict d)
    ∧ d !! "refresh_token" = Some rt.

Lemma issued_app (h evs : list event) (td : token_data.t) :
  issued h td → issued (h ++ evs) td.
Proof.
  intros (pre & rt & answer & d & t & rest & -> & Hrest).
  exists pre, rt, answer, d, t, (rest ++ evs). split; [|exact Hrest].
  rewrite <- !app_assoc. reflexivity.
Qed.

Lemma granted_app (h evs : list event) (rt : value) :
  granted h rt → granted (h ++ evs) rt.
Proof.
  intros (pre & code & challenge & answer & d & rest & -> & Hrest).
  exists pre, code, challenge, answer, d, (rest ++ evs). split; [|exact Hrest].
  rewrite <- !app_assoc. reflexivity.
Qed.

(** The login step. *)
Lemma ensure_refresh_token_effect (E : Env) (c : config) :
  ∃ evs chain,
    trace (snd (run E ensure_refresh_token c)) = trace c ++ evs
    ∧ no_lock_event evs
    ∧ fst (run E ensure_refresh_token c) ≠ Blocked
    ∧ _async_lock (obj (snd (run E ensure_refresh_token c))) = _async_lock (obj c)
    ∧ _token_data (obj (snd (run E ensure_refresh_token c))) = _token_data (obj c)
    ∧ login_chain (_username (obj c)) (_password (obj c)) chain
    ∧ (if truthy (_refresh_token (obj c))
       then run E ensure_refresh_token c = (Returned tt, c) ∧ evs = []
       else requests evs `prefix_of` chain
            ∧ (fst (run E ensure_refresh_token c) = Returned tt →
               requests evs = chain
               ∧ granted (trace (snd (run E ensure_refresh_token c)))
                         (_refresh_token (obj (snd (run E ensure_refresh_token c)))))
            ∧ (∀ e, fst (run E ensure_refresh_token c) = Raised e →
                 obj (snd (run E ensure_refresh_token c)) = obj c)).
Proof.
  rewrite run_ensure_refresh_token.
  destruct (truthy (_refresh_token (obj c))) eqn:Htruthy.
  - exists [], [openid_request (auth_challenge.AuthChallenge "" "");
                code_request (_username (obj c)) (_password (obj c)) "" "" "";
                refresh_token_request "" (auth_challenge.AuthChallenge "" "")].
    rewrite app_nil_r. cbn [fst snd].
    split; [reflexivity|]. split; [reflexivity|]. split; [discriminate|].
    split; [reflexivity|]. split; [reflexivity|].
    split; [eexists _, _, _, _, _; reflexivity|]. split; reflexivity.
  - destruct (run_perform_initial_login E c) as (random & _ & ->).
    set (challenge := auth_challenge.AuthChallenge _ _).
    destruct (login_with_stops E challenge (Config (obj c) (trace c ++ [EvUrandom random])))
      as (Hobj & Hnb & evs & chain & Htrace & Hchain & Hprefix & _ & Hevs & Hret & _).
    exists (EvUrandom random :: evs), chain.
    destruct (run E (login_with challenge) (Config (obj c) (trace c ++ [EvUrandom random])))
      as [[rt|e|] c1] eqn:Hrun;
      cbn [fst snd store_refresh_token obj trace set_refresh_token
           _async_lock _token_data _refresh_token] in *;
      try (exfalso; apply Hnb; reflexivity).
    + rewrite Htrace, Hobj, <- app_assoc.
      split; [reflexivity|]. split; [exact Hevs|].
      split; [discriminate|]. split; [reflexivity|]. split; [reflexivity|].
      split; [exact Hchain|]. split; [exact Hprefix|].
      split; [|discriminate]. intros _. split; [exact (Hret rt eq_refl)|].
      apply login_with_returned in Hrun.
      destruct Hrun as (page & login_data & redirect & code & answer & d & Hc1 & _ & _ & _
                        & Hst & Hjson & Hrt).
      rewrite Hc1 in Htrace. cbn [obj trace] in Htrace.
      apply app_inv_head in Htrace. subst evs.
      eexists (trace c ++ [_; _; _]), code, challenge, answer, d, [].
      split; [rewrite <- !app_assoc; reflexivity|]. auto.
    + rewrite Htrace, Hobj, <- app_assoc.
      split; [reflexivity|]. split; [exact Hevs|].
      split; [discriminate|]. split; [reflexivity|]. split; [reflexivity|].
      split; [exact Hchain|]. split; [exact Hprefix|].
      split; [discriminate|]. intros e' _. reflexivity.
Qed.

(** The exchange of the refresh token for a token. *)
Lemma regenerate_effect (E : Env) (c : config) :
  ∃ evs,
    trace (snd (regenerate E c)) = trace c ++ evs
    ∧ no_lock_event evs
    ∧ fst (regenerate E c) ≠ Blocked
    ∧ _async_lock (obj (snd (regenerate E c))) = _async_lock (obj c)
    ∧ _refresh_token (obj (snd (regenerate E c))) = _refresh_token (obj c)
    ∧ requests evs = [token_request (_refresh_token (obj c))]
    ∧ (_token_data (obj (snd (regenerate E c))) = _token_data (obj c)
       ∨ ∃ td, _token_data (obj (snd (regenerate E c))) = Some td
               ∧ issued (trace (snd (regenerate E c))) td).
Proof.
  rewrite regenerate_outcome. cbv zeta.
  set (rq := token_request _).
  destruct (id_token_of (transport E (trace c) rq)) as [tok|e] eqn:Hid;
    cbn [fst snd obj trace set_token_data _async_lock _refresh_token _token_data].
  - eexists [_; _].
    split; [reflexivity|]. split; [reflexivity|]. split; [discriminate|].
    split; [reflexivity|]. split; [reflexivity|]. split; [reflexivity|].
    right. eexists. split; [reflexivity|].
    rewrite id_token_of_field in Hid.
    apply field_of_reply_returned in Hid as (answer & d & Hr & Hst & Hjson & Hd).
    rewrite Hr.
    exists (trace c), (_refresh_token (obj c)), answer, d,
      (clock E (trace c ++ [EvHttp rq (Response answer)])), [].
    split; [reflexivity|]. auto.
  - eexists [_].
    split; [reflexivity|]. split; [reflexivity|]. split; [discriminate|].
    split; [reflexivity|]. split; [reflexivity|]. split; [reflexivity|].
    left. reflexivity.
Qed.

(** The token step. *)
Lemma ensure_token_effect (E : Env) (c : config) :
  ∃ evs,
    trace (snd (run E ensure_token c)) = trace c ++ evs
    ∧ no_lock_event evs
    ∧ fst (run E ensure_token c) ≠ Blocked
    ∧ _async_lock (obj (snd (run E ensure_token c))) = _async_lock (obj c)
    ∧ _refresh_token (obj (snd (run E ensure_token c))) = _refresh_token (obj c)
    ∧ (requests evs = [] ∨ requests evs = [token_request (_refresh_token (obj c))])
    ∧ (_token_data (obj (snd (run E ensure_token c))) = _token_data (obj c)
       ∨ ∃ td, _token_data (obj (snd (run E ensure_token c))) = Some td
               ∧ issued (trace (snd (run E ensure_token c))) td).
Proof.
  rewrite run_ensure_token.
  destruct (_token_data (obj c)) as [td0|] eqn:Htd0.
  - destruct (Qle_bool _ _).
    + destruct (regenerate_effect E (read_clock E c))
        as (evs & Htrace & Hevs & Hnb & Hlock & Hrt & Hreqs & Htd).
      cbn [read_clock obj trace] in *.
      exists (EvNow (clock E (trace c)) :: evs).
      split; [rewrite Htrace, <- app_assoc; reflexivity|].
      split; [exact Hevs|]. split; [exact Hnb|]. split; [exact Hlock|].
      split; [exact Hrt|]. split; [right; exact Hreqs|].
      rewrite Htd0 in Htd. exact Htd.
    + exists [EvNow (clock E (trace c))]. cbn [fst snd read_clock obj trace].
      split; [reflexivity|]. split; [reflexivity|]. split; [discriminate|].
      split; [reflexivity|]. split; [reflexivity|]. split; [left; reflexivity|].
      left. exact Htd0.
  - destruct (regenerate_effect E c)
      as (evs & Htrace & Hevs & Hnb & Hlock & Hrt & Hreqs & Htd).
    exists evs. rewrite Htd0 in Htd. auto 10.
Qed.

Lemma requests_cons_other (ev : event) (h : list event) :
  (∀ rq r, ev ≠ EvHttp rq r) → requests (ev :: h) = requests h.
Proof. intros Hev. destruct ev; try reflexivity. exfalso. exact (Hev rq r eq_refl). Qed.

Lemma login_chain_length (username password : string) (chain : list Request) :
  login_chain username password chain → length chain = 3%nat.
Proof. intros (challenge & sc & ex & tab & code & ->). reflexivity. Qed.

(** One call, from the acquisition of the lock to its release. *)
Lemma token_call_effect (E : Env) (c : config) :
  _async_lock (obj c) = false →
  ∃ evs chain rt,
    trace (snd (run E token c)) = trace c ++ evs
    ∧ fst (run E token c) ≠ Blocked
    ∧ _async_lock (obj (snd (run E token c))) = false
    ∧ login_chain (_username (obj c)) (_password (obj c)) chain
    ∧ (if truthy (_refresh_token (obj c))
       then requests evs `prefix_of` [token_request (_refresh_token (obj c))]
       else requests evs `prefix_of` chain ++ [token_request rt]
            ∧ ((length chain < length (requests evs))%nat →
               granted (trace (snd (run E token c))) rt))
    ∧ (_token_data (obj (snd (run E token c))) = _token_data (obj c)
       ∨ ∃ td, _token_data (obj (snd (run E token c))) = Some td
               ∧ issued (trace (snd (run E token c))) td)
    ∧ (_refresh_token (obj (snd (run E token c))) = _refresh_token (obj c)
       ∨ granted (trace (snd (run E token c)))
                 (_refresh_token (obj (snd (run E token c))))).
Proof.
  intros Hfree. rewrite run_token_finish by exact Hfree.
  destruct (ensure_refresh_token_effect E (acquired c))
    as (evs1 & chain & Htrace1 & _ & Hnb1 & _ & Htd1 & Hchain & Hlogin).
  change (truthy (_refresh_token (obj (acquired c))))
    with (truthy (_refresh_token (obj c))) in Hlogin.
  change (_token_data (obj (acquired c))) with (_token_data (obj c)) in Htd1.
  change (_username (obj (acquired c))) with (_username (obj c)) in Hchain.
  change (_password (obj (acquired c))) with (_password (obj c)) in Hchain.
  change (trace (acquired c)) with (trace c ++ [EvAcquire]) in Htrace1.
  destruct (run E ensure_refresh_token (acquired c)) as [[[]|e|] c1] eqn:Hstep1;
    cbn [fst snd continue] in *; [| |exfalso; apply Hnb1; reflexivity].
  - (* the login step returned *)
    destruct (ensure_token_effect E c1)
      as (evs2 & Htrace2 & _ & Hnb2 & _ & Hrt2 & Hreqs2 & Htd2).
    exists (EvAcquire :: evs1 ++ evs2 ++ [EvRelease]), chain, (_refresh_token (obj c1)).
    assert (Hreqs : requests (EvAcquire :: evs1 ++ evs2 ++ [EvRelease])
                    = requests evs1 ++ requests evs2).
    { rewrite requests_cons_other by discriminate.
      rewrite !requests_app. cbn [requests omap]. rewrite app_nil_r. reflexivity. }
    assert (Hafter : ∀ r : outcome unit * config,
              r = run E ensure_token c1 →
              trace (snd (finish r)) = trace (snd r) ++ [EvRelease]
              ∧ _async_lock (obj (snd (finish r))) = false
              ∧ _token_data (obj (snd (finish r))) = _token_data (obj (snd r))
              ∧ _refresh_token (obj (snd (finish r))) = _refresh_token (obj (snd r))
              ∧ fst (finish r) ≠ Blocked).
    { intros [[[]|e|] c2] Hr; cbn [fst snd finish released obj trace set_lock
                                    _async_lock _token_data _refresh_token].
      - do 4 (split; [reflexivity|]).
        unfold bearer_of. destruct (_token_data (obj (released c2))); discriminate.
      - do 4 (split; [reflexivity|]). discriminate.
      - exfalso. apply Hnb2. rewrite <- Hr. reflexivity. }
    destruct (Hafter _ eq_refl) as (Htrace & Hlock & Htd & Hrt & Hnb).
    rewrite Htrace, Hlock, Htd, Hrt, Htrace2, Htrace1, Hrt2.
    split; [rewrite <- !app_assoc; reflexivity|].
    split; [exact Hnb|]. split; [reflexivity|]. split; [exact Hchain|].
    split; [|split].
    + rewrite Hreqs. destruct (truthy (_refresh_token (obj c))).
      * destruct Hlogin as [[= ->] ->]. cbn [app].
        destruct Hreqs2 as [-> | ->]; [apply prefix_nil|reflexivity].
      * destruct Hlogin as (_ & Hreturned & _).
        destruct (Hreturned eq_refl) as [-> Hgranted].
        split.
        { destruct Hreqs2 as [-> | ->]; [|reflexivity].
          rewrite app_nil_r. apply prefix_app_r. reflexivity. }
        intros _. rewrite Htrace1 in Hgranted.
        apply (granted_app _ (evs2 ++ [EvRelease])) in Hgranted.
        rewrite <- !app_assoc in Hgranted. rewrite <- !app_assoc. exact Hgranted.
    + destruct Htd2 as [-> | (td & Hsome & Hissued)]; [left; exact Htd1|].
      right. exists td. split; [exact Hsome|].
      rewrite Htrace2, Htrace1 in Hissued.
      apply (issued_app _ [EvRelease]) in Hissued. exact Hissued.
    + destruct (truthy (_refresh_token (obj c))).
      * destruct Hlogin as [[= ->] _]. left. reflexivity.
      * destruct Hlogin as (_ & Hreturned & _).
        destruct (Hreturned eq_refl) as [_ Hgranted].
        right. rewrite Htrace1 in Hgranted.
        apply (granted_app _ (evs2 ++ [EvRelease])) in Hgranted.
        rewrite <- !app_assoc in Hgranted. rewrite <- !app_assoc. exact Hgranted.
  - (* the login step raised *)
    exists (EvAcquire :: evs1 ++ [EvRelease]), chain, VNone.
    cbn [fst snd finish released obj trace set_lock _async_lock _token_data _refresh_token].
    rewrite Htrace1.
    split; [rewrite <- !app_assoc; reflexivity|].
    split; [discriminate|]. split; [reflexivity|]. split; [exact Hchain|].
    assert (Hreqs : requests (EvAcquire :: evs1 ++ [EvRelease]) = requests evs1).
    { rewrite requests_cons_other by discriminate.
      rewrite requests_app. cbn [requests omap]. apply app_nil_r. }
    rewrite Hreqs.
    destruct (truthy (_refresh_token (obj c))).
    + destruct Hlogin as [[=] _].
    + destruct Hlogin as (Hprefix & _ & Hraised).
      rewrite (Hraised e eq_refl). cbn [acquired obj set_lock _token_data _refresh_token].
      split; [|split; left; reflexivity].
      split; [apply prefix_app_r, Hprefix|].
      intros Hlonger. apply prefix_length in Hprefix. lia.
Qed.

(** X11. The requests of one call of [token], in order, are an initial
    part of: the three requests of a login chain and then one refresh-token
    request, when the refresh-token cache fails the source's test; one
    refresh-token request carrying the cached refresh token, when it passes.
    So a call sends at most four requests and repeats none; and when it
    sends four, the refresh token in the fourth is the one that the reply
    to the third granted. *)
Theorem token_sends_in_order (E : Env) (c : config) :
  _async_lock (obj c) = false →
  ∃ sent chain rt,
    requests (trace (snd (run E token c))) = requests (trace c) ++ sent
    ∧ login_chain (_username (obj c)) (_password (obj c)) chain
    ∧ (if truthy (_refresh_token (obj c))
       then sent `prefix_of` [token_request (_refresh_token (obj c))]
       else sent `prefix_of` chain ++ [token_request rt]
            ∧ (length sent = 4%nat → granted (trace (snd (run E token c))) rt))
    ∧ (length sent <= 4)%nat.
Proof.
  intros Hfree.
  destruct (token_call_effect E c Hfree)
    as (evs & chain & rt & Htrace & _ & _ & Hchain & Hsent & _).
  exists (requests evs), chain, rt.
  split; [rewrite Htrace; apply requests_app|].
  split; [exact Hchain|].
  pose proof (login_chain_length _ _ _ Hchain) as Hlen.
  destruct (truthy (_refresh_token (obj c))).
  - split; [exact Hsent|].
    apply prefix_length in Hsent. cbn [length] in Hsent. lia.
  - destruct Hsent as [Hsent Hgranted]. split.
    + split; [exact Hsent|]. intros Hfour. apply Hgranted. lia.
    + apply prefix_length in Hsent. rewrite length_app, Hlen in Hsent.
      cbn [length] in Hsent. lia.
Qed.

Lemma login_with_begins (E : Env) (challenge : auth_challenge.t) (c : config) :
  ∃ rest,
    trace (snd (run E (login_with challenge) c))
    = trace c ++ EvHttp (openid_request challenge)
                        (transport E (trace c) (openid_request challenge)) :: rest.
Proof.
  rewrite run_login_with. cbv zeta.
  destruct (login_data_of _) as [login_data|e]; [|exists []; reflexivity].
  destruct (result_of_reply _ ≫= code_of_response) as [code|e]; cbn [snd trace].
  - eexists [_; _]. rewrite <- !app_assoc. reflexivity.
  - eexists [_]. rewrite <- !app_assoc. reflexivity.
Qed.

(** X12. The login test comes first and does not look at the token cache:
    a call that finds a refresh token that fails the source's test draws
    random bytes and sends the GET of a new login chain right after taking
    the lock, even when the cache holds a token that has not expired. *)
Theorem token_logs_in_first (E : Env) (c : config) :
  _async_lock (obj c) = false →
  truthy (_refresh_token (obj c)) = false →
  ∃ random reply rest,
    length random = 40%nat
    ∧ trace (snd (run E token c))
      = trace c ++
        EvAcquire :: EvUrandom random
        :: EvHttp (openid_request
                     (auth_challenge.AuthChallenge (challenge_of (verifier_of random))
                                                   (verifier_of random)))
                  reply
        :: rest.
Proof.
  intros Hfree Hfalsy. rewrite run_token_finish by exact Hfree.
  rewrite run_ensure_refresh_token.
  change (truthy (_refresh_token (obj (acquired c))))
    with (truthy (_refresh_token (obj c))).
  rewrite Hfalsy.
  destruct (run_perform_initial_login E (acquired c)) as (random & Hlen & ->).
  set (challenge := auth_challenge.AuthChallenge _ _).
  destruct (login_with_begins E challenge
              (Config (obj (acquired c)) (trace (acquired c) ++ [EvUrandom random])))
    as (rest & Htrace).
  cbn [trace acquired] in Htrace.
  exists random, (transport E ((trace c ++ [EvAcquire]) ++ [EvUrandom random])
                            (openid_request challenge)).
  destruct (run E (login_with challenge) _) as [[rt|e|] c1];
    cbn [snd store_refresh_token continue finish released trace] in *.
  - destruct (ensure_token_effect E (Config (set_refresh_token rt (obj c1)) (trace c1)))
      as (evs2 & Htrace2 & _).
    cbn [trace] in Htrace2.
    assert (Hend : ∃ evs, trace (snd (finish (run E ensure_token
                                                (Config (set_refresh_token rt (obj c1))
                                                        (trace c1)))))
                          = trace c1 ++ evs).
    { destruct (run E ensure_token _) as [[[]|e|] c2];
        cbn [snd finish released trace] in *; rewrite Htrace2.
      - exists (evs2 ++ [EvRelease]). rewrite app_assoc. reflexivity.
      - exists (evs2 ++ [EvRelease]). rewrite app_assoc. reflexivity.
      - exists evs2. reflexivity. }
    destruct Hend as (evs & ->). rewrite Htrace.
    exists (rest ++ evs). split; [exact Hlen|].
    rewrite <- !app_assoc. reflexivity.
  - rewrite Htrace. exists (rest ++ [EvRelease]). split; [exact Hlen|].
    rewrite <- !app_assoc. reflexivity.
  - rewrite Htrace. exists rest. split; [exact Hlen|].
    rewrite <- !app_assoc. reflexivity.
Qed.

(** *** Sequences of calls, whatever each call gives *)

Lemma calls_invariant (E : Env) (I : config → Prop) :
  (∀ c, _async_lock (obj c) = false → I c → I (snd (run E token c))) →
  ∀ n c, _async_lock (obj c) = false → I c →
         I (calls E n c) ∧ _async_lock (obj (calls E n c)) = false.
Proof.
  intros Hstep. induction n as [|n IH]; intros c Hfree Hc; cbn [calls]; [auto|].
  apply IH.
  - destruct (token_call_effect E c Hfree) as (evs & chain & rt & _ & _ & Hlock & _).
    exact Hlock.
  - apply Hstep; assumption.
Qed.

(** X13. Whatever a sequence of calls on a fresh authenticator has gone
    through, a token in the cache was issued as the source issues tokens:
    its bearer is the [id_token] of the JSON object that answered a
    refresh-token request of the history, with a status below 400, and its
    expiration is the clock reading that follows that answer plus 118
    seconds.  Nothing of the answer, such as an [expires_in] field, enters
    the expiration. *)
Theorem cached_token_was_issued (E : Env) (username password : string) (n : nat)
    (td : token_data.t) :
  _token_data (obj (calls E n (fresh username password))) = Some td →
  issued (trace (calls E n (fresh username password))) td.
Proof.
  revert td.
  refine (proj1 (calls_invariant E
            (fun c => ∀ td, _token_data (obj c) = Some td → issued (trace c) td)
            _ n (fresh username password) eq_refl _)).
  - intros c Hfree Hc td.
    destruct (token_call_effect E c Hfree)
      as (evs & chain & rt & Htrace & _ & _ & _ & _ & Htd & _).
    destruct Htd as [-> | (td' & -> & Hissued)].
    + intros Hsome. rewrite Htrace. apply issued_app, Hc, Hsome.
    + intros [= <-]. exact Hissued.
  - discriminate.
Qed.

(** X14. Whatever a sequence of calls on a fresh authenticator has gone
    through, the refresh-token cache holds [None], as at construction, or
    the [refresh_token] field of the JSON object that answered an
    authorization-code request of the history with a status below 400. *)
Theorem cached_refresh_token_was_granted (E : Env) (username password : string)
    (n : nat) :
  let c := calls E n (fresh username password) in
  _refresh_token (obj c) = VNone ∨ granted (trace c) (_refresh_token (obj c)).
Proof.
  cbv zeta.
  refine (proj1 (calls_invariant E
            (fun c => _refresh_token (obj c) = VNone
                      ∨ granted (trace c) (_refresh_token (obj c)))
            _ n (fresh username password) eq_refl _)).
  - intros c Hfree Hc.
    destruct (token_call_effect E c Hfree)
      as (evs & chain & rt & Htrace & _ & _ & _ & _ & _ & Hrt).
    destruct Hrt as [-> | Hgranted]; [|right; exact Hgranted].
    destruct Hc as [Hnone|Hgranted]; [left; exact Hnone|].
    right. rewrite Htrace. apply granted_app, Hgranted.
  - left. reflexivity.
Qed.

(** The four requests of the module. *)
Definition known_request (username password : string) (rq : Request) : Prop :=
  (∃ challenge, rq = openid_request challenge)
  ∨ (∃ session_code execution tab_id,
       rq = code_request username password session_code execution tab_id)
  ∨ (∃ code challenge, rq = refresh_token_request code challenge)
  ∨ (∃ refresh_token, rq = token_request refresh_token).

Lemma known_login_chain (username password : string) (chain : list Request) :
  login_chain username password chain → Forall (known_request username password) chain.
Proof.
  intros (challenge & sc & ex & tab & code & ->).
  repeat apply Forall_cons_2; [| | |apply Forall_nil_2].
  - left. eauto.
  - right. left. eauto.
  - right. right. left. eauto.
Qed.

Lemma Forall_of_prefix {A : Type} (P : A → Prop) (l1 l2 : list A) :
  l1 `prefix_of` l2 → Forall P l2 → Forall P l1.
Proof. intros [k ->] Hall. apply Forall_app in Hall. apply Hall. Qed.

(** X15. Every request that a sequence of calls on a fresh authenticator
    sends is one of the four requests of the module: the GET of the login
    page, the credential POST, the authorization-code exchange, the
    refresh-token exchange; and every credential POST carries the user name
    and the password the authenticator was made with. *)
Theorem calls_send_known_requests (E : Env) (username password : string) (n : nat) :
  Forall (known_request username password)
         (requests (trace (calls E n (fresh username password)))).
Proof.
  refine (proj2 (proj1 (calls_invariant E
            (fun c => (_username (obj c) = username ∧ _password (obj c) = password)
                      ∧ Forall (known_request username password) (requests (trace c)))
            _ n (fresh username password) eq_refl _))).
  - intros c Hfree [[Hu Hp] Hc].
    destruct (run_assigns_caches E token c assigns_caches_token) as [Hu1 Hp1].
    split; [split; congruence|].
    destruct (token_call_effect E c Hfree)
      as (evs & chain & rt & Htrace & _ & _ & Hchain & Hsent & _).
    rewrite Hu, Hp in Hchain.
    rewrite Htrace, requests_app. apply Forall_app. split; [exact Hc|].
    destruct (truthy (_refresh_token (obj c))).
    + apply (Forall_of_prefix _ _ _ Hsent).
      apply Forall_cons_2; [|apply Forall_nil_2]. right. right. right. eauto.
    + apply (Forall_of_prefix _ _ _ (proj1 Hsent)). apply Forall_app. split.
      * apply known_login_chain, Hchain.
      * apply Forall_cons_2; [|apply Forall_nil_2]. right. right. right. eauto.
  - split; [split; reflexivity|]. apply Forall_nil_2.
Qed.

End Token_calls.

(** ** The size of the challenge data *)

(** X16. The challenge that [generate_challenge_data] returns has exactly
    43 characters, all of the base64url alphabet: the unpadded encoding of
    a 32-byte digest.  The verifier has at most 54 characters, the number
    of digits that encode 40 bytes; the characters [-] and [_] that the
    source strips make it shorter. *)
Theorem generate_challenge_data_sizes (E : Env) (c : config) (chal : auth_challenge.t) :
  fst (run E generate_challenge_data c) = Returned chal →
  String.length (auth_challenge.challenge chal) = 43%nat
  ∧ string_forall is_base64url (auth_challenge.challenge chal) = true
  ∧ (String.length (auth_challenge.verifier chal) <= 54)%nat.
Proof.
  intros Hrun. destruct (returned_challenge_data E c chal Hrun) as [Hv Hc].
  rewrite Hc, Hv.
  pose proof (length_os_urandom E (trace c) 40) as Hlen.
  generalize dependent (os_urandom E (trace c) 40). intros random _ Hlen.
  destruct (length_challenge_of (verifier_of random)) as [H43 Halphabet].
  split; [exact H43|]. split; [exact Halphabet|].
  pose proof (length_verifier_of random) as Hle. rewrite Hlen in Hle. exact Hle.
Qed.

(** Random bytes that leave one character: the verifier can be far shorter
    than the encoding it is taken from. *)
Example verifier_of_ones :
  verifier_of (repeat xff 40) = "w".
Proof. vm_compute. reflexivity. Qed.

(** ** Several callers: progress, and writes under the lock *)

Section Concurrent_progress.

Context {bs4 : Bs4} {urllib : Urllib} {const : Const}.

(** The lock is held by a task of the pool that is in its critical
    section, and free when there is none. *)
Definition owned (s : pool) : Prop :=
  ∃ holder : option nat,
    _async_lock (shared s) = bool_decide (is_Some holder)
    ∧ (∀ j t, tasks s !! j = Some t →
              if decide (holder = Some j) then holding t else outside t)
    ∧ (∀ h, holder = Some h → is_Some (tasks s !! h)).

Lemma owned_initial (username password : string) (n : nat) :
  owned (initial username password n).
Proof.
  exists None. split; [reflexivity|]. split; [|discriminate].
  intros j t Hj. cbn [initial tasks] in Hj.
  apply lookup_replicate in Hj as [-> _]. left. reflexivity.
Qed.

Lemma owned_step (s s' : pool) (l : nat * action) :
  owned s → pool_step s l s' → owned s'.
Proof.
  intros (holder & Hlock & Htasks & Hholder) Hstep.
  destruct Hstep as [o ts i t a o' t' Hi Hstep]. cbn [shared tasks] in *.
  pose proof (lookup_lt_Some _ _ _ Hi) as Hlt.
  pose proof (Htasks i t Hi) as Ht.
  assert (Hstays : ∀ h, is_Some (ts !! h) → is_Some (<[i := t']> ts !! h)).
  { intros h Hh. apply lookup_lt_is_Some. rewrite length_insert.
    apply lookup_lt_is_Some. exact Hh. }
  destruct (decide (holder = Some i)) as [->|Hother].
  - destruct (step_holding _ _ _ _ _ Ht Hstep) as [[-> Hout]|[Hsame Hhold]].
    + exists None. split; [reflexivity|]. split; [|discriminate]. intros j x Hx.
      destruct (lookup_insert_task _ _ _ _ _ Hlt Hx) as [[-> ->]|[Hne Hold]];
        [exact Hout|].
      specialize (Htasks j x Hold).
      destruct (decide (Some i = Some j)) as [[= ->]|_]; [congruence|exact Htasks].
    + exists (Some i). split; [exact (eq_trans Hsame Hlock)|]. split.
      * intros j x Hx.
        destruct (lookup_insert_task _ _ _ _ _ Hlt Hx) as [[-> ->]|[Hne Hold]].
        -- rewrite decide_True by reflexivity. exact Hhold.
        -- exact (Htasks j x Hold).
      * intros h [= <-]. apply Hstays. eauto.
  - destruct (step_outside _ _ _ _ _ Ht Hstep) as [(Hfree & -> & Hhold)|[-> Hout]].
    + destruct holder as [h|]; [rewrite Hfree in Hlock; discriminate|].
      exists (Some i). split; [reflexivity|]. split.
      * intros j x Hx.
        destruct (lookup_insert_task _ _ _ _ _ Hlt Hx) as [[-> ->]|[Hne Hold]].
        -- rewrite decide_True by reflexivity. exact Hhold.
        -- rewrite decide_False by congruence. exact (Htasks j x Hold).
      * intros h [= <-]. apply Hstays. eauto.
    + exists holder. split; [exact Hlock|]. split.
      * intros j x Hx.
        destruct (lookup_insert_task _ _ _ _ _ Hlt Hx) as [[-> ->]|[Hne Hold]].
        -- rewrite decide_False by exact Hother. exact Hout.
        -- exact (Htasks j x Hold).
      * intros h Hh. apply Hstays, (Hholder h Hh).
Qed.

Lemma owned_execution (s s' : pool) (ls : list (nat * action)) :
  execution s ls s' → owned s → owned s'.
Proof.
  induction 1 as [|s l s1 ls s2 Hstep _ IH]; [auto|].
  intros Hs. apply IH. exact (owned_step _ _ _ Hs Hstep).
Qed.

(** The task in the critical section can always take a step: it never
    waits for the lock, and the outside world may always answer. *)
Lemma holding_can_step (o : HubSpaceAuth) (t : task) :
  holding t → ∃ a o' t', task_step o t a o' t'.
Proof.
  intros [(p & -> & Hc)|(rq & k & -> & _)].
  - destruct Hc as [k _|rq k _|k _|n k _|k _|f k _ _].
    + do 3 eexists. apply step_release.
    + do 3 eexists. apply step_send.
    + do 3 eexists. apply (step_now o k 0%Q).
    + do 3 eexists. apply (step_urandom o n k (repeat x00 n)). apply repeat_length.
    + do 3 eexists. apply step_load.
    + do 3 eexists. apply step_store.
  - do 3 eexists. apply (step_receive o rq k (Failure (TransportError ""))).
Qed.

(** A task outside the critical section is done, or can take a step as
    soon as the lock is free. *)
Lemma outside_can_step (o : HubSpaceAuth) (t : task) :
  outside t → _async_lock o = false →
  (∃ r, t = Done r) ∨ ∃ a o' t', task_step o t a o' t'.
Proof.
  intros [->|[(p & -> & Hq)|Hdone]] Hfree; [| |left; exact Hdone].
  - right. rewrite token_unfold. do 3 eexists. apply step_acquire, Hfree.
  - right. destruct Hq as [a|e|k _].
    + do 3 eexists. apply step_return.
    + do 3 eexists. apply step_raise.
    + do 3 eexists. apply step_load.
Qed.

(** X17. Concurrent callers of [token] on one fresh authenticator never
    deadlock: in every state they can reach, under any interleaving, a
    caller can take a step unless all callers are done.  While the lock is
    held, the caller that holds it is one that can step; it is never held
    by a caller that is done or by nobody. *)
Theorem callers_never_deadlock (username password : string) (n : nat)
    (ls : list (nat * action)) (s : pool) (i : nat) (t : task) :
  execution (initial username password n) ls s →
  tasks s !! i = Some t →
  (∀ r, t ≠ Done r) →
  ∃ j a s', pool_step s (j, a) s'
            ∧ (_async_lock (shared s) = true →
               ∃ tj, tasks s !! j = Some tj ∧ holding tj).
Proof.
  intros Hexec Hi Hbusy.
  destruct (owned_execution _ _ _ Hexec (owned_initial username password n))
    as (holder & Hlock & Htasks & Hholder).
  destruct s as [o ts]. cbn [shared tasks] in *.
  destruct holder as [h|].
  - destruct (Hholder h eq_refl) as [th Hh].
    pose proof (Htasks h th Hh) as Hhold. rewrite decide_True in Hhold by reflexivity.
    destruct (holding_can_step o th Hhold) as (a & o' & t' & Hstep).
    exists h, a, (Pool o' (<[h := t']> ts)).
    split; [exact (pool_step_task _ _ _ _ _ _ _ Hh Hstep)|]. eauto.
  - pose proof (Htasks i t Hi) as Hout. rewrite decide_False in Hout by discriminate.
    destruct (outside_can_step o t Hout Hlock) as [[r ->]|(a & o' & t' & Hstep)].
    + exfalso. exact (Hbusy r eq_refl).
    + exists i, a, (Pool o' (<[i := t']> ts)).
      split; [exact (pool_step_task _ _ _ _ _ _ _ Hi Hstep)|].
      rewrite Hlock. discriminate.
Qed.

(** X18. With concurrent callers the two caches only change under the
    lock: a step taken while the lock is free leaves the refresh token and
    the token as they are, and so does every step that is not an
    assignment; an assignment is made by the caller in its critical
    section, with the lock held before and after. *)
Theorem caches_change_under_lock (username password : string) (n : nat)
    (ls : list (nat * action)) (s s' : pool) (i : nat) (a : action) :
  execution (initial username password n) ls s →
  pool_step s (i, a) s' →
  (_async_lock (shared s) = false ∨ a ≠ AStore →
   _refresh_token (shared s') = _refresh_token (shared s)
   ∧ _token_data (shared s') = _token_data (shared s))
  ∧ (a = AStore →
     _async_lock (shared s) = true
     ∧ _async_lock (shared s') = true
     ∧ ∃ t, tasks s !! i = Some t ∧ holding t).
Proof.
  intros Hexec Hstep.
  destruct (exclusive_execution _ _ _ Hexec (exclusive_initial username password n))
    as (holder & Hlock & Htasks).
  inversion Hstep as [o ts i0 t a0 o' t' Hi Htask]; subst. cbn [shared tasks] in *.
  pose proof (Htasks i t Hi) as Ht.
  assert (Hquiet : a ≠ AStore →
            _refresh_token o' = _refresh_token o ∧ _token_data o' = _token_data o).
  { intros Ha. inversion Htask; subst; try (split; reflexivity). congruence. }
  split.
  - intros [Hfree|Ha]; [|exact (Hquiet Ha)].
    destruct holder as [h|]; [rewrite Hfree in Hlock; discriminate|].
    rewrite decide_False in Ht by discriminate.
    destruct (step_outside _ _ _ _ _ Ht Htask) as [(_ & -> & _)|[-> _]];
      split; reflexivity.
  - intros ->. inversion Htask; subst.
    destruct (decide (holder = Some i)) as [->|_].
    + pose proof Ht as Hhold.
      destruct Ht as [(p & [= <-] & Hc)|(rq & k0 & [=] & _)].
      inversion Hc as [| | | | |f0 k0 Hf Hk]; subst.
      split; [exact Hlock|]. split; [rewrite Hf; exact Hlock|]. eauto.
    + exfalso. destruct Ht as [Htok|[(p & [= <-] & Hq)|(r & [=])]].
      * rewrite token_unfold in Htok. discriminate.
      * inversion Hq.
Qed.

End Concurrent_progress.

(** ** The further properties on the fixtures *)

Lemma extract_login_data_raises_witness :
  extract_login_data (bs4 := Fixture.bs4) (urllib := Urllib_reference.instance)
                     Fixture.bad_action_page
  = Raise ValueError
  ∧ Urllib_reference.split_url "http://[x?session_code=sc01&execution=ex02"
    = Raise ValueError.
Proof.
  split; [reflexivity|].
  destruct (extract_login_data_raises
              (bs4 := Fixture.bs4) (urllib := Urllib_reference.instance)
              Fixture.bad_action_page ValueError eq_refl)
    as [Hno|[Hno|(_ & auth_page & login_form & login_url & Hpage & Hform & Haction & Hurl)]];
    [discriminate Hno|discriminate Hno|].
  injection Hpage as <-. injection Hform as <-. injection Haction as <-.
  exact Hurl.
Defined.

Lemma webapp_login_submits_witness :
  run Fixture.env
      (webapp_login (bs4 := Fixture.bs4) (urllib := Urllib_reference.instance)
                    (const := Fixture.const) (auth_challenge.AuthChallenge "c" "v"))
      (fresh "user" "secret")
  = (Returned "ABC123",
     Config (__init__ "user" "secret")
       [EvHttp (openid_request (auth_challenge.AuthChallenge "c" "v"))
               (Response (Fixture.response 200 ∅ Fixture.login_page Fixture.no_json));
        EvHttp (code_request (const := Fixture.const) "user" "secret" "sc01" "ex02" "tb03")
               (Response (Fixture.redirect
                            "hubspace-app://loginredirect?session_state=77&code=ABC123"))]).
Proof.
  rewrite (webapp_login_submits
             (bs4 := Fixture.bs4) (urllib := Urllib_reference.instance)
             (const := Fixture.const) Fixture.env (auth_challenge.AuthChallenge "c" "v")
             (fresh "user" "secret")
             (Fixture.response 200 ∅ Fixture.login_page Fixture.no_json)
             (auth_sess_data.AuthSessionData "sc01" "ex02" "tb03")).
  - reflexivity.
  - reflexivity.
  - cbn. lia.
  - reflexivity.
Defined.

Lemma perform_initial_login_returned_witness :
  ∃ (random : list byte) (code : string) (d : gmap string value),
    length random = 40%nat
    ∧ code = "ABC123"
    ∧ d !! "refresh_token" = Some (VStr "refresh-1").
Proof.
  pose (login := perform_initial_login (bs4 := Fixture.bs4)
                   (urllib := Urllib_reference.instance) (const := Fixture.const)).
  destruct (perform_initial_login_returned
              (bs4 := Fixture.bs4) (urllib := Urllib_reference.instance)
              (const := Fixture.const) Fixture.env (fresh "user" "secret")
              (snd (run Fixture.env login (fresh "user" "secret"))) (VStr "refresh-1"))
    as (random & page & login_data & redirect & code & answer & d & Hlen & Hc' & _ & _
        & Hcode & _ & _ & Hrt).
  { vm_compute. reflexivity. }
  exists random, code, d. split; [exact Hlen|]. split; [|exact Hrt].
  cbv zeta in Hc'.
  assert (Hlast : last (trace (snd (run Fixture.env login (fresh "user" "secret"))))
                  = Some (EvHttp (refresh_token_request (const := Fixture.const) code
                                    (auth_challenge.AuthChallenge
                                       (challenge_of (verifier_of random))
                                       (verifier_of random)))
                                 (Response answer))).
  { rewrite Hc'. cbn [trace fresh app]. reflexivity. }
  assert (Hsent : match last (trace (snd (run Fixture.env login (fresh "user" "secret")))) with
                  | Some (EvHttp (POST _ _ (_ :: (_, VStr x) :: _) _ _) _) => x = "ABC123"
                  | _ => False
                  end) by (vm_compute; reflexivity).
  rewrite Hlast in Hsent. exact Hsent.
Defined.

Lemma token_sends_in_order_witness :
  let tok := token (bs4 := Fixture.bs4) (urllib := Urllib_reference.instance)
                   (const := Fixture.const) in
  ∃ sent,
    requests (trace (snd (run Fixture.env tok (fresh "user" "secret")))) = sent
    ∧ (length sent <= 4)%nat.
Proof.
  cbv zeta.
  destruct (token_sends_in_order
              (bs4 := Fixture.bs4) (urllib := Urllib_reference.instance)
              (const := Fixture.const) Fixture.env (fresh "user" "secret") eq_refl)
    as (sent & chain & rt & Hreqs & _ & _ & Hlen).
  exists sent. split; [exact Hreqs|exact Hlen].
Defined.

Lemma cached_token_was_issued_witness :
  issued (const := Fixture.const)
    (trace (calls (bs4 := Fixture.bs4) (urllib := Urllib_reference.instance)
                  (const := Fixture.const) Fixture.env 2 (fresh "user" "secret")))
    (token_data.TokenData (VStr "bearer-1") ((1006 # 1) + (118 # 1))).
Proof.
  apply (cached_token_was_issued
           (bs4 := Fixture.bs4) (urllib := Urllib_reference.instance)
           (const := Fixture.const) Fixture.env "user" "secret" 2).
  vm_compute. reflexivity.
Defined.

Lemma generate_challenge_data_sizes_witness :
  String.length "mH1q_ijsuQBUVQv98O1U8-1bD0byteV3EVkXmFH5_ds" = 43%nat
  ∧ (String.length "AAECAwQFBgcICQoLDA0ODxAREhMUFRYXGBkaGxwdHh8gISIjJCUmJw" <= 54)%nat.
Proof.
  destruct (generate_challenge_data_sizes Fixture.env (fresh "user" "secret")
              (auth_challenge.AuthChallenge
                 "mH1q_ijsuQBUVQv98O1U8-1bD0byteV3EVkXmFH5_ds"
                 "AAECAwQFBgcICQoLDA0ODxAREhMUFRYXGBkaGxwdHh8gISIjJCUmJw"))
    as (Hchallenge & _ & Hverifier).
  { vm_compute. reflexivity. }
  split; [exact Hchallenge|exact Hverifier].
Defined.

(** A step of the schedule is a step of the pool. *)
Lemma pool_step_of_next (W : World) (position : nat) (s : pool) (i : nat) (t t' : task)
    (a : action) (o' : HubSpaceAuth) :
  tasks s !! i = Some t →
  task_next W position (shared s) t = Some (a, o', t') →
  pool_step s (i, a) (Pool o' (<[i := t']> (tasks s))).
Proof.
  destruct s as [o ts]. cbn [shared tasks]. intros Hi Hnext.
  apply pool_step_task with (t := t); [exact Hi|].
  exact (task_next_sound _ _ _ _ _ _ _ Hnext).
Qed.

Lemma callers_never_deadlock_witness :
  let tok := token (bs4 := Fixture.bs4) (urllib := Urllib_reference.instance)
                   (const := Fixture.const) in
  let start := Pool (__init__ "user" "secret") [Running tok; Running tok] in
  let s := snd (run_schedule fixture_world 0 (replicate 5 0%nat) start) in
  _async_lock (shared s) = true
  ∧ ∃ j a s', pool_step s (j, a) s'.
Proof.
  cbv zeta.
  set (tok := token (bs4 := Fixture.bs4) (urllib := Urllib_reference.instance)
                    (const := Fixture.const)).
  set (start := Pool (__init__ "user" "secret") [Running tok; Running tok]).
  pose proof (run_schedule_sound fixture_world (replicate 5 0%nat) 0 start) as Hexec.
  assert (Hlate : tasks (snd (run_schedule fixture_world 0 (replicate 5 0%nat) start)) !! 1%nat
                  = Some (Running tok)).
  { rewrite run_schedule_other; [reflexivity|].
    intros Hin. apply elem_of_replicate in Hin as [Hin _]. discriminate. }
  split; [vm_compute; reflexivity|].
  destruct (callers_never_deadlock
              (bs4 := Fixture.bs4) (urllib := Urllib_reference.instance)
              (const := Fixture.const) "user" "secret" 2 _ _ 1%nat (Running tok)
              Hexec Hlate)
    as (j & a & s' & Hstep & _).
  { intros r. discriminate. }
  exists j, a, s'. exact Hstep.
Defined.

Lemma caches_change_under_lock_witness :
  let tok := token (bs4 := Fixture.bs4) (urllib := Urllib_reference.instance)
                   (const := Fixture.const) in
  let start := Pool (__init__ "user" "secret") [Running tok; Running tok] in
  let s := snd (run_schedule fixture_world 0 (replicate 10 0%nat) start) in
  _async_lock (shared s) = true
  ∧ ∃ t, tasks s !! 0%nat = Some t ∧ holding t.
Proof.
  cbv zeta.
  set (tok := token (bs4 := Fixture.bs4) (urllib := Urllib_reference.instance)
                    (const := Fixture.const)).
  set (start := Pool (__init__ "user" "secret") [Running tok; Running tok]).
  set (s := snd (run_schedule fixture_world 0 (replicate 10 0%nat) start)).
  pose proof (run_schedule_sound fixture_world (replicate 10 0%nat) 0 start) as Hexec.
  fold s in Hexec.
  assert (Hact : match tasks s !! 0%nat with
                 | Some t =>
                     match task_next fixture_world 10 (shared s) t with
                     | Some (a, _, _) => Some a
                     | None => None
                     end
                 | None => None
                 end = Some AStore) by (vm_compute; reflexivity).
  destruct (tasks s !! 0%nat) as [t0|] eqn:H0; [|discriminate Hact].
  destruct (task_next fixture_world 10 (shared s) t0) as [[[a o'] t']|] eqn:Hnext;
    [|discriminate Hact].
  injection Hact as ->.
  destruct (caches_change_under_lock
              (bs4 := Fixture.bs4) (urllib := Urllib_reference.instance)
              (const := Fixture.const) "user" "secret" 2 _ s
              (Pool o' (<[0%nat := t']> (tasks s))) 0%nat AStore Hexec
              (pool_step_of_next _ _ _ _ _ _ _ _ H0 Hnext))
    as [_ Hstore].
  destruct (Hstore eq_refl) as (Hheld & _ & t & Ht & Hholding).
  split; [exact Hheld|]. exists t. split; [|exact Hholding].
  rewrite <- H0. exact Ht.
Defined.

(** A cache with a token that is good for a long while, and an empty string
    for the refresh token. *)
Lemma token_logs_in_first_witness :
  let tok := token (bs4 := Fixture.bs4) (urllib := Urllib_reference.instance)
                   (const := Fixture.const) in
  let cached :=
    Config {| _async_lock := false;
              _username := "user";
              _password := "secret";
              _refresh_token := VStr "";
              _token_data := Some (token_data.TokenData (VStr "bearer-0") (5000 # 1)) |}
           [] in
  fst (run Fixture.env tok cached) = Returned (VStr "bearer-0")
  ∧ ∃ random reply rest,
      trace (snd (run Fixture.env tok cached))
      = EvAcquire :: EvUrandom random
        :: EvHttp (openid_request
                     (auth_challenge.AuthChallenge (challenge_of (verifier_of random))
                                                   (verifier_of random)))
                  reply
        :: rest.
Proof.
  cbv zeta. split; [vm_compute; reflexivity|].
  destruct (token_logs_in_first
              (bs4 := Fixture.bs4) (urllib := Urllib_reference.instance)
              (const := Fixture.const) Fixture.env
              (Config {| _async_lock := false;
                         _username := "user";
                         _password := "secret";
                         _refresh_token := VStr "";
                         _token_data :=
                           Some (token_data.TokenData (VStr "bearer-0") (5000 # 1)) |}
                      [])
              eq_refl eq_refl)
    as (random & reply & rest & _ & Htrace).
  exists random, reply, rest. exact Htrace.
Defined.
